(** * bsky-hn-bot: ingestion, dedup, enrichment and release pipelines

    Two scripts share one shape: the Hacker News bot (module [HN]) and the
    r/losangeles bot (module [Reddit], from reddit.js).  Each pulls
    candidates, skips the ones its SQLite table already holds, asks a chat
    endpoint for a summary, stores a row, and later posts one stored row to
    Bluesky and flags it as retrieved.

    The scripts are asynchronous JavaScript.  An [async] function is embedded
    as a program tree [Prog]: a leaf returns or throws, a node performs one
    command against the outside (a SQL statement, an HTTP call, a Bluesky
    call) and continues with its answer.  [run] executes a tree to the end,
    [crashAfter] stops it after a number of commands, and [interleave] runs a
    pool of pending callbacks in the order a schedule dictates, up to the
    first of them that ends in a rejection: nothing handles it, and Node
    ends the process on an unhandled rejection.  Console output is not
    modelled. *)

From Stdlib Require Import ZArith List Sorted String Ascii Bool Lia DecimalString.
Import ListNotations.
Open Scope string_scope.
Open Scope Z_scope.
Open Scope list_scope.

(** * The model *)

(** ** Errors and JavaScript odds and ends *)

(** What a rejected promise carries. *)
Inductive Err : Type :=
| RequestFailed (detail : string)   (* axios / Bluesky agent rejection *)
| SqliteConstraint                  (* UNIQUE or PRIMARY KEY violation *)
| TypeError (detail : string).      (* thrown by library code *)

(** Truthiness of a string: only the empty string is falsy. *)
Definition truthy (s : string) : bool :=
  match s with
  | EmptyString => false
  | String _ _ => true
  end.

(** Truthiness of a property that may be missing. *)
Definition truthy_opt (o : option string) : bool :=
  match o with
  | Some s => truthy s
  | None => false
  end.

(** [a || b] on strings. *)
Definition js_or (a b : string) : string := if truthy a then a else b.

(** [!!row]. *)
Definition notnot {A : Type} (o : option A) : bool :=
  match o with
  | Some _ => true
  | None => false
  end.

Definition LF : string := String "010" EmptyString.
Definition CRLF : string := String "013" (String "010" EmptyString).

(** [xs.join(sep)]. *)
Definition join (sep : string) (xs : list string) : string := String.concat sep xs.

(** A number spliced into a string.  JavaScript numbers are doubles: what is
    spliced in are the digits of the integer only when it is a safe integer,
    as the ids of Hacker News are; [safe_integer] says so where a fact is
    about the digits. *)
Definition decimal (n : Z) : string := NilZero.string_of_int (Z.to_int n).

Definition safe_integer (n : Z) : Prop := - 2 ^ 53 < n < 2 ^ 53.

(** [l[i] = x] on a pool of tasks; nothing happens out of range. *)
Fixpoint set_nth {A : Type} (i : nat) (x : A) (l : list A) : list A :=
  match l, i with
  | [], _ => []
  | _ :: l', O => x :: l'
  | y :: l', S i' => y :: set_nth i' x l'
  end.

(** ** Lists that only grow *)

Module Growth.
Section Grown.

Variable A : Type.
Variable aged : A -> A -> Prop.

(** [l'] is [l] with every element aged in place and new elements added at
    the end: nothing removed, nothing moved. *)
Definition grown (l l' : list A) : Prop :=
  exists olds news, l' = olds ++ news /\ Forall2 aged l olds.

End Grown.

(** [l] is [l'] with some elements left out. *)
Inductive Subseq {A : Type} : list A -> list A -> Prop :=
| SubseqNil : Subseq [] []
| SubseqSkip (x : A) (l l' : list A) : Subseq l l' -> Subseq l (x :: l')
| SubseqTake (x : A) (l l' : list A) : Subseq l l' -> Subseq (x :: l) (x :: l').

End Growth.

(** ** Program trees *)

Module Async.
Section Free.

Variable Cmd : Type.
Variable Resp : Cmd -> Type.

Inductive Prog (A : Type) : Type :=
| Ret (a : A)
| Throw (e : Err)
| Do (c : Cmd) (k : Err + Resp c -> Prog A).

Arguments Ret {A} a.
Arguments Throw {A} e.
Arguments Do {A} c k.

Fixpoint bind {A B : Type} (p : Prog A) (f : A -> Prog B) : Prog B :=
  match p with
  | Ret a => f a
  | Throw e => Throw e
  | Do c k => Do c (fun r => bind (k r) f)
  end.

(** [await] of a promise: a rejection is thrown at the await. *)
Definition call (c : Cmd) : Prog (Resp c) :=
  Do c (fun r => match r with
                 | inl e => Throw e
                 | inr x => Ret x
                 end).

(** [try { p } catch (error) { h error }]. *)
Fixpoint tryCatch {A : Type} (p : Prog A) (h : Err -> Prog A) : Prog A :=
  match p with
  | Ret a => Ret a
  | Throw e => h e
  | Do c k => Do c (fun r => tryCatch (k r) h)
  end.

(** [for (const x of xs) { await body(x) }]. *)
Fixpoint forOf {X : Type} (xs : list X) (body : X -> Prog unit) : Prog unit :=
  match xs with
  | [] => Ret tt
  | x :: rest => bind (body x) (fun _ => forOf rest body)
  end.

Variable World : Type.
Variable Store : Type.
Variable exec : World -> forall c : Cmd, Store -> (Err + Resp c) * Store.

(** The durable store and the commands issued so far, oldest first. *)
Record Sys : Type := mkSys { store : Store; trace : list Cmd }.

Inductive Outcome (A : Type) : Type :=
| Fulfilled (a : A)
| Rejected (e : Err).

Arguments Fulfilled {A} a.
Arguments Rejected {A} e.

Definition perform (w : World) (c : Cmd) (st : Sys) : (Err + Resp c) * Sys :=
  let (r, s') := exec w c (store st) in
  (r, mkSys s' (trace st ++ [c])).

(** Run to the end.  [Rejected] is a rejection nobody handled. *)
Fixpoint run {A : Type} (w : World) (p : Prog A) (st : Sys) : Outcome A * Sys :=
  match p with
  | Ret a => (Fulfilled a, st)
  | Throw e => (Rejected e, st)
  | Do c k => let (r, st') := perform w c st in run w (k r) st'
  end.

(** The process dies after [n] commands; what is left is the store. *)
Fixpoint crashAfter {A : Type} (w : World) (n : nat) (p : Prog A) (st : Sys) : Sys :=
  match n, p with
  | S n', Do c k => let (r, st') := perform w c st in crashAfter w n' (k r) st'
  | _, _ => st
  end.

(** One turn of a pending task: its next command, if it has one. *)
Definition resume {A : Type} (w : World) (p : Prog A) (st : Sys) : Prog A * Sys :=
  match p with
  | Do c k => let (r, st') := perform w c st in (k r, st')
  | _ => (p, st)
  end.

Definition settled {A : Type} (p : Prog A) : bool :=
  match p with
  | Do _ _ => false
  | _ => true
  end.

Definition rejected {A : Type} (p : Prog A) : bool :=
  match p with
  | Throw _ => true
  | _ => false
  end.

(** Tasks in flight share the store; the schedule names whose turn it is.
    The tasks of a pool are calls nobody awaits (the callbacks [forEach]
    starts, a tick the cron job starts): when one of them ends in a
    rejection, that is an unhandled rejection, the process ends, and what
    the schedule held for later does not run. *)
Fixpoint interleave (w : World) (sch : list nat) (pool : list (Prog unit)) (st : Sys)
  : list (Prog unit) * Sys :=
  match sch with
  | [] => (pool, st)
  | i :: sch' =>
      match nth_error pool i with
      | Some p => let (p', st') := resume w p st in
                  if rejected p' then (set_nth i p' pool, st')
                  else interleave w sch' (set_nth i p' pool) st'
      | None => interleave w sch' pool st
      end
  end.

(** The command a task is about to issue. *)
Definition next_cmd {A : Type} (p : Prog A) : option Cmd :=
  match p with
  | Do c _ => Some c
  | _ => None
  end.

(** [q] is what is left of [p] once some of its commands were answered. *)
Inductive Steps {A : Type} : Prog A -> Prog A -> Prop :=
| StepsHere (p : Prog A) : Steps p p
| StepsDo (c : Cmd) (k : Err + Resp c -> Prog A) (r : Err + Resp c) (q : Prog A) :
    Steps (k r) q -> Steps (Do c k) q.

(** No failure of a command in [P] is handled: wherever the program issues
    such a command, a rejection is thrown on as it is. *)
Fixpoint Unhandled (P : Cmd -> bool) {A : Type} (p : Prog A) : Prop :=
  match p with
  | Do c k => (P c = true -> forall e, k (inl e) = Throw e) /\ forall r, Unhandled P (k r)
  | _ => True
  end.

(** Every command the program can come to issue satisfies [Q]. *)
Fixpoint Issues (Q : Cmd -> Prop) {A : Type} (p : Prog A) : Prop :=
  match p with
  | Do c k => Q c /\ forall r, Issues Q (k r)
  | _ => True
  end.

End Free.

Arguments Ret {Cmd Resp A} a.
Arguments Throw {Cmd Resp A} e.
Arguments Do {Cmd Resp A} c k.
Arguments bind {Cmd Resp A B} p f.
Arguments call {Cmd Resp} c.
Arguments tryCatch {Cmd Resp A} p h.
Arguments forOf {Cmd Resp X} xs body.
Arguments mkSys {Cmd Store} store trace.
Arguments store {Cmd Store} s.
Arguments trace {Cmd Store} s.
Arguments Fulfilled {A} a.
Arguments Rejected {A} e.
Arguments settled {Cmd Resp A} p.
Arguments rejected {Cmd Resp A} p.
Arguments next_cmd {Cmd Resp A} p.
Arguments Steps {Cmd Resp A} p q.
Arguments Unhandled {Cmd Resp} P {A} p.
Arguments Issues {Cmd Resp} Q {A} p.

End Async.

Import Async.

(** ** What a program can cost *)

Module Cost.
Section Cost.

Variable Cmd : Type.
Variable Resp : Cmd -> Type.
Variable cost : Cmd -> nat.

(** Whatever the answers, the commands the program issues cost [n] at most
    in total. *)
Inductive Within {A : Type} : nat -> Async.Prog Cmd Resp A -> Prop :=
| WithinRet (n : nat) (a : A) : Within n (Ret a)
| WithinThrow (n : nat) (e : Err) : Within n (Throw e)
| WithinDo (n m : nat) (c : Cmd) (k : Err + Resp c -> Async.Prog Cmd Resp A) :
    (cost c + m <= n)%nat -> (forall r, Within m (k r)) -> Within n (Do c k).

(** The cost of the commands of a trace. *)
Definition spent (l : list Cmd) : nat := list_sum (map cost l).

End Cost.

Arguments Within {Cmd Resp} cost {A} n p.
Arguments spent {Cmd} cost l.

End Cost.

(** ** The Hacker News bot *)

Module HN.

(** A row of [news_data]:
    [id INTEGER PRIMARY KEY AUTOINCREMENT, storyId INTEGER UNIQUE, title TEXT,
     url TEXT, commentSummary TEXT, retrieved INTEGER DEFAULT 0]. *)
Module Row.
Record t : Type := mk {
  id : Z;
  storyId : Z;
  title : string;
  url : string;
  commentSummary : string;
  retrieved : Z
}.
End Row.

(** The table, rows in the order they were inserted, and the AUTOINCREMENT
    counter SQLite keeps beside it (the largest id ever handed out). *)
Record Table : Type := mkTable { rows : list Row.t; seq : Z }.

Definition empty : Table := mkTable [] 0.

(** What [item/<id>.json] answers for a story or a comment; a property may be
    missing (the title is taken to be there: it is only ever copied). *)
Module Item.
Record t : Type := mk {
  title : string;
  url : option string;
  kids : option (list Z);
  text : option string
}.
End Item.

(** The services the script talks to. *)
Record World : Type := mkWorld {
  topstories : Err + list Z;
  item : Z -> Err + option Item.t;        (* the item, or JSON null *)
  completion : string -> string -> Err + string;
  login : Err + unit;
  post : string -> Err + unit;
  facets : string -> Err + unit           (* what [detectFacets] makes of a text *)
}.

Inductive Cmd : Type :=
| CreateTable                              (* CREATE TABLE IF NOT EXISTS news_data *)
| GetTopStories                            (* GET topstories.json *)
| GetItem (itemId : Z)                     (* GET item/<id>.json *)
| ChatCompletion (system user : string)    (* POST chat/completions *)
| SelectStory (storyId : Z)                (* SELECT 1 ... WHERE storyId = ? *)
| InsertStory (storyId : Z) (title url commentSummary : string)
| SelectTop                                (* ... WHERE retrieved = 0 ORDER BY id ASC LIMIT 1 *)
| UpdateRetrieved (id : Z)                 (* UPDATE ... SET retrieved = 1 WHERE id = ? *)
| AgentLogin
| DetectFacets (text : string)             (* await rt.detectFacets(), no agent given *)
| AgentPost (text : string)
| CronStart.                               (* new CronJob(..., main); job.start() *)

(** What a command answers when it does not fail.  A SELECT of the release
    step answers the row it found, here with its flag, which the WHERE
    clause makes 0. *)
Definition Resp (c : Cmd) : Type :=
  match c with
  | GetTopStories => list Z
  | GetItem _ => option Item.t
  | ChatCompletion _ _ => string
  | SelectStory _ => option unit
  | SelectTop => option Row.t
  | _ => unit
  end.

(** *** SQL *)

Definition unretrieved (r : Row.t) : bool := Row.retrieved r =? 0.

Definition has_story (sid : Z) (t : Table) : bool :=
  existsb (fun r => Row.storyId r =? sid) (rows t).

Definition max_id (l : list Row.t) : Z :=
  fold_right (fun r m => Z.max (Row.id r) m) 0 l.

(** INSERT: the UNIQUE column refuses a second row with the story id; the
    new id is one more than the largest id the table ever had. *)
Definition insert (sid : Z) (title url summary : string) (t : Table) : Err + Table :=
  if has_story sid t then inl SqliteConstraint
  else
    let new_id := Z.max (seq t) (max_id (rows t)) + 1 in
    inr (mkTable (rows t ++ [Row.mk new_id sid title url summary 0]) new_id).

(** ORDER BY id ASC LIMIT 1. *)
Fixpoint least_id (l : list Row.t) : option Row.t :=
  match l with
  | [] => None
  | r :: l' =>
      match least_id l' with
      | None => Some r
      | Some m => if Row.id r <=? Row.id m then Some r else Some m
      end
  end.

Definition select_top (t : Table) : option Row.t :=
  least_id (filter unretrieved (rows t)).

Definition mark (r : Row.t) : Row.t :=
  Row.mk (Row.id r) (Row.storyId r) (Row.title r) (Row.url r) (Row.commentSummary r) 1.

Definition update_retrieved (i : Z) (t : Table) : Table :=
  mkTable (map (fun r => if Row.id r =? i then mark r else r) (rows t)) (seq t).

Definition exec (w : World) (c : Cmd) (t : Table) : (Err + Resp c) * Table :=
  match c return (Err + Resp c) * Table with
  | CreateTable => (inr tt, t)
  | GetTopStories => (topstories w, t)
  | GetItem i => (item w i, t)
  | ChatCompletion system user => (completion w system user, t)
  | SelectStory sid => (inr (if has_story sid t then Some tt else None), t)
  | InsertStory sid title url summary =>
      match insert sid title url summary t with
      | inl e => (inl e, t)
      | inr t' => (inr tt, t')
      end
  | SelectTop => (inr (select_top t), t)
  | UpdateRetrieved i => (inr tt, update_retrieved i t)
  | AgentLogin => (login w, t)
  | DetectFacets text => (facets w text, t)
  | AgentPost text => (post w text, t)
  | CronStart => (inr tt, t)
  end.

Definition Prog : Type -> Type := Async.Prog Cmd Resp.
Definition Sys : Type := Async.Sys Cmd Table.
Definition run {A : Type} : World -> Prog A -> Sys -> Outcome A * Sys :=
  Async.run Cmd Resp World Table exec.
Definition crashAfter {A : Type} : World -> nat -> Prog A -> Sys -> Sys :=
  Async.crashAfter Cmd Resp World Table exec.
Definition interleave : World -> list nat -> list (Prog unit) -> Sys -> list (Prog unit) * Sys :=
  Async.interleave Cmd Resp World Table exec.

Notation "x <- p ;; q" := (bind p (fun x => q))
  (at level 61, p at next level, right associativity).
Notation "p ;; q" := (bind p (fun _ => q))
  (at level 61, right associativity).

(** *** The script *)

Definition initializeDatabase : Prog unit :=
  Do CreateTable (fun _ => Ret tt).

Definition fetchTopStories : Prog (list Z) :=
  data <- call GetTopStories ;;
  Ret (firstn 15 data).

Definition fetchStoryDetails (storyId : Z) : Prog (option Item.t) :=
  call (GetItem storyId).

Definition comments_system : string :=
  "You are an assistant summarizing comments from Hacker News as a teet with a snarky but informed tone. The summary should be in the style of an executive summary. Make sure to include a basic sentiment analysis of the link and include the general vibe of the comments. Use an emojii to express the general feelings about the news story in general. Limit this summary to less than 125 characters or letters".

Definition comments_user (comments : string) : string :=
  ("Summarize the following comments in less than 125 characters: " ++ comments)%string.

Definition summarizeComments (comments : string) : Prog string :=
  call (ChatCompletion comments_system (comments_user comments)).

Definition isStoryProcessed (storyId : Z) : Prog bool :=
  row <- call (SelectStory storyId) ;;
  Ret (notnot row).

Definition saveStoryToDatabase (storyId : Z) (title url commentSummary : string)
  : Prog unit :=
  call (InsertStory storyId title url commentSummary).

Definition getTopNewsItem : Prog (option Row.t) :=
  row <- call SelectTop ;;
  match row with
  | Some r => call (UpdateRetrieved (Row.id r)) ;; Ret (Some r)
  | None => Ret None
  end.

(** The message [testRetrieval] assembles. *)
Definition msg (topNewsItem : Row.t) : string :=
  let msg := ("📰 " ++ Row.title topNewsItem ++ CRLF ++ CRLF)%string in
  let msg := (msg ++ "💬 " ++ Row.commentSummary topNewsItem)%string in
  let msg := (msg ++ CRLF ++ CRLF ++ "https://news.ycombinator.com/item?id="
                  ++ decimal (Row.storyId topNewsItem))%string in
  msg.

(** [rt.detectFacets()] is awaited between the login and the post.  It is
    called without an agent: it sends nothing, annotates the text and leaves
    it as it is, or throws (on a text with a mention, which it needs the
    agent to resolve); what is posted is [msg]. *)
Definition testRetrieval : Prog unit :=
  topNewsItem <- getTopNewsItem ;;
  match topNewsItem with
  | Some it =>
      call AgentLogin ;;
      call (DetectFacets (msg it)) ;;
      call (AgentPost (msg it))
  | None => Ret tt
  end.

(** The inner loop of [main]: the texts of the comments fetched so far. *)
Fixpoint fetchComments (kids : list Z) (comments : list string) : Prog (list string) :=
  match kids with
  | [] => Ret comments
  | commentId :: rest =>
      commentDetails <- fetchStoryDetails commentId ;;
      match commentDetails with
      | Some d =>
          match Item.text d with
          | Some text =>
              if truthy text then fetchComments rest (comments ++ [text])
              else fetchComments rest comments
          | None => fetchComments rest comments
          end
      | None => fetchComments rest comments
      end
  end.

(** What [main] does once a story passed the three checks of its guard. *)
Definition enrichAndSave (storyId : Z) (story : Item.t) (kids : list Z) (url : string)
  : Prog unit :=
  comments <- fetchComments (firstn 25 kids) [] ;;
  commentSummary <- summarizeComments (join LF comments) ;;
  saveStoryToDatabase storyId (Item.title story) url commentSummary.

(** The body of the loop of [main] for one story id. *)
Definition processStory (storyId : Z) : Prog unit :=
  processed <- isStoryProcessed storyId ;;
  if processed then Ret tt
  else
    story <- fetchStoryDetails storyId ;;
    match story with
    | None => Ret tt
    | Some s =>
        match Item.kids s, Item.url s with
        | Some kids, Some url =>
            if truthy url then enrichAndSave storyId s kids url else Ret tt
        | _, _ => Ret tt
        end
    end.

Definition ingest (storyIds : list Z) : Prog unit := forOf storyIds processStory.

Definition main : Prog unit :=
  initializeDatabase ;;
  storyIds <- fetchTopStories ;;
  ingest storyIds ;;
  testRetrieval.

(** The top level: one run, then the cron job. *)
Definition script : Prog unit :=
  main ;;
  call CronStart.

(** *** Notions the facts below are stated with *)

Definition ids (t : Table) : list Z := map Row.id (rows t).
Definition story_ids (t : Table) : list Z := map Row.storyId (rows t).

(** Rows waiting to be posted, in the order they were inserted. *)
Definition pending (t : Table) : list Row.t := filter unretrieved (rows t).

(** What the schema and AUTOINCREMENT guarantee of a table: ids grow along
    the insertion order, and no story id occurs twice. *)
Definition wf (t : Table) : Prop :=
  StronglySorted Z.lt (ids t) /\ NoDup (story_ids t).

(** The rows of [before] that were waiting and are flagged in [after]. *)
Definition transitioned (before after : Table) : list Row.t :=
  filter (fun b => unretrieved b &&
                   existsb (fun a => (Row.id a =? Row.id b) && negb (unretrieved a))
                           (rows after))
         (rows before).

(** A row with its flag left out. *)
Definition content (r : Row.t) : Z * Z * string * string * string :=
  (Row.id r, Row.storyId r, Row.title r, Row.url r, Row.commentSummary r).

(** [n] calls of [getTopNewsItem], one after the other. *)
Fixpoint releases (w : World) (n : nat) (st : Sys) : list (Outcome (option Row.t)) * Sys :=
  match n with
  | O => ([], st)
  | S n' =>
      let (o, st') := run w getTopNewsItem st in
      let (os, st'') := releases w n' st' in
      (o :: os, st'')
  end.

(** The commands of one [testRetrieval] that found [r]; [detectFacets]
    follows a login that worked, and the post follows a [detectFacets] that
    did not throw. *)
Definition release_cmds (w : World) (r : Row.t) : list Cmd :=
  [SelectTop; UpdateRetrieved (Row.id r); AgentLogin] ++
  match login w with
  | inl _ => []
  | inr _ =>
      DetectFacets (msg r) ::
      match facets w (msg r) with
      | inl _ => []
      | inr _ => [AgentPost (msg r)]
      end
  end.

(** Has the Bluesky agent been called? *)
Definition publishing (c : Cmd) : bool :=
  match c with
  | AgentLogin | AgentPost _ => true
  | _ => false
  end.

(** The entries of a list that are there. *)
Fixpoint somes {A : Type} (l : list (option A)) : list A :=
  match l with
  | [] => []
  | Some a :: l' => a :: somes l'
  | None :: l' => somes l'
  end.

(** The text a child entry contributes: none when the entry is [null] or
    carries no text. *)
Definition comment_text (w : World) (k : Z) : option string :=
  match item w k with
  | inr (Some d) =>
      match Item.text d with
      | Some s => if truthy s then Some s else None
      | None => None
      end
  | _ => None
  end.

(** The texts of the first 25 children, in the order the story lists them. *)
Definition discussion_texts (w : World) (kids : list Z) : list string :=
  somes (map (comment_text w) (firstn 25 kids)).

(** The fetch of [k] answers, with an item or with [null], and does not
    reject. *)
Definition fetch_ok (w : World) (k : Z) : Prop := forall e, item w k <> inl e.

(** An answer the guard of [main] turns away. *)
Definition skipped (o : option Item.t) : Prop :=
  match o with
  | None => True
  | Some s => Item.kids s = None \/ truthy_opt (Item.url s) = false
  end.

(** *** Notions the further facts are stated with *)

(** The same row later on: what it says is unchanged, and a flag that was
    set is still set. *)
Definition aged (r r' : Row.t) : Prop :=
  content r' = content r /\ (Row.retrieved r <> 0 -> Row.retrieved r' <> 0).

(** The row of id [i] is in the table and flagged. *)
Definition released (i : Z) (t : Table) : Prop :=
  (exists r, In r (rows t) /\ Row.id r = i) /\
  forall r, In r (rows t) -> Row.id r = i -> Row.retrieved r <> 0.

Definition is_chat (c : Cmd) : bool :=
  match c with
  | ChatCompletion _ _ => true
  | _ => false
  end.

Definition is_insert (c : Cmd) : bool :=
  match c with
  | InsertStory _ _ _ _ => true
  | _ => false
  end.

(** A chat request, if it is one, is the comments request with its limit. *)
Definition comments_request (c : Cmd) : Prop :=
  match c with
  | ChatCompletion system user =>
      system = comments_system /\ exists comments, user = comments_user comments
  | _ => True
  end.

(** The ids [main] walks through: the first 15 of the listing, none when the
    listing fails. *)
Definition listed (w : World) : list Z :=
  match topstories w with
  | inl _ => []
  | inr data => firstn 15 data
  end.

Definition is_read (c : Cmd) : bool :=
  match c with
  | SelectStory _ | GetItem _ => true
  | _ => false
  end.

(** How many chat requests, how many INSERTs among the commands. *)
Definition chats (l : list Cmd) : nat := List.length (filter is_chat l).
Definition inserts (l : list Cmd) : nat := List.length (filter is_insert l).

(** A row as [main] stores it in the world [w]: the story answered with a
    list of children and a non-empty url, the title and the url are the
    story's, the summary is what the chat service answered for the texts of
    its first 25 children, and the flag is 0. *)
Definition from_story (w : World) (r : Row.t) : Prop :=
  exists s kids,
    item w (Row.storyId r) = inr (Some s) /\
    Item.kids s = Some kids /\ Item.url s = Some (Row.url r) /\
    truthy (Row.url r) = true /\ Row.title r = Item.title s /\
    completion w comments_system (comments_user (join LF (discussion_texts w kids)))
    = inr (Row.commentSummary r) /\
    Row.retrieved r = 0.

(** A story id the loop of [main] has nothing more to do for in the world
    [w]: the story is in the table, or the guard turns its item away. *)
Definition seen (w : World) (t : Table) (i : Z) : Prop :=
  has_story i t = true \/ exists o, item w i = inr o /\ skipped o.

(** A price for each kind of command. *)
Record Tariff : Type := mkTariff {
  t_create : nat;
  t_listing : nat;
  t_item : nat;
  t_chat : nat;
  t_lookup : nat;
  t_insert : nat;
  t_select : nat;
  t_update : nat;
  t_login : nat;
  t_facets : nat;
  t_post : nat;
  t_cron : nat
}.

Definition price (tf : Tariff) (c : Cmd) : nat :=
  match c with
  | CreateTable => t_create tf
  | GetTopStories => t_listing tf
  | GetItem _ => t_item tf
  | ChatCompletion _ _ => t_chat tf
  | SelectStory _ => t_lookup tf
  | InsertStory _ _ _ _ => t_insert tf
  | SelectTop => t_select tf
  | UpdateRetrieved _ => t_update tf
  | AgentLogin => t_login tf
  | DetectFacets _ => t_facets tf
  | AgentPost _ => t_post tf
  | CronStart => t_cron tf
  end.

(** What one story can cost: the lookup, its item, 25 children, the summary
    and the INSERT. *)
Definition story_price (tf : Tariff) : nat :=
  (t_lookup tf + (t_item tf + (25 * t_item tf + (t_chat tf + t_insert tf))))%nat.

(** What the release can cost. *)
Definition release_price (tf : Tariff) : nat :=
  (t_select tf + t_update tf + (t_login tf + (t_facets tf + t_post tf)))%nat.

(** What a tick can cost: 15 stories and a release. *)
Definition tick_price (tf : Tariff) : nat :=
  (t_create tf + (t_listing tf + (15 * story_price tf + release_price tf)))%nat.

(** Tariffs that count one kind of command. *)
Definition per_item : Tariff := mkTariff 0 0 1 0 0 0 0 0 0 0 0 0.
Definition per_chat : Tariff := mkTariff 0 0 0 1 0 0 0 0 0 0 0 0.
Definition per_insert : Tariff := mkTariff 0 0 0 0 0 1 0 0 0 0 0 0.
Definition per_login : Tariff := mkTariff 0 0 0 0 0 0 0 0 1 0 0 0.
Definition per_post : Tariff := mkTariff 0 0 0 0 0 0 0 0 0 0 1 0.

End HN.

(** ** The r/losangeles bot (reddit.js) *)

Module Reddit.

(** A row of [processed_posts]:
    [id TEXT PRIMARY KEY, title TEXT, url TEXT, summary TEXT,
     retrieved INTEGER DEFAULT 0], with the rowid SQLite gives it. *)
Module Row.
Record t : Type := mk {
  rowid : Z;
  id : string;
  title : string;
  url : string;
  summary : string;
  retrieved : Z
}.
End Row.

(** The table, rows in the order they were inserted. *)
Definition Table : Type := list Row.t.

Definition empty : Table := [].

(** An entry of the listing, as Reddit sends it ([post.data]). *)
Module Child.
Record t : Type := mk {
  id : string;
  title : string;
  permalink : string;
  selftext : string
}.
End Child.

(** An entry of the listing, as [fetchRecentPosts] hands it on. *)
Module Post.
Record t : Type := mk {
  id : string;
  title : string;
  url : string;
  selftext : string
}.
End Post.

Record World : Type := mkWorld {
  access_token : Err + string;
  listing : string -> Err + list Child.t;
  completion : string -> string -> Err + string;
  login : Err + unit;
  post : string -> Err + unit;
  facets : string -> Err + unit           (* what [detectFacets] makes of a text *)
}.

Inductive Cmd : Type :=
| AccessToken                              (* POST api/v1/access_token *)
| GetNew (accessToken : string)            (* GET r/losangeles/new?limit=7 *)
| ChatCompletion (system user : string)    (* POST chat/completions *)
| SelectPost (id : string)                 (* SELECT id ... WHERE id = ? *)
| InsertPost (id title url summary : string)
| SelectOldest                             (* ... WHERE retrieved = 0 ORDER BY ROWID ASC LIMIT 1 *)
| UpdateRetrieved (id : string)            (* UPDATE ... SET retrieved = 1 WHERE id = ? *)
| AgentLogin
| DetectFacets (text : string)             (* await rt.detectFacets(), no agent given *)
| AgentPost (text : string).

(** What a command answers when it does not fail. *)
Definition Resp (c : Cmd) : Type :=
  match c with
  | AccessToken => string
  | GetNew _ => list Child.t
  | ChatCompletion _ _ => string
  | SelectPost _ => option string
  | SelectOldest => option Row.t
  | _ => unit
  end.

(** *** SQL *)

Definition unretrieved (r : Row.t) : bool := Row.retrieved r =? 0.

Definition has_post (i : string) (t : Table) : bool :=
  existsb (fun r => String.eqb (Row.id r) i) t.

Definition max_rowid (t : Table) : Z :=
  fold_right (fun r m => Z.max (Row.rowid r) m) 0 t.

(** INSERT: the primary key refuses a second row with the id; the new rowid
    is one more than the largest rowid in the table. *)
Definition insert (i title url summary : string) (t : Table) : Err + Table :=
  if has_post i t then inl SqliteConstraint
  else inr (t ++ [Row.mk (max_rowid t + 1) i title url summary 0]).

(** ORDER BY ROWID ASC LIMIT 1. *)
Fixpoint least_rowid (l : list Row.t) : option Row.t :=
  match l with
  | [] => None
  | r :: l' =>
      match least_rowid l' with
      | None => Some r
      | Some m => if Row.rowid r <=? Row.rowid m then Some r else Some m
      end
  end.

Definition select_oldest (t : Table) : option Row.t :=
  least_rowid (filter unretrieved t).

Definition mark (r : Row.t) : Row.t :=
  Row.mk (Row.rowid r) (Row.id r) (Row.title r) (Row.url r) (Row.summary r) 1.

Definition update_retrieved (i : string) (t : Table) : Table :=
  map (fun r => if String.eqb (Row.id r) i then mark r else r) t.

Definition exec (w : World) (c : Cmd) (t : Table) : (Err + Resp c) * Table :=
  match c return (Err + Resp c) * Table with
  | AccessToken => (access_token w, t)
  | GetNew token => (listing w token, t)
  | ChatCompletion system user => (completion w system user, t)
  | SelectPost i => (inr (if has_post i t then Some i else None), t)
  | InsertPost i title url summary =>
      match insert i title url summary t with
      | inl e => (inl e, t)
      | inr t' => (inr tt, t')
      end
  | SelectOldest => (inr (select_oldest t), t)
  | UpdateRetrieved i => (inr tt, update_retrieved i t)
  | AgentLogin => (login w, t)
  | DetectFacets text => (facets w text, t)
  | AgentPost text => (post w text, t)
  end.

Definition Prog : Type -> Type := Async.Prog Cmd Resp.
Definition Sys : Type := Async.Sys Cmd Table.
Definition run {A : Type} : World -> Prog A -> Sys -> Outcome A * Sys :=
  Async.run Cmd Resp World Table exec.
Definition crashAfter {A : Type} : World -> nat -> Prog A -> Sys -> Sys :=
  Async.crashAfter Cmd Resp World Table exec.
Definition interleave : World -> list nat -> list (Prog unit) -> Sys -> list (Prog unit) * Sys :=
  Async.interleave Cmd Resp World Table exec.

Notation "x <- p ;; q" := (bind p (fun x => q))
  (at level 61, p at next level, right associativity).
Notation "p ;; q" := (bind p (fun _ => q))
  (at level 61, right associativity).

(** *** The script *)

(** The arrow function [fetchRecentPosts] maps over the listing. *)
Definition post_of (c : Child.t) : Post.t :=
  Post.mk (Child.id c) (Child.title c)
          ("https://www.reddit.com" ++ Child.permalink c)%string
          (Child.selftext c).

Definition fetchRecentPosts : Prog (list Post.t) :=
  accessToken <- call AccessToken ;;
  children <- call (GetNew accessToken) ;;
  Ret (map post_of children).

Definition title_system : string :=
  "You are an assistant summarizing the title of a Reddit Post with a snarky but informed tone. Limit this summary to less than 80 characters or letters.".

Definition title_user (text : string) : string :=
  ("Summarize the following post title in less than 80 characters: " ++ text)%string.

Definition summarizeTitle (text : string) : Prog string :=
  call (ChatCompletion title_system (title_user text)).

Definition discussion_system : string :=
  "You are an assistant summarizing comments from Reddit Posts as a tweet with a snarky but informed tone. The summary should be in the style of an executive summary. Make sure to include a basic sentiment analysis of the post and include the general vibe of the comments. Use an emojii to express the general feelings about the post in general. Limit this summary to less than 125 characters or letters.".

Definition discussion_user (text : string) : string :=
  ("Summarize the following post discussion in less than 125 characters: " ++ text)%string.

Definition summarizeDiscussion (text : string) : Prog string :=
  call (ChatCompletion discussion_system (discussion_user text)).

(** Whatever goes wrong between the login and the post is caught and only
    logged.  [rt.detectFacets()] is awaited in between; it is called without
    an agent: it sends nothing, annotates the text and leaves it as it is, or
    throws (on a text with a mention, which it needs the agent to
    resolve). *)
Definition postToBluesky (content : string) : Prog unit :=
  tryCatch (call AgentLogin ;; call (DetectFacets content) ;; call (AgentPost content))
           (fun _ => Ret tt).

(** The message [retrieveAndPost] assembles. *)
Definition content (row : Row.t) : string :=
  ("📰 " ++ Row.title row ++ LF ++ LF ++ "💬 " ++ Row.summary row ++ LF ++ LF
   ++ "https://www.reddit.com/r/LosAngeles/comments/" ++ Row.id row)%string.

(** The callback of the SELECT; a database error is logged and dropped, as
    is the outcome of the UPDATE. *)
Definition retrieveAndPost : Prog unit :=
  Do SelectOldest (fun r =>
    match r with
    | inl _ => Ret tt
    | inr (Some row) =>
        postToBluesky (content row) ;;
        Do (UpdateRetrieved (Row.id row)) (fun _ => Ret tt)
    | inr None => Ret tt
    end).

(** What [processPosts] starts for one post: the lookup and its callback.
    The title summary is asked for and then only logged; an INSERT that
    fails is logged and dropped. *)
Definition processPost (p : Post.t) : Prog unit :=
  Do (SelectPost (Post.id p)) (fun r =>
    match r with
    | inl _ => Ret tt
    | inr (Some _) => Ret tt
    | inr None =>
        title <- summarizeTitle (Post.title p) ;;
        summary <- summarizeDiscussion (js_or (Post.selftext p) (Post.title p)) ;;
        Do (InsertPost (Post.id p) (Post.title p) (Post.url p) summary) (fun _ => Ret tt)
    end).

(** [processPosts] awaits the listing and returns once [forEach] has issued
    the lookups; their callbacks are left pending. *)
Definition processPosts : Prog (list (Prog unit)) :=
  posts <- fetchRecentPosts ;;
  Ret (map processPost posts).

(** [main] leaves behind the pending callbacks and the timer of the release. *)
Definition main : Prog (list (Prog unit)) :=
  callbacks <- processPosts ;;
  Ret (callbacks ++ [retrieveAndPost]).

(** *** Notions the facts below are stated with *)

Definition rowids (t : Table) : list Z := map Row.rowid t.
Definition post_ids (t : Table) : list string := map Row.id t.

(** Rows waiting to be posted, in the order they were inserted. *)
Definition pending (t : Table) : list Row.t := filter unretrieved t.

(** What the schema guarantees of a table nothing is deleted from: rowids
    grow along the insertion order, and no id occurs twice. *)
Definition wf (t : Table) : Prop :=
  StronglySorted Z.lt (rowids t) /\ NoDup (post_ids t).

(** The rows of [before] that were waiting and are flagged in [after]. *)
Definition transitioned (before after : Table) : list Row.t :=
  filter (fun b => unretrieved b &&
                   existsb (fun a => String.eqb (Row.id a) (Row.id b) && negb (unretrieved a))
                           after)
         before.

(** A row with its flag left out. *)
Definition content_of (r : Row.t) : Z * string * string * string * string :=
  (Row.rowid r, Row.id r, Row.title r, Row.url r, Row.summary r).

(** What [postToBluesky] gets to do: [detectFacets] follows a login that
    worked, and the post follows a [detectFacets] that did not throw. *)
Definition bluesky_trace (w : World) (text : string) : list Cmd :=
  AgentLogin ::
  match login w with
  | inl _ => []
  | inr _ =>
      DetectFacets text ::
      match facets w text with
      | inl _ => []
      | inr _ => [AgentPost text]
      end
  end.

(** The commands of one [retrieveAndPost] that found [r]. *)
Definition release_trace (w : World) (r : Row.t) : list Cmd :=
  SelectOldest :: bluesky_trace w (content r) ++ [UpdateRetrieved (Row.id r)].

(** [n] calls of [retrieveAndPost], one after the other. *)
Fixpoint retrievals (w : World) (n : nat) (st : Sys) : Sys :=
  match n with
  | O => st
  | S n' => retrievals w n' (snd (run w retrieveAndPost st))
  end.

(** What [summarizeDiscussion] is given. *)
Definition discussion_input (p : Post.t) : string :=
  js_or (Post.selftext p) (Post.title p).

Definition title_answer (w : World) (p : Post.t) : Err + string :=
  completion w title_system (title_user (Post.title p)).

Definition discussion_answer (w : World) (p : Post.t) : Err + string :=
  completion w discussion_system (discussion_user (discussion_input p)).

(** The callback of a post, from each of its awaits on. *)
Definition afterSummary (p : Post.t) (summary : string) : Prog unit :=
  Do (InsertPost (Post.id p) (Post.title p) (Post.url p) summary) (fun _ => Ret tt).

Definition afterTitle (p : Post.t) : Prog unit :=
  summary <- summarizeDiscussion (discussion_input p) ;;
  afterSummary p summary.

Definition afterLookup (p : Post.t) : Prog unit :=
  title <- summarizeTitle (Post.title p) ;;
  afterTitle p.

(** Where the callback of [p] can be, and what is known there: a summary
    about to be stored is the one the chat service gave, a callback that
    returned has its id in the table, a callback that threw was let down by
    the chat service. *)
Inductive Stage (w : World) (t : Table) (p : Post.t) : Prog unit -> Prop :=
| AtLookup : Stage w t p (processPost p)
| AtTitle : Stage w t p (afterLookup p)
| AtDiscussion : Stage w t p (afterTitle p)
| AtInsert (summary : string) :
    discussion_answer w p = inr summary -> Stage w t p (afterSummary p summary)
| AtEnd : In (Post.id p) (post_ids t) -> Stage w t p (Ret tt)
| AtFailed (e : Err) :
    title_answer w p = inl e \/ discussion_answer w p = inl e -> Stage w t p (Throw e).

(** A task that never inserts, such as the release. *)
Inductive NoInsert : Prog unit -> Prop :=
| NoInsertRet (a : unit) : NoInsert (Ret a)
| NoInsertThrow (e : Err) : NoInsert (Throw e)
| NoInsertDo (c : Cmd) (k : Err + Resp c -> Prog unit) :
    (forall i title url summary, c <> InsertPost i title url summary) ->
    (forall r, NoInsert (k r)) -> NoInsert (Do c k).

(** A task is the callback of a post of the listing, or something else that
    does not insert. *)
Definition Fits (w : World) (t : Table) (role : option Post.t) (task : Prog unit) : Prop :=
  match role with
  | Some p => Stage w t p task
  | None => NoInsert task
  end.

(** A row that came from the post [p]. *)
Definition from_post (w : World) (p : Post.t) (r : Row.t) : Prop :=
  Row.id r = Post.id p /\ Row.title r = Post.title p /\ Row.url r = Post.url p /\
  discussion_answer w p = inr (Row.summary r).

(** Every row was there at the start or came from a post of the listing. *)
Definition origin (w : World) (t0 : Table) (posts : list Post.t) (t : Table) : Prop :=
  forall r, In r t ->
            (exists r0, In r0 t0 /\ content_of r = content_of r0) \/
            (exists p, In p posts /\ from_post w p r).

(** A text laid out from a row that was there at the start or came from a
    post of the listing. *)
Definition known_text (w : World) (t0 : Table) (posts : list Post.t) (text : string)
  : Prop :=
  exists r, text = content r /\
            ((exists r0, In r0 t0 /\ content_of r = content_of r0) \/
             (exists p, In p posts /\ from_post w p r)).

(** A command that, if it is a post, posts such a text. *)
Definition posts_known (w : World) (t0 : Table) (posts : list Post.t) (c : Cmd) : Prop :=
  forall text, c = AgentPost text -> known_text w t0 posts text.

Record PoolInv (w : World) (t0 : Table) (posts : list Post.t)
       (roles : list (option Post.t)) (pool : list (Prog unit)) (t : Table) : Prop :=
  mkPoolInv {
    inv_fits : Forall2 (Fits w t) roles pool;
    inv_origin : origin w t0 posts t;
    inv_grows : incl (post_ids t0) (post_ids t)
  }.

(** The pool [main] leaves behind, and who is who in it. *)
Definition pool_of (posts : list Post.t) : list (Prog unit) :=
  map processPost posts ++ [retrieveAndPost].

Definition roles_of (posts : list Post.t) : list (option Post.t) :=
  map Some posts ++ [None].

(** The commands of a callback that found its post new. *)
(** The pool of a tick is in order, the release has either not selected yet
    or is left to post a known text only, and what was posted since the
    trace was [tr0] is known. *)
Definition Tidy (w : World) (t0 : Table) (tr0 : list Cmd) (posts : list Post.t)
           (pool : list (Prog unit)) (st : Sys) : Prop :=
  PoolInv w t0 posts (roles_of posts) pool (store st) /\
  Forall (fun task => task = retrieveAndPost \/ Issues (posts_known w t0 posts) task) pool /\
  forall text, In (AgentPost text) (trace st) ->
               In (AgentPost text) tr0 \/ known_text w t0 posts text.

Definition lookup_cmd (p : Post.t) : Cmd := SelectPost (Post.id p).

Definition title_cmd (p : Post.t) : Cmd :=
  ChatCompletion title_system (title_user (Post.title p)).

Definition discussion_cmd (p : Post.t) : Cmd :=
  ChatCompletion discussion_system (discussion_user (discussion_input p)).

Definition insert_cmd (p : Post.t) (summary : string) : Cmd :=
  InsertPost (Post.id p) (Post.title p) (Post.url p) summary.

(** The row a callback stores. *)
Definition row_of (t : Table) (p : Post.t) (summary : string) : Row.t :=
  Row.mk (max_rowid t + 1) (Post.id p) (Post.title p) (Post.url p) summary 0.

(** *** Notions the further facts are stated with *)

(** The same row later on: what it says is unchanged, and a flag that was
    set is still set. *)
Definition aged (r r' : Row.t) : Prop :=
  content_of r' = content_of r /\ (Row.retrieved r <> 0 -> Row.retrieved r' <> 0).

(** The row of id [i] is in the table and flagged. *)
Definition released (i : string) (t : Table) : Prop :=
  In i (post_ids t) /\
  forall r, In r t -> Row.id r = i -> Row.retrieved r <> 0.

(** A price for each kind of command. *)
Record Tariff : Type := mkTariff {
  t_token : nat;
  t_listing : nat;
  t_chat : nat;
  t_lookup : nat;
  t_insert : nat;
  t_select : nat;
  t_update : nat;
  t_login : nat;
  t_facets : nat;
  t_post : nat
}.

Definition price (tf : Tariff) (c : Cmd) : nat :=
  match c with
  | AccessToken => t_token tf
  | GetNew _ => t_listing tf
  | ChatCompletion _ _ => t_chat tf
  | SelectPost _ => t_lookup tf
  | InsertPost _ _ _ _ => t_insert tf
  | SelectOldest => t_select tf
  | UpdateRetrieved _ => t_update tf
  | AgentLogin => t_login tf
  | DetectFacets _ => t_facets tf
  | AgentPost _ => t_post tf
  end.

(** What the callback of one post can cost: the lookup, two summaries and
    the INSERT. *)
Definition callback_price (tf : Tariff) : nat :=
  (t_lookup tf + (t_chat tf + (t_chat tf + t_insert tf)))%nat.

(** What the release can cost. *)
Definition release_price (tf : Tariff) : nat :=
  (t_select tf + ((t_login tf + (t_facets tf + t_post tf)) + t_update tf))%nat.

(** Tariffs that count one kind of command. *)
Definition per_chat : Tariff := mkTariff 0 0 1 0 0 0 0 0 0 0.
Definition per_insert : Tariff := mkTariff 0 0 0 0 1 0 0 0 0 0.
Definition per_login : Tariff := mkTariff 0 0 0 0 0 0 0 1 0 0.
Definition per_post : Tariff := mkTariff 0 0 0 0 0 0 0 0 0 1.

(** What the callback of [p] can cost on the table [t]: the lookup alone
    when the post is in the table. *)
Definition post_price (tf : Tariff) (t : Table) (p : Post.t) : nat :=
  if has_post (Post.id p) t then t_lookup tf else callback_price tf.

(** A task that stays within [n] whatever the table, or a callback that has
    not started yet, for a post that is in the table, with the price of the
    lookup within [n]. *)
Definition WithinAt (tf : Tariff) (t : Table) (n : nat) (task : Prog unit) : Prop :=
  Cost.Within (price tf) n task \/
  exists p, task = processPost p /\ has_post (Post.id p) t = true /\ (t_lookup tf <= n)%nat.

End Reddit.

(** ** The layout of a message *)

Module Message.

(** Spec wording: a title line, a blank line, the summary prefixed with a
    discussion marker, a blank line, and a link, in that fixed order.  [sep]
    is the line break the bot uses; the two markers are the bots'. *)
Definition message_layout (sep title summary link : string) : string :=
  ("📰 " ++ title ++ sep ++ sep ++ "💬 " ++ summary ++ sep ++ sep ++ link)%string.

Definition hn_link (storyId : Z) : string :=
  ("https://news.ycombinator.com/item?id=" ++ decimal storyId)%string.

Definition rd_link (id : string) : string :=
  ("https://www.reddit.com/r/LosAngeles/comments/" ++ id)%string.

End Message.

(** ** Sample worlds and tables *)

Module Examples.

(** Hacker News answers: story 102 with three children ("great", "meh" and a
    deleted one), story 104 with one child, Ask-HN item 103 without a URL;
    every other id is [null]. *)
Definition hn_item (i : Z) : Err + option HN.Item.t :=
  if i =? 102 then inr (Some (HN.Item.mk "Show HN: a thing" (Some "https://example.com/thing")
                                         (Some [2001; 2002; 2003]) None))
  else if i =? 103 then inr (Some (HN.Item.mk "Ask HN: anything?" None (Some [3001]) None))
  else if i =? 104 then inr (Some (HN.Item.mk "Another thing" (Some "https://example.com/other")
                                              (Some [4001]) None))
  else if i =? 2001 then inr (Some (HN.Item.mk "" None None (Some "great")))
  else if i =? 2002 then inr (Some (HN.Item.mk "" None None (Some "meh")))
  else if i =? 4001 then inr (Some (HN.Item.mk "" None None (Some "nice")))
  else inr None.

(** Everything answers. *)
Definition hn_world : HN.World :=
  HN.mkWorld (inr [102; 104]) hn_item (fun _ _ => inr "Mixed feelings") (inr tt)
             (fun _ => inr tt)
             (fun _ => inr tt).

(** The chat endpoint is down. *)
Definition hn_world_chat_down : HN.World :=
  HN.mkWorld (inr [102; 104]) hn_item (fun _ _ => inl (RequestFailed "503")) (inr tt)
             (fun _ => inr tt)
             (fun _ => inr tt).

(** The listing is a single Ask-HN item. *)
Definition hn_world_ask : HN.World :=
  HN.mkWorld (inr [103]) hn_item (fun _ _ => inr "Mixed feelings") (inr tt)
             (fun _ => inr tt)
             (fun _ => inr tt).

(** Three stories stored in the order 300, 100, 200. *)
Definition hn_t1 : HN.Table := HN.mkTable [HN.Row.mk 1 300 "A" "https://a.example" "sa" 0] 1.
Definition hn_t2 : HN.Table :=
  HN.mkTable [HN.Row.mk 1 300 "A" "https://a.example" "sa" 0;
              HN.Row.mk 2 100 "B" "https://b.example" "sb" 0] 2.
Definition hn_t3 : HN.Table :=
  HN.mkTable [HN.Row.mk 1 300 "A" "https://a.example" "sa" 0;
              HN.Row.mk 2 100 "B" "https://b.example" "sb" 0;
              HN.Row.mk 3 200 "C" "https://c.example" "sc" 0] 3.

(** One story, already posted. *)
Definition hn_done : HN.Table :=
  HN.mkTable [HN.Row.mk 1 300 "A" "https://a.example" "sa" 1] 1.

Definition hn_start (t : HN.Table) : HN.Sys := mkSys t [].

(** Reddit answers: a link post (no body) and a text post. *)
Definition link_post : Reddit.Post.t :=
  Reddit.Post.mk "1abcde" "Road closure on the 405"
                 "https://www.reddit.com/r/LosAngeles/comments/1abcde/road_closure/" "".

Definition text_post : Reddit.Post.t :=
  Reddit.Post.mk "1fghij" "Best tacos?"
                 "https://www.reddit.com/r/LosAngeles/comments/1fghij/best_tacos/"
                 "Looking for recommendations.".

Definition rd_children : list Reddit.Child.t :=
  [Reddit.Child.mk "1abcde" "Road closure on the 405"
                   "/r/LosAngeles/comments/1abcde/road_closure/" "";
   Reddit.Child.mk "1fghij" "Best tacos?"
                   "/r/LosAngeles/comments/1fghij/best_tacos/"
                   "Looking for recommendations."].

(** Everything answers; a title request gets "T", a discussion request "D". *)
Definition rd_world : Reddit.World :=
  Reddit.mkWorld (inr "token") (fun _ => inr rd_children)
                 (fun system _ => if String.eqb system Reddit.title_system
                                  then inr "T" else inr "D")
                 (inr tt) (fun _ => inr tt)
                 (fun _ => inr tt).

(** Three posts stored in the order c, a, b. *)
Definition rd_t1 : Reddit.Table := [Reddit.Row.mk 1 "c" "C" "uc" "sc" 0].
Definition rd_t2 : Reddit.Table :=
  [Reddit.Row.mk 1 "c" "C" "uc" "sc" 0; Reddit.Row.mk 2 "a" "A" "ua" "sa" 0].
Definition rd_t3 : Reddit.Table :=
  [Reddit.Row.mk 1 "c" "C" "uc" "sc" 0; Reddit.Row.mk 2 "a" "A" "ua" "sa" 0;
   Reddit.Row.mk 3 "b" "B" "ub" "sb" 0].

(** One post, already posted. *)
Definition rd_done : Reddit.Table := [Reddit.Row.mk 1 "c" "C" "uc" "sc" 1].

Definition rd_start (t : Reddit.Table) : Reddit.Sys := mkSys t [].

(** The chat endpoint fails on the title of the link post and answers
    everything else. *)
Definition rd_world_one_failure : Reddit.World :=
  Reddit.mkWorld (inr "token") (fun _ => inr rd_children)
                 (fun system user =>
                    if String.eqb user (Reddit.title_user "Road closure on the 405")
                    then inl (RequestFailed "503")
                    else if String.eqb system Reddit.title_system then inr "T" else inr "D")
                 (inr tt) (fun _ => inr tt)
                 (fun _ => inr tt).

(** Two ticks of the Hacker News bot in flight at once: each has looked
    story 102 up before either stores it. *)
Definition hn_overlap : list (HN.Prog unit) * HN.Sys :=
  HN.interleave hn_world [0; 0; 0; 1; 1; 1; 0; 0; 0; 0; 0; 0; 1; 1; 1; 1; 1; 1]%nat
                [HN.main; HN.main] (hn_start HN.empty).

(** The same two ticks, one turn before the second INSERT of story 102. *)
Definition hn_before_refusal : list (HN.Prog unit) * HN.Sys :=
  HN.interleave hn_world [0; 0; 0; 1; 1; 1; 0; 0; 0; 0; 0; 0; 1; 1; 1; 1; 1]%nat
                (repeat HN.main 2) (hn_start HN.empty).

(** A tick of the Reddit bot in which the second callback has stored its
    post when the first one fails; the release was to run after that. *)
Definition rd_one_failure : list (Reddit.Prog unit) * Reddit.Sys :=
  Reddit.interleave rd_world_one_failure [1; 1; 1; 1; 0; 0; 2; 2; 2; 2; 2]%nat
                    (Reddit.pool_of [link_post; text_post]) (rd_start Reddit.empty).

(** Bluesky turns the login away, or accepts it and turns the post away. *)
Definition hn_world_login_down : HN.World :=
  HN.mkWorld (inr [102; 104]) hn_item (fun _ _ => inr "Mixed feelings")
             (inl (RequestFailed "401")) (fun _ => inr tt)
             (fun _ => inr tt).

Definition hn_world_post_down : HN.World :=
  HN.mkWorld (inr [102; 104]) hn_item (fun _ _ => inr "Mixed feelings")
             (inr tt) (fun _ => inl (RequestFailed "429"))
             (fun _ => inr tt).

Definition rd_world_login_down : Reddit.World :=
  Reddit.mkWorld (inr "token") (fun _ => inr rd_children) (fun _ _ => inr "D")
                 (inl (RequestFailed "401")) (fun _ => inr tt)
                 (fun _ => inr tt).

Definition rd_world_post_down : Reddit.World :=
  Reddit.mkWorld (inr "token") (fun _ => inr rd_children) (fun _ _ => inr "D")
                 (inr tt) (fun _ => inl (RequestFailed "429"))
                 (fun _ => inr tt).

(** [detectFacets] throws on a text with an at sign, as it does, called
    without an agent, on a text with a mention. *)
Definition detect (text : string) : Err + unit :=
  match index 0 "@" text with
  | Some _ => inl (TypeError "Cannot read properties of undefined")
  | None => inr tt
  end.

Definition hn_world_mention : HN.World :=
  HN.mkWorld (inr [102; 104]) hn_item (fun _ _ => inr "Mixed feelings")
             (inr tt) (fun _ => inr tt) detect.

Definition rd_world_mention : Reddit.World :=
  Reddit.mkWorld (inr "token") (fun _ => inr rd_children) (fun _ _ => inr "D")
                 (inr tt) (fun _ => inr tt) detect.

(** A story and a post whose titles mention somebody, waiting. *)
Definition hn_mention : HN.Table :=
  HN.mkTable [HN.Row.mk 1 500 "Thanks @pg.com" "https://m.example" "sm" 0] 1.

Definition rd_mention : Reddit.Table := [Reddit.Row.mk 1 "m" "Thanks @pg.com" "um" "sm" 0].

(** The listing cannot be fetched. *)
Definition hn_world_listing_down : HN.World :=
  HN.mkWorld (inl (RequestFailed "502")) hn_item (fun _ _ => inr "Mixed feelings")
             (inr tt) (fun _ => inr tt)
             (fun _ => inr tt).

Definition rd_world_token_down : Reddit.World :=
  Reddit.mkWorld (inl (RequestFailed "401")) (fun _ => inr rd_children)
                 (fun _ _ => inr "D") (inr tt) (fun _ => inr tt)
                 (fun _ => inr tt).

Definition rd_world_listing_down : Reddit.World :=
  Reddit.mkWorld (inr "token") (fun _ => inl (RequestFailed "502"))
                 (fun _ _ => inr "D") (inr tt) (fun _ => inr tt)
                 (fun _ => inr tt).

(** Both sample posts stored by an earlier tick, the first one posted. *)
Definition rd_seen : Reddit.Table :=
  [Reddit.Row.mk 1 "1abcde" "Road closure on the 405"
                 "https://www.reddit.com/r/LosAngeles/comments/1abcde/road_closure/" "D" 1;
   Reddit.Row.mk 2 "1fghij" "Best tacos?"
                 "https://www.reddit.com/r/LosAngeles/comments/1fghij/best_tacos/" "D" 0].

End Examples.

(** * Facts *)

(** ** Laws of program trees *)

Module AsyncLaws.
Section Laws.

Variable Cmd : Type.
Variable Resp : Cmd -> Type.
Variable World : Type.
Variable Store : Type.
Variable exec : World -> forall c : Cmd, Store -> (Err + Resp c) * Store.

Local Abbreviation Prog := (Async.Prog Cmd Resp).
Local Abbreviation Sys := (Async.Sys Cmd Store).
Local Abbreviation perform := (Async.perform Cmd Resp World Store exec).
Local Abbreviation run := (Async.run Cmd Resp World Store exec).
Local Abbreviation crashAfter := (Async.crashAfter Cmd Resp World Store exec).
Local Abbreviation resume := (Async.resume Cmd Resp World Store exec).
Local Abbreviation interleave := (Async.interleave Cmd Resp World Store exec).

Lemma run_bind {A B : Type} (w : World) (p : Prog A) (f : A -> Prog B) (st : Sys) :
  run w (bind p f) st =
  match run w p st with
  | (Fulfilled a, st') => run w (f a) st'
  | (Rejected e, st') => (Rejected e, st')
  end.
Proof.
  revert st. induction p as [a | e | c k IH]; intros st; simpl; trivial.
  destruct (perform w c st) as [r st']. apply IH.
Qed.

Lemma run_call (w : World) (c : Cmd) (st : Sys) :
  run w (call c) st =
  match perform w c st with
  | (inl e, st') => (Rejected e, st')
  | (inr x, st') => (Fulfilled x, st')
  end.
Proof.
  unfold call. simpl. destruct (perform w c st) as [[e | x] st']; reflexivity.
Qed.

Lemma run_tryCatch {A : Type} (w : World) (p : Prog A) (h : Err -> Prog A) (st : Sys) :
  run w (tryCatch p h) st =
  match run w p st with
  | (Fulfilled a, st') => (Fulfilled a, st')
  | (Rejected e, st') => run w (h e) st'
  end.
Proof.
  revert st. induction p as [a | e | c k IH]; intros st; simpl; trivial.
  destruct (perform w c st) as [r st']. apply IH.
Qed.

Lemma run_forOf_app {X : Type} (w : World) (xs ys : list X) (body : X -> Prog unit)
      (st : Sys) :
  run w (forOf (xs ++ ys) body) st =
  match run w (forOf xs body) st with
  | (Fulfilled _, st') => run w (forOf ys body) st'
  | (Rejected e, st') => (Rejected e, st')
  end.
Proof.
  revert st. induction xs as [| x xs IH]; intros st; simpl; trivial.
  rewrite !run_bind. destruct (run w (body x) st) as [[[] | e] st']; trivial.
Qed.

(** Commands only ever extend the trace. *)
Lemma perform_trace (w : World) (c : Cmd) (st : Sys) :
  trace (snd (perform w c st)) = trace st ++ [c].
Proof. unfold Async.perform. destruct (exec w c (store st)); reflexivity. Qed.

(** A property of the store that every command keeps is kept by every
    execution: to the end, up to a crash, and under any schedule. *)
Section Invariant.
Variable Inv : Store -> Prop.
Hypothesis exec_keeps : forall w c s, Inv s -> Inv (snd (exec w c s)).

Lemma perform_keeps (w : World) (c : Cmd) (st : Sys) :
  Inv (store st) -> Inv (store (snd (perform w c st))).
Proof.
  intros H. unfold Async.perform. specialize (exec_keeps w c (store st) H).
  destruct (exec w c (store st)); exact exec_keeps.
Qed.

Lemma run_keeps {A : Type} (w : World) (p : Prog A) (st : Sys) :
  Inv (store st) -> Inv (store (snd (run w p st))).
Proof.
  revert st. induction p as [a | e | c k IH]; intros st H; simpl; trivial.
  pose proof (perform_keeps w c st H) as H'.
  destruct (perform w c st) as [r st']. apply IH. exact H'.
Qed.

Lemma crashAfter_keeps {A : Type} (w : World) (n : nat) (p : Prog A) (st : Sys) :
  Inv (store st) -> Inv (store (crashAfter w n p st)).
Proof.
  revert p st. induction n as [| n IH]; intros p st H; simpl; trivial.
  destruct p as [a | e | c k]; trivial.
  pose proof (perform_keeps w c st H) as H'.
  destruct (perform w c st) as [r st']. apply IH. exact H'.
Qed.

Lemma resume_keeps {A : Type} (w : World) (p : Prog A) (st : Sys) :
  Inv (store st) -> Inv (store (snd (resume w p st))).
Proof.
  intros H. destruct p as [a | e | c k]; simpl; trivial.
  pose proof (perform_keeps w c st H) as H'.
  destruct (perform w c st) as [r st']. exact H'.
Qed.

Lemma interleave_keeps (w : World) (sch : list nat) (pool : list (Prog unit))
      (st : Sys) :
  Inv (store st) -> Inv (store (snd (interleave w sch pool st))).
Proof.
  revert pool st. induction sch as [| i sch IH]; intros pool st H; simpl; trivial.
  destruct (nth_error pool i) as [p |]; [| apply IH; exact H].
  pose proof (resume_keeps w p st H) as H'.
  destruct (resume w p st) as [p' st'].
  destruct (rejected p'); [exact H' | apply IH; exact H'].
Qed.
End Invariant.

(** *** What is left of a program *)

Lemma steps_trans {A : Type} (p q r : Prog A) : Steps p q -> Steps q r -> Steps p r.
Proof.
  intros H Hqr. induction H as [p | c k x q H IH]; [exact Hqr |].
  apply (StepsDo _ _ c k x). apply IH. exact Hqr.
Qed.

Lemma steps_resume {A : Type} (w : World) (p : Prog A) (st : Sys) :
  Steps p (fst (resume w p st)).
Proof.
  destruct p as [a | e | c k]; cbn [Async.resume fst]; try apply StepsHere.
  destruct (perform w c st) as [r st']. cbn [fst].
  apply (StepsDo _ _ c k r). apply StepsHere.
Qed.

Lemma unhandled_steps (P : Cmd -> bool) {A : Type} (p q : Prog A) :
  Unhandled P p -> Steps p q -> Unhandled P q.
Proof.
  intros Hp H. induction H as [p | c k x q H IH]; [exact Hp |].
  apply IH. cbn [Unhandled] in Hp. apply Hp.
Qed.

Lemma unhandled_bind (P : Cmd -> bool) {A B : Type} (p : Prog A) (f : A -> Prog B) :
  Unhandled P p -> (forall a, Unhandled P (f a)) -> Unhandled P (bind p f).
Proof.
  intros Hp Hf. induction p as [a | e | c k IH]; cbn [bind Unhandled]; [apply Hf | exact I |].
  cbn [Unhandled] in Hp. destruct Hp as [Hc Hk]. split.
  - intros Hpc e. rewrite (Hc Hpc e). reflexivity.
  - intros r. apply IH. apply Hk.
Qed.

Lemma unhandled_call (P : Cmd -> bool) (c : Cmd) : Unhandled P (call c : Prog (Resp c)).
Proof.
  unfold call. cbn [Unhandled]. split; [reflexivity |]. intros [e | x]; exact I.
Qed.

Lemma unhandled_forOf (P : Cmd -> bool) {X : Type} (xs : list X) (body : X -> Prog unit) :
  (forall x, Unhandled P (body x)) -> Unhandled P (forOf xs body).
Proof.
  intros Hb. induction xs as [| x xs IH]; cbn [forOf]; [exact I |].
  apply unhandled_bind; [apply Hb | intros _; exact IH].
Qed.

(** A command whose failure nothing handles: when it fails, the rest of the
    program is not run. *)
Lemma run_unhandled (P : Cmd -> bool) {A : Type} (w : World) (q : Prog A) (c : Cmd)
      (st : Sys) (e : Err) :
  Unhandled P q -> next_cmd q = Some c -> P c = true ->
  fst (exec w c (store st)) = inl e ->
  run w q st = (Rejected e, mkSys (snd (exec w c (store st))) (trace st ++ [c])) /\
  resume w q st = (Throw e, mkSys (snd (exec w c (store st))) (trace st ++ [c])).
Proof.
  intros Hq Hnext Hpc Hexec. destruct q as [a | e' | c' k]; try discriminate Hnext.
  injection Hnext as ->. cbn [Unhandled] in Hq. destruct Hq as [Hc _].
  specialize (Hc Hpc e). cbn [Async.run Async.resume]. unfold Async.perform.
  destruct (exec w c (store st)) as [r t']. cbn [fst snd] in *. subst r.
  rewrite Hc. split; reflexivity.
Qed.

(** *** What a program can come to issue *)

Lemma issues_bind (Q : Cmd -> Prop) {A B : Type} (p : Prog A) (f : A -> Prog B) :
  Issues Q p -> (forall a, Issues Q (f a)) -> Issues Q (bind p f).
Proof.
  intros Hp Hf. induction p as [a | e | c k IH]; cbn [bind Issues]; [apply Hf | exact I |].
  cbn [Issues] in Hp. split; [apply Hp |]. intros r. apply IH. apply Hp.
Qed.

Lemma issues_tryCatch (Q : Cmd -> Prop) {A : Type} (p : Prog A) (h : Err -> Prog A) :
  Issues Q p -> (forall e, Issues Q (h e)) -> Issues Q (tryCatch p h).
Proof.
  intros Hp Hh. induction p as [a | e | c k IH]; cbn [tryCatch Issues]; [exact I | apply Hh |].
  cbn [Issues] in Hp. split; [apply Hp |]. intros r. apply IH. apply Hp.
Qed.

Lemma issues_call (Q : Cmd -> Prop) (c : Cmd) : Q c -> Issues Q (call c : Prog (Resp c)).
Proof.
  intros Hc. unfold call. cbn [Issues]. split; [exact Hc |]. intros [e | x]; exact I.
Qed.

Lemma issues_resume (Q : Cmd -> Prop) {A : Type} (w : World) (p : Prog A) (st : Sys) :
  Issues Q p -> Issues Q (fst (resume w p st)).
Proof.
  intros Hp. destruct p as [a | e | c k]; cbn [Async.resume fst]; try exact I.
  destruct (perform w c st) as [r st']. cbn [fst]. cbn [Issues] in Hp. apply Hp.
Qed.

(** One turn adds to the trace the command the task was about to issue. *)
Lemma resume_next {A : Type} (w : World) (p : Prog A) (st : Sys) :
  trace (snd (resume w p st)) =
  trace st ++ match next_cmd p with Some c => [c] | None => [] end.
Proof.
  destruct p as [a | e | c k]; cbn [Async.resume next_cmd snd];
    try (symmetry; apply app_nil_r).
  pose proof (perform_trace w c st) as H. destruct (perform w c st) as [r st']. exact H.
Qed.

(** *** Pools *)

Lemma interleave_turn (w : World) (i : nat) (sch : list nat) (pool : list (Prog unit))
      (st : Sys) :
  interleave w (i :: sch) pool st =
  match nth_error pool i with
  | Some task =>
      let (task', st') := resume w task st in
      if rejected task' then (set_nth i task' pool, st')
      else interleave w sch (set_nth i task' pool) st'
  | None => interleave w sch pool st
  end.
Proof. reflexivity. Qed.

Lemma nth_set_nth {A : Type} (i : nat) (x y : A) (l : list A) :
  nth_error l i = Some y -> nth_error (set_nth i x l) i = Some x.
Proof.
  revert i. induction l as [| a l IH]; intros i H; [destruct i; discriminate H |].
  destruct i as [| i]; cbn [set_nth nth_error] in *; [reflexivity | apply IH; exact H].
Qed.

Lemma Forall_set_nth {A : Type} (Q : A -> Prop) (i : nat) (x : A) (l : list A) :
  Forall Q l -> Q x -> Forall Q (set_nth i x l).
Proof.
  intros H Hx. revert i. induction H as [| a l Ha H IH]; intros i.
  - destruct i; constructor.
  - destruct i as [| i]; cbn [set_nth]; constructor; auto.
Qed.

Lemma existsb_nth {A : Type} (f : A -> bool) (l : list A) (i : nat) (x : A) :
  nth_error l i = Some x -> f x = true -> existsb f l = true.
Proof.
  intros Hi Hx. apply existsb_exists. exists x. split; [| exact Hx].
  eapply nth_error_In. exact Hi.
Qed.

(** A property of pool and state that every turn keeps holds under every
    schedule. *)
Lemma interleave_invariant (I : list (Prog unit) -> Sys -> Prop) (w : World) :
  (forall pool st i p,
     I pool st -> nth_error pool i = Some p ->
     I (set_nth i (fst (resume w p st)) pool) (snd (resume w p st))) ->
  forall sch pool st,
    I pool st -> I (fst (interleave w sch pool st)) (snd (interleave w sch pool st)).
Proof.
  intros Hstep sch. induction sch as [| i sch IH]; intros pool st H;
    cbn [Async.interleave]; [exact H |].
  destruct (nth_error pool i) as [p |] eqn:Hnth; [| apply IH; exact H].
  specialize (Hstep pool st i p H Hnth).
  destruct (resume w p st) as [p' st']. cbn [fst snd] in Hstep.
  destruct (rejected p'); [exact Hstep | apply IH; exact Hstep].
Qed.

(** Every task of a pool is what is left of the task it was. *)
Lemma interleave_steps (w : World) (sch : list nat) (pool : list (Prog unit)) (st : Sys) :
  Forall2 Steps pool (fst (interleave w sch pool st)).
Proof.
  assert (Hrefl : forall l : list (Prog unit), Forall2 Steps l l).
  { induction l; constructor; [apply StepsHere | assumption]. }
  apply (interleave_invariant (fun pool' _ => Forall2 Steps pool pool') w); [| apply Hrefl].
  clear sch st. intros pool' st i p H Hnth. revert i Hnth.
  induction H as [| a b l l' Hab H IH]; intros i Hnth; [destruct i; discriminate Hnth |].
  destruct i as [| i]; cbn [set_nth nth_error] in *.
  - injection Hnth as ->. constructor; [| exact H].
    eapply steps_trans; [exact Hab | apply steps_resume].
  - constructor; [exact Hab | apply IH; exact Hnth].
Qed.

(** The first rejection is the end: whatever the schedule held for later is
    not run. *)
Lemma interleave_ends (w : World) (sch sch' : list nat) (pool : list (Prog unit))
      (st : Sys) :
  existsb rejected pool = false ->
  existsb rejected (fst (interleave w sch pool st)) = true ->
  interleave w (sch ++ sch') pool st = interleave w sch pool st.
Proof.
  revert pool st. induction sch as [| i sch IH]; intros pool st Hpool Hend.
  - cbn [Async.interleave fst] in Hend. congruence.
  - cbn [app Async.interleave] in *.
    destruct (nth_error pool i) as [p |] eqn:Hnth; [| apply IH; assumption].
    destruct (resume w p st) as [p' st'].
    destruct (rejected p') eqn:Hrej; [reflexivity |].
    apply IH; [| exact Hend].
    apply Bool.not_true_is_false. intros Hex. apply existsb_exists in Hex.
    destruct Hex as [x [Hin Hx]].
    assert (Hall : Forall (fun q => rejected q = false) (set_nth i p' pool)).
    { apply Forall_set_nth; [| exact Hrej]. apply Forall_forall. intros q Hq.
      apply Bool.not_true_is_false. intros Hq'.
      assert (existsb rejected pool = true) by (apply existsb_exists; exists q; tauto).
      congruence. }
    rewrite Forall_forall in Hall. specialize (Hall x Hin). congruence.
Qed.

(** Without a rejection the schedule is run to its end. *)
Lemma interleave_app (w : World) (sch sch' : list nat) (pool : list (Prog unit))
      (st : Sys) :
  existsb rejected (fst (interleave w sch pool st)) = false ->
  interleave w (sch ++ sch') pool st =
  interleave w sch' (fst (interleave w sch pool st)) (snd (interleave w sch pool st)).
Proof.
  revert pool st. induction sch as [| i sch IH]; intros pool st Hend; [reflexivity |].
  cbn [app Async.interleave] in *.
  destruct (nth_error pool i) as [p |] eqn:Hnth; [| apply IH; assumption].
  destruct (resume w p st) as [p' st'].
  destruct (rejected p') eqn:Hrej; [| apply IH; exact Hend].
  cbn [fst] in Hend.
  rewrite (existsb_nth rejected _ i p' (nth_set_nth i p' p pool Hnth) Hrej) in Hend.
  discriminate Hend.
Qed.

End Laws.
End AsyncLaws.

(** ** Lists of rows with a unique key *)

Module Keyed.
Section Keyed.

Variables (A K : Type) (key : A -> K) (eqb : K -> K -> bool).
Hypothesis eqb_eq : forall x y, eqb x y = true <-> x = y.

Lemma key_inj (l : list A) (x y : A) :
  NoDup (map key l) -> In x l -> In y l -> key x = key y -> x = y.
Proof.
  induction l as [| a l IH]; simpl; [tauto |].
  intros Hn Hx Hy Hk. inversion Hn as [| a' l' Ha Hn']; subst.
  destruct Hx as [-> | Hx], Hy as [-> | Hy]; trivial.
  - exfalso. apply Ha. rewrite Hk. apply in_map. exact Hy.
  - exfalso. apply Ha. rewrite <- Hk. apply in_map. exact Hx.
  - apply IH; assumption.
Qed.

(** Selecting by a key that is unique finds one row at most. *)
Lemma filter_key (p : A -> bool) (l : list A) (r : A) :
  NoDup (map key l) -> In r l ->
  filter (fun b => p b && eqb (key b) (key r)) l = if p r then [r] else [].
Proof.
  induction l as [| a l IH]; simpl; [tauto |].
  intros Hn Hin. inversion Hn as [| a' l' Ha Hn']; subst.
  assert (Hrest : forall l0, (forall b, In b l0 -> key b <> key r) ->
                             filter (fun b => p b && eqb (key b) (key r)) l0 = []).
  { induction l0 as [| c l0 IH0]; simpl; trivial. intros H.
    destruct (eqb (key c) (key r)) eqn:Hc.
    - apply eqb_eq in Hc. exfalso. apply (H c); [left; reflexivity | exact Hc].
    - rewrite andb_false_r. apply IH0. intros b Hb. apply H. right. exact Hb. }
  destruct Hin as [-> | Hin].
  - assert (Hrr : eqb (key r) (key r) = true) by (apply eqb_eq; reflexivity).
    rewrite Hrr, andb_true_r. rewrite Hrest.
    + destruct (p r); reflexivity.
    + intros b Hb Hk. apply Ha. rewrite <- Hk. apply in_map. exact Hb.
  - destruct (eqb (key a) (key r)) eqn:Hc.
    + apply eqb_eq in Hc. exfalso. apply Ha. rewrite Hc. apply in_map. exact Hin.
    + rewrite andb_false_r. apply IH; assumption.
Qed.

Variables (q : A -> bool) (g : A -> A) (i : K).
Hypothesis g_key : forall a, key (g a) = key a.
Hypothesis g_q : forall a, q (g a) = false.

(** After [g] was applied to the rows of key [i], the rows that satisfied
    [q] and whose key now belongs to a row that does not are those of key [i]. *)
Lemma filter_changed (l : list A) :
  NoDup (map key l) ->
  filter (fun b => q b &&
                   existsb (fun a => eqb (key a) (key b) && negb (q a))
                           (map (fun a => if eqb (key a) i then g a else a) l))
         l =
  filter (fun b => q b && eqb (key b) i) l.
Proof.
  intros Hn. apply filter_ext_in. intros b Hb.
  destruct (q b) eqn:Hq; simpl; trivial.
  destruct (eqb (key b) i) eqn:Hi.
  - apply existsb_exists. exists (g b). split.
    + apply in_map_iff. exists b. rewrite Hi. tauto.
    + rewrite g_key, g_q. simpl. rewrite andb_true_r. apply eqb_eq. reflexivity.
  - apply not_true_is_false. intros H. apply existsb_exists in H.
    destruct H as [a [Ha Hpa]]. apply in_map_iff in Ha. destruct Ha as [b' [Hfa Hb']].
    apply andb_true_iff in Hpa. destruct Hpa as [Hk Hqa]. apply eqb_eq in Hk.
    assert (Hkb : key b' = key b).
    { rewrite <- Hk, <- Hfa. destruct (eqb (key b') i); [rewrite g_key |]; reflexivity. }
    assert (b' = b) by (eapply key_inj; eassumption). subst b'.
    rewrite Hi in Hfa. subst a. rewrite Hq in Hqa. discriminate.
Qed.

End Keyed.
End Keyed.

(** ** Facts about the Hacker News table *)

Module HNTable.
Import HN.

Lemma has_story_In (sid : Z) (t : Table) :
  has_story sid t = true <-> In sid (story_ids t).
Proof.
  unfold has_story, story_ids. rewrite existsb_exists, in_map_iff. split.
  - intros [r [Hin Heq]]. exists r. split; [lia | exact Hin].
  - intros [r [Heq Hin]]. exists r. split; [exact Hin | lia].
Qed.

Lemma max_id_bound (l : list Row.t) (r : Row.t) :
  In r l -> Row.id r <= max_id l.
Proof.
  induction l as [| x l IH]; simpl; [tauto |].
  intros [-> | Hin]; [lia | specialize (IH Hin); lia].
Qed.

Lemma sorted_snoc (l : list Z) (x : Z) :
  StronglySorted Z.lt l -> (forall y, In y l -> y < x) -> StronglySorted Z.lt (l ++ [x]).
Proof.
  induction l as [| a l IH]; simpl; intros Hs Hlt.
  - constructor; constructor.
  - inversion Hs as [| a' l' Hs' Hall]; subst. constructor.
    + apply IH; [exact Hs' | intros y Hy; apply Hlt; right; exact Hy].
    + rewrite Forall_app. split; [exact Hall |].
      constructor; [apply Hlt; left; reflexivity | constructor].
Qed.

Lemma wf_empty : wf empty.
Proof. split; constructor. Qed.

Lemma insert_wf (sid : Z) (title url summary : string) (t t' : Table) :
  wf t -> insert sid title url summary t = inr t' -> wf t'.
Proof.
  intros [Hs Hn]. unfold insert.
  destruct (has_story sid t) eqn:Hhas; [discriminate |].
  intros H. injection H as <-. split.
  - unfold ids. simpl. rewrite map_app. simpl. apply sorted_snoc; [exact Hs |].
    intros y Hy. apply in_map_iff in Hy. destruct Hy as [r [<- Hin]].
    pose proof (max_id_bound _ _ Hin). lia.
  - unfold story_ids. simpl. rewrite map_app. simpl.
    apply NoDup_app; [exact Hn | repeat constructor; simpl; tauto |].
    intros x Hx [<- | []]. apply has_story_In in Hx. congruence.
Qed.

Lemma update_ids (i : Z) (t : Table) : ids (update_retrieved i t) = ids t.
Proof.
  unfold ids, update_retrieved. simpl. rewrite map_map. apply map_ext.
  intros r. destruct (Row.id r =? i); reflexivity.
Qed.

Lemma update_story_ids (i : Z) (t : Table) : story_ids (update_retrieved i t) = story_ids t.
Proof.
  unfold story_ids, update_retrieved. simpl. rewrite map_map. apply map_ext.
  intros r. destruct (Row.id r =? i); reflexivity.
Qed.

Lemma update_content (i : Z) (t : Table) :
  map content (rows (update_retrieved i t)) = map content (rows t).
Proof.
  unfold update_retrieved. simpl. rewrite map_map. apply map_ext.
  intros r. destruct (Row.id r =? i); reflexivity.
Qed.

Lemma update_wf (i : Z) (t : Table) : wf t -> wf (update_retrieved i t).
Proof.
  intros [Hs Hn]. split; [rewrite update_ids | rewrite update_story_ids]; assumption.
Qed.

(** Every command keeps the table well formed. *)
Lemma exec_wf (w : World) (c : Cmd) (t : Table) : wf t -> wf (snd (exec w c t)).
Proof.
  intros H. destruct c; simpl; trivial.
  - destruct (insert storyId title url commentSummary t) as [e | t'] eqn:Hins; simpl; trivial.
    eapply insert_wf; eassumption.
  - apply update_wf. exact H.
Qed.

(** *** ORDER BY id ASC LIMIT 1 *)

Lemma least_id_none (l : list Row.t) : least_id l = None <-> l = [].
Proof.
  destruct l as [| r l]; simpl; [tauto |].
  split; [| discriminate].
  destruct (least_id l) as [m |]; [destruct (Row.id r <=? Row.id m) |]; discriminate.
Qed.

Lemma least_id_least (l : list Row.t) (m : Row.t) :
  least_id l = Some m ->
  In m l /\ forall r, In r l -> Row.id m <= Row.id r.
Proof.
  revert m. induction l as [| x l IH]; simpl; intros m H; [discriminate |].
  destruct (least_id l) as [m' |] eqn:Hl.
  - destruct (IH m' eq_refl) as [Hin Hle].
    destruct (Row.id x <=? Row.id m') eqn:Hc; injection H as <-.
    + apply Z.leb_le in Hc. split; [left; reflexivity |].
      intros r [<- | Hr]; [lia | specialize (Hle r Hr); lia].
    + apply Z.leb_gt in Hc. split; [right; exact Hin |].
      intros r [<- | Hr]; [lia | apply Hle; exact Hr].
  - injection H as <-. apply least_id_none in Hl. subst l.
    split; [left; reflexivity |]. intros r [<- | []]. lia.
Qed.

(** Where ids grow along the list, the least id is at the head. *)
Lemma least_id_sorted (l : list Row.t) :
  StronglySorted Z.lt (map Row.id l) -> least_id l = hd_error l.
Proof.
  destruct l as [| x l]; simpl; trivial. intros Hs.
  inversion Hs as [| a l' Hs' Hall]; subst.
  destruct (least_id l) as [m |] eqn:Hl; trivial.
  apply least_id_least in Hl. destruct Hl as [Hin _].
  rewrite Forall_forall in Hall. specialize (Hall (Row.id m) (in_map _ _ _ Hin)).
  destruct (Row.id x <=? Row.id m) eqn:Hc; trivial. apply Z.leb_gt in Hc. lia.
Qed.

Lemma sorted_filter (f : Row.t -> bool) (l : list Row.t) :
  StronglySorted Z.lt (map Row.id l) -> StronglySorted Z.lt (map Row.id (filter f l)).
Proof.
  induction l as [| x l IH]; simpl; trivial. intros Hs.
  inversion Hs as [| a l' Hs' Hall]; subst.
  destruct (f x); simpl; [| apply IH; exact Hs'].
  constructor; [apply IH; exact Hs' |].
  rewrite Forall_forall in *. intros y Hy. apply Hall.
  apply in_map_iff in Hy. destruct Hy as [r [<- Hr]]. apply filter_In in Hr.
  apply in_map. tauto.
Qed.

Lemma select_top_spec (t : Table) (m : Row.t) :
  select_top t = Some m ->
  In m (rows t) /\ Row.retrieved m = 0 /\
  forall r, In r (rows t) -> Row.retrieved r = 0 -> Row.id m <= Row.id r.
Proof.
  unfold select_top. intros H. apply least_id_least in H. destruct H as [Hin Hle].
  apply filter_In in Hin. destruct Hin as [Hin Hu]. unfold unretrieved in Hu.
  split; [exact Hin |]. split; [lia |].
  intros r Hr H0. apply Hle. apply filter_In. split; [exact Hr |].
  unfold unretrieved. lia.
Qed.

Lemma select_top_none (t : Table) :
  select_top t = None <-> forall r, In r (rows t) -> Row.retrieved r <> 0.
Proof.
  unfold select_top. rewrite least_id_none. split.
  - intros H r Hr H0. assert (Hin : In r (filter unretrieved (rows t))).
    { apply filter_In. split; [exact Hr |]. unfold unretrieved. lia. }
    rewrite H in Hin. exact Hin.
  - intros H. destruct (filter unretrieved (rows t)) as [| r l] eqn:Hf; trivial.
    assert (Hin : In r (filter unretrieved (rows t))) by (rewrite Hf; left; reflexivity).
    apply filter_In in Hin. destruct Hin as [Hin Hu]. unfold unretrieved in Hu.
    exfalso. apply (H r Hin). lia.
Qed.

(** On a well-formed table the row selected is the oldest one waiting. *)
Lemma select_top_oldest (t : Table) : wf t -> select_top t = hd_error (pending t).
Proof.
  intros [Hs _]. unfold select_top, pending. apply least_id_sorted.
  apply sorted_filter. exact Hs.
Qed.

End HNTable.

(** ** The release step of the Hacker News bot *)

Module HNRelease.
Import HN HNTable.

Lemma run_getTopNewsItem (w : World) (st : Sys) :
  run w getTopNewsItem st =
  match select_top (store st) with
  | Some r => (Fulfilled (Some r),
               mkSys (update_retrieved (Row.id r) (store st))
                     (trace st ++ [SelectTop; UpdateRetrieved (Row.id r)]))
  | None => (Fulfilled None, mkSys (store st) (trace st ++ [SelectTop]))
  end.
Proof.
  unfold run, getTopNewsItem. simpl.
  destruct (select_top (store st)) as [r |]; simpl; [| reflexivity].
  rewrite <- app_assoc. reflexivity.
Qed.

Lemma run_save (w : World) (sid : Z) (title url summary : string) (st : Sys) :
  run w (saveStoryToDatabase sid title url summary) st =
  match insert sid title url summary (store st) with
  | inl e => (Rejected e, mkSys (store st) (trace st ++ [InsertStory sid title url summary]))
  | inr t' => (Fulfilled tt, mkSys t' (trace st ++ [InsertStory sid title url summary]))
  end.
Proof.
  unfold run, saveStoryToDatabase. simpl. unfold perform. simpl.
  destruct (insert sid title url summary (store st)); reflexivity.
Qed.

Lemma pending_update (i : Z) (t : Table) :
  pending (update_retrieved i t) =
  filter (fun r => negb (Row.id r =? i)) (pending t).
Proof.
  unfold pending, update_retrieved. cbn [rows].
  induction (rows t) as [| r l IH]; cbn [map filter]; trivial.
  rewrite IH. destruct (Row.id r =? i) eqn:Hi.
  - change (unretrieved (mark r)) with false. cbn iota.
    destruct (unretrieved r); cbn [filter]; rewrite ?Hi; reflexivity.
  - destruct (unretrieved r); cbn [filter]; rewrite ?Hi; reflexivity.
Qed.

(** Releasing the oldest waiting row leaves the younger ones waiting. *)
Lemma pending_after_release (t : Table) (r : Row.t) (rest : list Row.t) :
  wf t -> pending t = r :: rest -> pending (update_retrieved (Row.id r) t) = rest.
Proof.
  intros [Hs _] Hp. rewrite pending_update, Hp. simpl.
  rewrite Z.eqb_refl. simpl.
  pose proof (sorted_filter unretrieved (rows t) Hs) as Hsf.
  fold (pending t) in Hsf. rewrite Hp in Hsf. simpl in Hsf.
  inversion Hsf as [| a l' _ Hall]; subst. clear - Hall.
  induction rest as [| x rest IH]; simpl; trivial.
  inversion Hall as [| y l Hx Hall']; subst.
  replace (Row.id x =? Row.id r) with false by (symmetry; apply Z.eqb_neq; lia).
  simpl. f_equal. apply IH. exact Hall'.
Qed.

Lemma releases_S (w : World) (n : nat) (st : Sys) :
  releases w (S n) st =
  let (o, st') := run w getTopNewsItem st in
  let (os, st'') := releases w n st' in
  (o :: os, st'').
Proof. reflexivity. Qed.

(** First in, first out: successive calls hand out the waiting rows in the
    order they were inserted, then [null]. *)
Lemma releases_drain (w : World) (st : Sys) :
  wf (store st) ->
  fst (releases w (S (List.length (pending (store st)))) st) =
  map (fun r => Fulfilled (Some r)) (pending (store st)) ++ [Fulfilled None].
Proof.
  remember (pending (store st)) as p eqn:Hp. revert st Hp.
  induction p as [| r rest IH]; intros st Hp Hwf.
  - rewrite releases_S, run_getTopNewsItem, (select_top_oldest _ Hwf), <- Hp.
    reflexivity.
  - cbn [List.length].
    rewrite releases_S, run_getTopNewsItem, (select_top_oldest _ Hwf), <- Hp.
    cbn [hd_error].
    specialize (IH (mkSys (update_retrieved (Row.id r) (store st))
                          (trace st ++ [SelectTop; UpdateRetrieved (Row.id r)]))).
    cbn [store] in IH.
    rewrite (pending_after_release _ r rest Hwf (eq_sym Hp)) in IH.
    specialize (IH eq_refl (update_wf _ _ Hwf)).
    destruct (releases w (S (List.length rest)) _) as [os st'']. cbn [fst] in *.
    subst os. reflexivity.
Qed.

(** A stored row joins the end of the waiting line, whatever its story id. *)
Lemma pending_insert (sid : Z) (title url summary : string) (t t' : Table) :
  insert sid title url summary t = inr t' ->
  exists i, max_id (rows t) < i /\
            pending t' = pending t ++ [Row.mk i sid title url summary 0].
Proof.
  unfold insert. destruct (has_story sid t); [discriminate |].
  intros H. injection H as <-.
  exists (Z.max (seq t) (max_id (rows t)) + 1). split; [lia |].
  unfold pending. simpl. rewrite filter_app. reflexivity.
Qed.

End HNRelease.

(** ** Facts about the Reddit table *)

Module RedditTable.
Import Reddit.

Lemma has_post_In (i : string) (t : Table) :
  has_post i t = true <-> In i (post_ids t).
Proof.
  unfold has_post, post_ids. rewrite existsb_exists, in_map_iff. split.
  - intros [r [Hin Heq]]. exists r. apply String.eqb_eq in Heq. tauto.
  - intros [r [Heq Hin]]. exists r. split; [exact Hin | apply String.eqb_eq; exact Heq].
Qed.

Lemma max_rowid_bound (t : Table) (r : Row.t) :
  In r t -> Row.rowid r <= max_rowid t.
Proof.
  induction t as [| x l IH]; simpl; [tauto |].
  intros [-> | Hin]; [lia | specialize (IH Hin); lia].
Qed.

Lemma rd_wf_empty : wf empty.
Proof. split; constructor. Qed.

Lemma rd_insert_wf (i title url summary : string) (t t' : Table) :
  wf t -> insert i title url summary t = inr t' -> wf t'.
Proof.
  intros [Hs Hn]. unfold insert.
  destruct (has_post i t) eqn:Hhas; [discriminate |].
  intros H. injection H as <-. split.
  - unfold rowids. rewrite map_app. simpl. apply HNTable.sorted_snoc; [exact Hs |].
    intros y Hy. apply in_map_iff in Hy. destruct Hy as [r [<- Hin]].
    pose proof (max_rowid_bound _ _ Hin). lia.
  - unfold post_ids. rewrite map_app. simpl.
    apply NoDup_app; [exact Hn | repeat constructor; simpl; tauto |].
    intros x Hx [<- | []]. apply has_post_In in Hx. congruence.
Qed.

Lemma rd_update_content (i : string) (t : Table) :
  map content_of (update_retrieved i t) = map content_of t.
Proof.
  unfold update_retrieved. rewrite map_map. apply map_ext.
  intros r. destruct (String.eqb (Row.id r) i); reflexivity.
Qed.

Lemma rd_update_rowids (i : string) (t : Table) : rowids (update_retrieved i t) = rowids t.
Proof.
  unfold rowids, update_retrieved. rewrite map_map. apply map_ext.
  intros r. destruct (String.eqb (Row.id r) i); reflexivity.
Qed.

Lemma rd_update_post_ids (i : string) (t : Table) : post_ids (update_retrieved i t) = post_ids t.
Proof.
  unfold post_ids, update_retrieved. rewrite map_map. apply map_ext.
  intros r. destruct (String.eqb (Row.id r) i); reflexivity.
Qed.

Lemma rd_update_wf (i : string) (t : Table) : wf t -> wf (update_retrieved i t).
Proof.
  intros [Hs Hn]. split; [rewrite rd_update_rowids | rewrite rd_update_post_ids]; assumption.
Qed.

(** Every command keeps the table well formed. *)
Lemma rd_exec_wf (w : World) (c : Cmd) (t : Table) : wf t -> wf (snd (exec w c t)).
Proof.
  intros H. destruct c; simpl; trivial.
  - destruct (insert id title url summary t) as [e | t'] eqn:Hins; simpl; trivial.
    eapply rd_insert_wf; eassumption.
  - apply rd_update_wf. exact H.
Qed.

(** *** ORDER BY ROWID ASC LIMIT 1 *)

Lemma least_rowid_none (l : list Row.t) : least_rowid l = None <-> l = [].
Proof.
  destruct l as [| r l]; simpl; [tauto |].
  split; [| discriminate].
  destruct (least_rowid l) as [m |]; [destruct (Row.rowid r <=? Row.rowid m) |]; discriminate.
Qed.

Lemma least_rowid_least (l : list Row.t) (m : Row.t) :
  least_rowid l = Some m ->
  In m l /\ forall r, In r l -> Row.rowid m <= Row.rowid r.
Proof.
  revert m. induction l as [| x l IH]; simpl; intros m H; [discriminate |].
  destruct (least_rowid l) as [m' |] eqn:Hl.
  - destruct (IH m' eq_refl) as [Hin Hle].
    destruct (Row.rowid x <=? Row.rowid m') eqn:Hc; injection H as <-.
    + apply Z.leb_le in Hc. split; [left; reflexivity |].
      intros r [<- | Hr]; [lia | specialize (Hle r Hr); lia].
    + apply Z.leb_gt in Hc. split; [right; exact Hin |].
      intros r [<- | Hr]; [lia | apply Hle; exact Hr].
  - injection H as <-. apply least_rowid_none in Hl. subst l.
    split; [left; reflexivity |]. intros r [<- | []]. lia.
Qed.

Lemma least_rowid_sorted (l : list Row.t) :
  StronglySorted Z.lt (map Row.rowid l) -> least_rowid l = hd_error l.
Proof.
  destruct l as [| x l]; simpl; trivial. intros Hs.
  inversion Hs as [| a l' Hs' Hall]; subst.
  destruct (least_rowid l) as [m |] eqn:Hl; trivial.
  apply least_rowid_least in Hl. destruct Hl as [Hin _].
  rewrite Forall_forall in Hall. specialize (Hall (Row.rowid m) (in_map _ _ _ Hin)).
  destruct (Row.rowid x <=? Row.rowid m) eqn:Hc; trivial. apply Z.leb_gt in Hc. lia.
Qed.

Lemma rd_sorted_filter (f : Row.t -> bool) (l : list Row.t) :
  StronglySorted Z.lt (map Row.rowid l) -> StronglySorted Z.lt (map Row.rowid (filter f l)).
Proof.
  induction l as [| x l IH]; simpl; trivial. intros Hs.
  inversion Hs as [| a l' Hs' Hall]; subst.
  destruct (f x); simpl; [| apply IH; exact Hs'].
  constructor; [apply IH; exact Hs' |].
  rewrite Forall_forall in *. intros y Hy. apply Hall.
  apply in_map_iff in Hy. destruct Hy as [r [<- Hr]]. apply filter_In in Hr.
  apply in_map. tauto.
Qed.

Lemma nodup_filter (f : Row.t -> bool) (l : list Row.t) :
  NoDup (map Row.id l) -> NoDup (map Row.id (filter f l)).
Proof.
  induction l as [| x l IH]; simpl; trivial. intros Hn.
  inversion Hn as [| a l' Hx Hn']; subst.
  destruct (f x); simpl; [| apply IH; exact Hn'].
  constructor; [| apply IH; exact Hn'].
  intros Hy. apply Hx. apply in_map_iff in Hy. destruct Hy as [r [Heq Hr]].
  apply filter_In in Hr. rewrite <- Heq. apply in_map. tauto.
Qed.

Lemma select_oldest_spec (t : Table) (m : Row.t) :
  select_oldest t = Some m ->
  In m t /\ Row.retrieved m = 0 /\
  forall r, In r t -> Row.retrieved r = 0 -> Row.rowid m <= Row.rowid r.
Proof.
  unfold select_oldest. intros H. apply least_rowid_least in H. destruct H as [Hin Hle].
  apply filter_In in Hin. destruct Hin as [Hin Hu]. unfold unretrieved in Hu.
  split; [exact Hin |]. split; [lia |].
  intros r Hr H0. apply Hle. apply filter_In. split; [exact Hr |].
  unfold unretrieved. lia.
Qed.

Lemma select_oldest_none (t : Table) :
  select_oldest t = None <-> forall r, In r t -> Row.retrieved r <> 0.
Proof.
  unfold select_oldest. rewrite least_rowid_none. split.
  - intros H r Hr H0. assert (Hin : In r (filter unretrieved t)).
    { apply filter_In. split; [exact Hr |]. unfold unretrieved. lia. }
    rewrite H in Hin. exact Hin.
  - intros H. destruct (filter unretrieved t) as [| r l] eqn:Hf; trivial.
    assert (Hin : In r (filter unretrieved t)) by (rewrite Hf; left; reflexivity).
    apply filter_In in Hin. destruct Hin as [Hin Hu]. unfold unretrieved in Hu.
    exfalso. apply (H r Hin). lia.
Qed.

(** On a well-formed table the row selected is the oldest one waiting. *)
Lemma select_oldest_head (t : Table) : wf t -> select_oldest t = hd_error (pending t).
Proof.
  intros [Hs _]. unfold select_oldest, pending. apply least_rowid_sorted.
  apply rd_sorted_filter. exact Hs.
Qed.

End RedditTable.

(** ** The release step of the Reddit bot *)

Module RedditRelease.
Import Reddit RedditTable.

Lemma run_postToBluesky (w : World) (text : string) (st : Sys) :
  run w (postToBluesky text) st =
  (Fulfilled tt, mkSys (store st) (trace st ++ bluesky_trace w text)).
Proof.
  unfold run, postToBluesky, bluesky_trace. simpl. unfold perform. simpl.
  destruct (login w) as [e | []]; simpl; [reflexivity |].
  destruct (facets w text) as [e | []]; simpl; [rewrite <- app_assoc; reflexivity |].
  destruct (post w text) as [e | []]; simpl; rewrite <- !app_assoc; reflexivity.
Qed.

Lemma run_retrieveAndPost (w : World) (st : Sys) :
  run w retrieveAndPost st =
  match select_oldest (store st) with
  | Some r => (Fulfilled tt,
               mkSys (update_retrieved (Row.id r) (store st))
                     (trace st ++ release_trace w r))
  | None => (Fulfilled tt, mkSys (store st) (trace st ++ [SelectOldest]))
  end.
Proof.
  unfold run, retrieveAndPost. cbn [Async.run]. unfold perform at 1. cbn [exec].
  destruct (select_oldest (store st)) as [r |]; [| reflexivity].
  rewrite AsyncLaws.run_bind. fold (@run unit). rewrite run_postToBluesky.
  unfold run. cbn [Async.run]. unfold perform. cbn [exec store trace].
  unfold release_trace. rewrite <- !app_assoc. reflexivity.
Qed.

Lemma rd_pending_update (i : string) (t : Table) :
  pending (update_retrieved i t) =
  filter (fun r => negb (String.eqb (Row.id r) i)) (pending t).
Proof.
  unfold pending, update_retrieved.
  induction t as [| r l IH]; cbn [map filter]; trivial.
  rewrite IH. destruct (String.eqb (Row.id r) i) eqn:Hi.
  - change (unretrieved (mark r)) with false. cbn iota.
    destruct (unretrieved r); cbn [filter]; rewrite ?Hi; reflexivity.
  - destruct (unretrieved r); cbn [filter]; rewrite ?Hi; reflexivity.
Qed.

(** Releasing the oldest waiting row leaves the younger ones waiting. *)
Lemma rd_pending_after_release (t : Table) (r : Row.t) (rest : list Row.t) :
  wf t -> pending t = r :: rest -> pending (update_retrieved (Row.id r) t) = rest.
Proof.
  intros [_ Hn] Hp. rewrite rd_pending_update, Hp. simpl.
  rewrite String.eqb_refl. simpl.
  pose proof (nodup_filter unretrieved t Hn) as Hnf.
  fold (pending t) in Hnf. rewrite Hp in Hnf. simpl in Hnf.
  inversion Hnf as [| a l' Hnotin _]; subst. clear - Hnotin.
  induction rest as [| x rest IH]; simpl; trivial.
  destruct (String.eqb (Row.id x) (Row.id r)) eqn:Hx.
  - apply String.eqb_eq in Hx. exfalso. apply Hnotin. left. exact Hx.
  - simpl. f_equal. apply IH. intros H. apply Hnotin. right. exact H.
Qed.

Lemma retrievals_S (w : World) (n : nat) (st : Sys) :
  retrievals w (S n) st = retrievals w n (snd (run w retrieveAndPost st)).
Proof. reflexivity. Qed.

(** First in, first out: successive calls release the waiting rows in the
    order they were inserted; the call after the last finds nothing. *)
Lemma retrievals_drain (w : World) (st : Sys) :
  wf (store st) ->
  retrievals w (S (List.length (pending (store st)))) st =
  mkSys (fold_left (fun t r => update_retrieved (Row.id r) t) (pending (store st)) (store st))
        (trace st ++ flat_map (release_trace w) (pending (store st)) ++ [SelectOldest]).
Proof.
  remember (pending (store st)) as p eqn:Hp. revert st Hp.
  induction p as [| r rest IH]; intros st Hp Hwf.
  - cbn [List.length]. rewrite retrievals_S, run_retrieveAndPost.
    rewrite (select_oldest_head _ Hwf), <- Hp. reflexivity.
  - cbn [List.length]. rewrite retrievals_S, run_retrieveAndPost.
    rewrite (select_oldest_head _ Hwf), <- Hp. cbn [hd_error snd].
    specialize (IH (mkSys (update_retrieved (Row.id r) (store st))
                          (trace st ++ release_trace w r))).
    cbn [store trace] in IH.
    rewrite (rd_pending_after_release _ r rest Hwf (eq_sym Hp)) in IH.
    rewrite (IH eq_refl (rd_update_wf _ _ Hwf)).
    cbn [fold_left flat_map]. rewrite <- !app_assoc. reflexivity.
Qed.

(** A stored row joins the end of the waiting line, whatever its id. *)
Lemma rd_pending_insert (i title url summary : string) (t t' : Table) :
  insert i title url summary t = inr t' ->
  exists n, max_rowid t < n /\
            pending t' = pending t ++ [Row.mk n i title url summary 0].
Proof.
  unfold insert. destruct (has_post i t); [discriminate |].
  intros H. injection H as <-.
  exists (max_rowid t + 1). split; [lia |].
  unfold pending. rewrite filter_app. reflexivity.
Qed.

End RedditRelease.

(** ** Release order *)

Module Fifo.

(** Hacker News: the row [getTopNewsItem] resolves with is a waiting row of
    least id, and [null] means that no row is waiting. *)
Lemma hn_release_least (w : HN.World) (st : HN.Sys) :
  exists o,
    fst (HN.run w HN.getTopNewsItem st) = Fulfilled o /\
    match o with
    | Some r =>
        In r (HN.rows (store st)) /\ HN.Row.retrieved r = 0 /\
        forall r', In r' (HN.rows (store st)) -> HN.Row.retrieved r' = 0 ->
                   HN.Row.id r <= HN.Row.id r'
    | None => forall r', In r' (HN.rows (store st)) -> HN.Row.retrieved r' <> 0
    end.
Proof.
  exists (HN.select_top (store st)). rewrite HNRelease.run_getTopNewsItem.
  destruct (HN.select_top (store st)) as [r |] eqn:Hsel; (split; [reflexivity |]).
  - apply HNTable.select_top_spec. exact Hsel.
  - apply HNTable.select_top_none. exact Hsel.
Qed.

(** Hacker News: three stories stored in the order A, B, C. *)
Lemma hn_three_in_order (w : HN.World) (tr : list HN.Cmd) (t0 t1 t2 t3 : HN.Table)
      (a b c : Z) (ta ua sa tb ub sb tc uc sc : string) :
  HN.wf t0 -> HN.pending t0 = [] ->
  HN.insert a ta ua sa t0 = inr t1 ->
  HN.insert b tb ub sb t1 = inr t2 ->
  HN.insert c tc uc sc t2 = inr t3 ->
  exists ia ib ic,
    fst (HN.releases w 4 (mkSys t3 tr)) =
    [Fulfilled (Some (HN.Row.mk ia a ta ua sa 0));
     Fulfilled (Some (HN.Row.mk ib b tb ub sb 0));
     Fulfilled (Some (HN.Row.mk ic c tc uc sc 0));
     Fulfilled None].
Proof.
  intros Hwf Hp Ha Hb Hc.
  destruct (HNRelease.pending_insert _ _ _ _ _ _ Ha) as [ia [_ Hpa]].
  destruct (HNRelease.pending_insert _ _ _ _ _ _ Hb) as [ib [_ Hpb]].
  destruct (HNRelease.pending_insert _ _ _ _ _ _ Hc) as [ic [_ Hpc]].
  rewrite Hp in Hpa. rewrite Hpa in Hpb. rewrite Hpb in Hpc. simpl in Hpc.
  exists ia, ib, ic.
  assert (Hwf3 : HN.wf t3).
  { eapply HNTable.insert_wf; [| exact Hc].
    eapply HNTable.insert_wf; [| exact Hb].
    eapply HNTable.insert_wf; [| exact Ha]. exact Hwf. }
  pose proof (HNRelease.releases_drain w (mkSys t3 tr) Hwf3) as Hd.
  cbn [store] in Hd. rewrite Hpc in Hd. exact Hd.
Qed.

(** Reddit: what one [retrieveAndPost] does is decided by the waiting row
    of least rowid. *)
Lemma rd_release_least (w : Reddit.World) (st : Reddit.Sys) :
  (exists r,
     In r (store st) /\ Reddit.Row.retrieved r = 0 /\
     (forall r', In r' (store st) -> Reddit.Row.retrieved r' = 0 ->
                 Reddit.Row.rowid r <= Reddit.Row.rowid r') /\
     trace (snd (Reddit.run w Reddit.retrieveAndPost st)) =
     trace st ++ Reddit.release_trace w r) \/
  ((forall r', In r' (store st) -> Reddit.Row.retrieved r' <> 0) /\
   trace (snd (Reddit.run w Reddit.retrieveAndPost st)) = trace st ++ [Reddit.SelectOldest]).
Proof.
  rewrite RedditRelease.run_retrieveAndPost.
  destruct (Reddit.select_oldest (store st)) as [r |] eqn:Hsel.
  - left. exists r. apply RedditTable.select_oldest_spec in Hsel.
    destruct Hsel as [Hin [H0 Hle]]. auto.
  - right. split; [| reflexivity]. apply RedditTable.select_oldest_none. exact Hsel.
Qed.

(** Reddit: three posts stored in the order A, B, C. *)
Lemma rd_three_in_order (w : Reddit.World) (tr : list Reddit.Cmd)
      (t0 t1 t2 t3 : Reddit.Table)
      (a ta ua sa b tb ub sb c tc uc sc : string) :
  Reddit.wf t0 -> Reddit.pending t0 = [] ->
  Reddit.insert a ta ua sa t0 = inr t1 ->
  Reddit.insert b tb ub sb t1 = inr t2 ->
  Reddit.insert c tc uc sc t2 = inr t3 ->
  exists na nb nc,
    trace (Reddit.retrievals w 4 (mkSys t3 tr)) =
    tr ++ Reddit.release_trace w (Reddit.Row.mk na a ta ua sa 0)
       ++ Reddit.release_trace w (Reddit.Row.mk nb b tb ub sb 0)
       ++ Reddit.release_trace w (Reddit.Row.mk nc c tc uc sc 0)
       ++ [Reddit.SelectOldest].
Proof.
  intros Hwf Hp Ha Hb Hc.
  destruct (RedditRelease.rd_pending_insert _ _ _ _ _ _ Ha) as [na [_ Hpa]].
  destruct (RedditRelease.rd_pending_insert _ _ _ _ _ _ Hb) as [nb [_ Hpb]].
  destruct (RedditRelease.rd_pending_insert _ _ _ _ _ _ Hc) as [nc [_ Hpc]].
  rewrite Hp in Hpa. rewrite Hpa in Hpb. rewrite Hpb in Hpc. simpl in Hpc.
  exists na, nb, nc.
  assert (Hwf3 : Reddit.wf t3).
  { eapply RedditTable.rd_insert_wf; [| exact Hc].
    eapply RedditTable.rd_insert_wf; [| exact Hb].
    eapply RedditTable.rd_insert_wf; [| exact Ha]. exact Hwf. }
  pose proof (RedditRelease.retrievals_drain w (mkSys t3 tr) Hwf3) as Hd.
  cbn [store trace] in Hd. rewrite Hpc in Hd. cbn [List.length] in Hd.
  rewrite Hd. cbn [trace flat_map]. rewrite app_nil_r, <- !app_assoc. reflexivity.
Qed.

End Fifo.

(** ** One row per release *)

Module OneAtATime.

Lemma filter_none {A : Type} (f : A -> bool) (l : list A) :
  (forall a, In a l -> f a = false) -> filter f l = [].
Proof.
  induction l as [| a l IH]; simpl; trivial. intros H.
  rewrite (H a (or_introl eq_refl)). apply IH. intros b Hb. apply H. right. exact Hb.
Qed.

Lemma hn_transitioned_update (t : HN.Table) (r : HN.Row.t) :
  NoDup (HN.ids t) -> In r (HN.rows t) -> HN.unretrieved r = true ->
  HN.transitioned t (HN.update_retrieved (HN.Row.id r) t) = [r].
Proof.
  intros Hn Hin Hu. unfold HN.transitioned, HN.update_retrieved. cbn [HN.rows].
  rewrite (Keyed.filter_changed _ _ HN.Row.id Z.eqb Z.eqb_eq HN.unretrieved HN.mark
             (HN.Row.id r)); trivial.
  rewrite (Keyed.filter_key _ _ HN.Row.id Z.eqb Z.eqb_eq HN.unretrieved _ r Hn Hin).
  rewrite Hu. reflexivity.
Qed.

Lemma hn_transitioned_same (t : HN.Table) :
  NoDup (HN.ids t) -> HN.transitioned t t = [].
Proof.
  intros Hn. unfold HN.transitioned. apply filter_none. intros b Hb.
  destruct (HN.unretrieved b) eqn:Hu; simpl; trivial.
  apply not_true_is_false. intros H. apply existsb_exists in H.
  destruct H as [a [Ha Hpa]]. apply andb_true_iff in Hpa. destruct Hpa as [Hk Hqa].
  apply Z.eqb_eq in Hk.
  assert (a = b) by (eapply (Keyed.key_inj _ _ HN.Row.id); eassumption). subst a.
  rewrite Hu in Hqa. discriminate.
Qed.

(** Hacker News: one [getTopNewsItem]. *)
Lemma hn_one_per_release (w : HN.World) (st : HN.Sys) :
  NoDup (HN.ids (store st)) ->
  let (o, st') := HN.run w HN.getTopNewsItem st in
  map HN.content (HN.rows (store st')) = map HN.content (HN.rows (store st)) /\
  (List.length (HN.transitioned (store st) (store st')) <= 1)%nat /\
  (HN.pending (store st) <> [] ->
   exists r, o = Fulfilled (Some r) /\
             HN.transitioned (store st) (store st') = [r]) /\
  (HN.pending (store st) = [] ->
   o = Fulfilled None /\ HN.transitioned (store st) (store st') = []).
Proof.
  intros Hn. rewrite HNRelease.run_getTopNewsItem.
  destruct (HN.select_top (store st)) as [r |] eqn:Hsel; cbn [store].
  - pose proof (HNTable.select_top_spec _ _ Hsel) as [Hin [H0 _]].
    assert (Hu : HN.unretrieved r = true) by (unfold HN.unretrieved; lia).
    rewrite (hn_transitioned_update _ _ Hn Hin Hu).
    split; [apply HNTable.update_content |]. split; [simpl; lia |]. split.
    + intros _. exists r. tauto.
    + intros Hp. exfalso. assert (Hr : In r (HN.pending (store st))).
      { apply filter_In. tauto. }
      rewrite Hp in Hr. exact Hr.
  - rewrite (hn_transitioned_same _ Hn).
    split; [reflexivity |]. split; [simpl; lia |]. split.
    + intros Hp. exfalso. apply Hp. apply HNTable.least_id_none. exact Hsel.
    + tauto.
Qed.

Lemma rd_transitioned_update (t : Reddit.Table) (r : Reddit.Row.t) :
  NoDup (Reddit.post_ids t) -> In r t -> Reddit.unretrieved r = true ->
  Reddit.transitioned t (Reddit.update_retrieved (Reddit.Row.id r) t) = [r].
Proof.
  intros Hn Hin Hu. unfold Reddit.transitioned, Reddit.update_retrieved.
  rewrite (Keyed.filter_changed _ _ Reddit.Row.id String.eqb String.eqb_eq
             Reddit.unretrieved Reddit.mark (Reddit.Row.id r)); trivial.
  rewrite (Keyed.filter_key _ _ Reddit.Row.id String.eqb String.eqb_eq
             Reddit.unretrieved _ r Hn Hin).
  rewrite Hu. reflexivity.
Qed.

Lemma rd_transitioned_same (t : Reddit.Table) :
  NoDup (Reddit.post_ids t) -> Reddit.transitioned t t = [].
Proof.
  intros Hn. unfold Reddit.transitioned. apply filter_none. intros b Hb.
  destruct (Reddit.unretrieved b) eqn:Hu; simpl; trivial.
  apply not_true_is_false. intros H. apply existsb_exists in H.
  destruct H as [a [Ha Hpa]]. apply andb_true_iff in Hpa. destruct Hpa as [Hk Hqa].
  apply String.eqb_eq in Hk.
  assert (a = b) by (eapply (Keyed.key_inj _ _ Reddit.Row.id); eassumption). subst a.
  rewrite Hu in Hqa. discriminate.
Qed.

(** Reddit: one [retrieveAndPost], whatever Bluesky answers. *)
Lemma rd_one_per_release (w : Reddit.World) (st : Reddit.Sys) :
  NoDup (Reddit.post_ids (store st)) ->
  let (o, st') := Reddit.run w Reddit.retrieveAndPost st in
  o = Fulfilled tt /\
  map Reddit.content_of (store st') = map Reddit.content_of (store st) /\
  (List.length (Reddit.transitioned (store st) (store st')) <= 1)%nat /\
  (Reddit.pending (store st) <> [] ->
   exists r, Reddit.select_oldest (store st) = Some r /\
             Reddit.transitioned (store st) (store st') = [r]) /\
  (Reddit.pending (store st) = [] ->
   Reddit.transitioned (store st) (store st') = []).
Proof.
  intros Hn. rewrite RedditRelease.run_retrieveAndPost.
  destruct (Reddit.select_oldest (store st)) as [r |] eqn:Hsel; cbn [store].
  - pose proof (RedditTable.select_oldest_spec _ _ Hsel) as [Hin [H0 _]].
    assert (Hu : Reddit.unretrieved r = true) by (unfold Reddit.unretrieved; lia).
    rewrite (rd_transitioned_update _ _ Hn Hin Hu).
    split; [reflexivity |]. split; [apply RedditTable.rd_update_content |].
    split; [simpl; lia |]. split.
    + intros _. exists r. tauto.
    + intros Hp. exfalso. assert (Hr : In r (Reddit.pending (store st))).
      { apply filter_In. tauto. }
      rewrite Hp in Hr. exact Hr.
  - rewrite (rd_transitioned_same _ Hn).
    split; [reflexivity |]. split; [reflexivity |]. split; [simpl; lia |]. split.
    + intros Hp. exfalso. apply Hp. apply RedditTable.least_rowid_none. exact Hsel.
    + tauto.
Qed.

End OneAtATime.

(** ** The release step, command by command *)

Module Crash.

Lemma sys_eta {Cmd Store : Type} (st : Async.Sys Cmd Store) :
  st = mkSys (store st) (trace st ++ []).
Proof. destruct st. simpl. rewrite app_nil_r. reflexivity. Qed.

(** Hacker News: where a crash after [n] commands leaves the table. *)
Lemma hn_crash_state (w : HN.World) (st : HN.Sys) (n : nat) (r : HN.Row.t) :
  HN.select_top (store st) = Some r ->
  HN.crashAfter w n HN.testRetrieval st =
  mkSys (if (2 <=? n)%nat then HN.update_retrieved (HN.Row.id r) (store st) else store st)
        (trace st ++ firstn n (HN.release_cmds w r)).
Proof.
  intros Hsel. unfold HN.release_cmds, HN.crashAfter, HN.testRetrieval, HN.getTopNewsItem.
  destruct n as [| [| [| [| [| n]]]]]; simpl; rewrite ?Hsel; simpl;
    try apply sys_eta; trivial; unfold perform; simpl;
    try (destruct (HN.login w) as [e | []]; simpl);
    try (destruct (HN.facets w (HN.msg r)) as [e' | []]; simpl);
    try (destruct (HN.post w (HN.msg r)) as [e'' | []]; simpl);
    try (destruct n); rewrite <- ?app_assoc; reflexivity.
Qed.

Lemma hn_update_flags (t : HN.Table) (r : HN.Row.t) :
  In r (HN.rows t) ->
  In (HN.mark r) (HN.rows (HN.update_retrieved (HN.Row.id r) t)) /\
  forall x, In x (HN.rows (HN.update_retrieved (HN.Row.id r) t)) ->
            HN.Row.id x = HN.Row.id r -> HN.Row.retrieved x = 1.
Proof.
  intros Hin. unfold HN.update_retrieved. cbn [HN.rows]. split.
  - apply in_map_iff. exists r. rewrite Z.eqb_refl. tauto.
  - intros x Hx Hid. apply in_map_iff in Hx. destruct Hx as [y [Hy _]].
    destruct (HN.Row.id y =? HN.Row.id r) eqn:Hc; subst x; [reflexivity |].
    apply Z.eqb_neq in Hc. contradiction.
Qed.

(** Reddit: where a crash after [n] commands leaves the table. *)
Lemma rd_crash_state (w : Reddit.World) (st : Reddit.Sys) (n : nat) (r : Reddit.Row.t) :
  Reddit.select_oldest (store st) = Some r ->
  Reddit.crashAfter w n Reddit.retrieveAndPost st =
  mkSys (if (List.length (Reddit.release_trace w r) <=? n)%nat
         then Reddit.update_retrieved (Reddit.Row.id r) (store st) else store st)
        (trace st ++ firstn n (Reddit.release_trace w r)).
Proof.
  intros Hsel.
  unfold Reddit.release_trace, Reddit.bluesky_trace, Reddit.crashAfter,
    Reddit.retrieveAndPost, Reddit.postToBluesky.
  destruct n as [| [| [| [| [| n]]]]]; simpl; rewrite ?Hsel; simpl;
    try apply sys_eta; unfold perform; simpl;
    try (destruct (Reddit.login w) as [e | []]; simpl);
    try (destruct (Reddit.facets w (Reddit.content r)) as [e' | []]; simpl);
    try (destruct (Reddit.post w (Reddit.content r)) as [e'' | []]; simpl);
    try (destruct n); rewrite <- ?app_assoc; reflexivity.
Qed.

Lemma rd_update_flags (t : Reddit.Table) (r : Reddit.Row.t) :
  In r t ->
  In (Reddit.mark r) (Reddit.update_retrieved (Reddit.Row.id r) t) /\
  forall x, In x (Reddit.update_retrieved (Reddit.Row.id r) t) ->
            Reddit.Row.id x = Reddit.Row.id r -> Reddit.Row.retrieved x = 1.
Proof.
  intros Hin. unfold Reddit.update_retrieved. split.
  - apply in_map_iff. exists r. rewrite String.eqb_refl. tauto.
  - intros x Hx Hid. apply in_map_iff in Hx. destruct Hx as [y [Hy _]].
    destruct (String.eqb (Reddit.Row.id y) (Reddit.Row.id r)) eqn:Hc; subst x;
      [reflexivity |].
    apply String.eqb_neq in Hc. contradiction.
Qed.

End Crash.

(** ** Ingestion in the Hacker News bot *)

Module HNIngest.
Import HN HNTable.

Lemma hn_run_bind {A B : Type} (w : World) (p : Prog A) (f : A -> Prog B) (st : Sys) :
  run w (bind p f) st =
  match run w p st with
  | (Fulfilled a, st') => run w (f a) st'
  | (Rejected e, st') => (Rejected e, st')
  end.
Proof. apply AsyncLaws.run_bind. Qed.

Lemma run_fetchStoryDetails (w : World) (k : Z) (st : Sys) :
  run w (fetchStoryDetails k) st =
  match item w k with
  | inl e => (Rejected e, mkSys (store st) (trace st ++ [GetItem k]))
  | inr d => (Fulfilled d, mkSys (store st) (trace st ++ [GetItem k]))
  end.
Proof.
  unfold run, fetchStoryDetails. simpl. unfold perform. simpl.
  destruct (item w k); reflexivity.
Qed.

Lemma run_isStoryProcessed (w : World) (sid : Z) (st : Sys) :
  run w (isStoryProcessed sid) st =
  (Fulfilled (has_story sid (store st)), mkSys (store st) (trace st ++ [SelectStory sid])).
Proof.
  unfold run, isStoryProcessed. simpl. destruct (has_story sid (store st)); reflexivity.
Qed.

Lemma run_summarizeComments (w : World) (comments : string) (st : Sys) :
  run w (summarizeComments comments) st =
  let c := ChatCompletion comments_system (comments_user comments) in
  match completion w comments_system (comments_user comments) with
  | inl e => (Rejected e, mkSys (store st) (trace st ++ [c]))
  | inr s => (Fulfilled s, mkSys (store st) (trace st ++ [c]))
  end.
Proof.
  unfold run, summarizeComments. simpl. unfold perform. simpl.
  destruct (completion w comments_system (comments_user comments)); reflexivity.
Qed.

(** Fetching comments never writes. *)
Lemma fetchComments_store (w : World) (kids : list Z) (acc : list string) (st : Sys) :
  store (snd (run w (fetchComments kids acc) st)) = store st.
Proof.
  revert acc st. induction kids as [| k kids IH]; intros acc st; [reflexivity |].
  cbn [fetchComments]. rewrite hn_run_bind, run_fetchStoryDetails.
  destruct (item w k) as [e | [d |]]; [reflexivity | |].
  - destruct (Item.text d) as [s |]; [destruct (truthy s) |]; rewrite IH; reflexivity.
  - rewrite IH. reflexivity.
Qed.

(** The loop of comment fetches against the filter it implements. *)
Lemma run_fetchComments (w : World) (kids : list Z) (acc : list string) (st : Sys) :
  (forall k, In k kids -> fetch_ok w k) ->
  run w (fetchComments kids acc) st =
  (Fulfilled (acc ++ somes (map (comment_text w) kids)),
   mkSys (store st) (trace st ++ map GetItem kids)).
Proof.
  revert acc st. induction kids as [| k kids IH]; intros acc st Hok.
  - simpl. rewrite !app_nil_r. destruct st; reflexivity.
  - cbn [fetchComments]. rewrite hn_run_bind, run_fetchStoryDetails.
    assert (Hk : fetch_ok w k) by (apply Hok; left; reflexivity).
    assert (Hrest : forall k', In k' kids -> fetch_ok w k')
      by (intros k' H; apply Hok; right; exact H).
    cbn [map somes]. unfold comment_text at 1.
    destruct (item w k) as [e | [d |]] eqn:Hi; [exfalso; apply (Hk e); exact Hi | |].
    + destruct (Item.text d) as [s |].
      * destruct (truthy s); rewrite IH by exact Hrest; cbn [store trace];
          rewrite <- !app_assoc; reflexivity.
      * rewrite IH by exact Hrest. cbn [store trace]. rewrite <- !app_assoc. reflexivity.
    + rewrite IH by exact Hrest. cbn [store trace]. rewrite <- !app_assoc. reflexivity.
Qed.

Lemma somes_length {A : Type} (l : list (option A)) :
  (List.length (somes l) <= List.length l)%nat.
Proof.
  induction l as [| [a |] l IH]; simpl; lia.
Qed.

Lemma discussion_texts_length (w : World) (kids : list Z) :
  (List.length (discussion_texts w kids) <= 25)%nat.
Proof.
  unfold discussion_texts.
  pose proof (somes_length (map (comment_text w) (firstn 25 kids))) as H.
  rewrite length_map in H. pose proof (firstn_le_length 25 kids). lia.
Qed.

(** A story already stored: one lookup, nothing else. *)
Lemma run_processStory_known (w : World) (sid : Z) (st : Sys) :
  has_story sid (store st) = true ->
  run w (processStory sid) st =
  (Fulfilled tt, mkSys (store st) (trace st ++ [SelectStory sid])).
Proof.
  intros H. unfold processStory. rewrite hn_run_bind, run_isStoryProcessed, H.
  reflexivity.
Qed.

Lemma run_processStory_skipped (w : World) (sid : Z) (st : Sys) (o : option Item.t) :
  has_story sid (store st) = false -> item w sid = inr o -> skipped o ->
  run w (processStory sid) st =
  (Fulfilled tt, mkSys (store st) (trace st ++ [SelectStory sid; GetItem sid])).
Proof.
  intros H Hi Hs. unfold processStory.
  rewrite hn_run_bind, run_isStoryProcessed, H. cbn iota.
  rewrite hn_run_bind, run_fetchStoryDetails, Hi. cbn [store trace].
  rewrite <- app_assoc. cbn [app].
  destruct o as [s |]; [| reflexivity].
  destruct Hs as [Hk | Hu].
  - rewrite Hk. reflexivity.
  - destruct (Item.kids s); [| reflexivity].
    destruct (Item.url s) as [u |]; [| reflexivity].
    cbn [truthy_opt] in Hu. rewrite Hu. reflexivity.
Qed.

(** A new story that passes the guard, all of whose comment fetches answer. *)
Lemma run_processStory_enriched (w : World) (sid : Z) (st : Sys) (s : Item.t)
      (kids : list Z) (u : string) :
  has_story sid (store st) = false -> item w sid = inr (Some s) ->
  Item.kids s = Some kids -> Item.url s = Some u -> truthy u = true ->
  (forall k, In k (firstn 25 kids) -> fetch_ok w k) ->
  let text := join LF (discussion_texts w kids) in
  let reads := [SelectStory sid; GetItem sid] ++ map GetItem (firstn 25 kids)
               ++ [ChatCompletion comments_system (comments_user text)] in
  run w (processStory sid) st =
  match completion w comments_system (comments_user text) with
  | inl e => (Rejected e, mkSys (store st) (trace st ++ reads))
  | inr summary =>
      let new_id := Z.max (seq (store st)) (max_id (rows (store st))) + 1 in
      (Fulfilled tt,
       mkSys (mkTable (rows (store st) ++ [Row.mk new_id sid (Item.title s) u summary 0])
                      new_id)
             (trace st ++ reads ++ [InsertStory sid (Item.title s) u summary]))
  end.
Proof.
  intros H Hi Hk Hu Ht Hok. cbn zeta. unfold processStory.
  rewrite hn_run_bind, run_isStoryProcessed, H. cbn iota.
  rewrite hn_run_bind, run_fetchStoryDetails, Hi. cbn [store trace].
  rewrite Hk, Hu, Ht. unfold enrichAndSave.
  rewrite hn_run_bind, (run_fetchComments _ _ _ _ Hok). cbn [store trace app].
  rewrite hn_run_bind, run_summarizeComments. cbn zeta. fold (discussion_texts w kids).
  destruct (completion w comments_system _) as [e | summary]; cbn [store trace].
  - rewrite <- !app_assoc. reflexivity.
  - rewrite HNRelease.run_save. cbn [store trace]. unfold insert. rewrite H.
    rewrite <- !app_assoc. reflexivity.
Qed.

(** A story whose processing rejects leaves the table as it was. *)
Lemma processStory_rejected_store (w : World) (sid : Z) (st st' : Sys) (e : Err) :
  run w (processStory sid) st = (Rejected e, st') -> store st' = store st.
Proof.
  unfold processStory. rewrite hn_run_bind, run_isStoryProcessed.
  destruct (has_story sid (store st)); [discriminate |].
  rewrite hn_run_bind, run_fetchStoryDetails.
  destruct (item w sid) as [e0 | [s |]];
    [intros H; injection H as _ <-; reflexivity | | discriminate].
  destruct (Item.kids s) as [kids |]; [| discriminate].
  destruct (Item.url s) as [u |]; [| discriminate].
  destruct (truthy u); [| discriminate].
  unfold enrichAndSave. rewrite hn_run_bind.
  pose proof (fetchComments_store w (firstn 25 kids) []
                (mkSys (store st) ((trace st ++ [SelectStory sid]) ++ [GetItem sid]))) as Hfc.
  destruct (run w (fetchComments (firstn 25 kids) []) _) as [[comments | e1] st1];
    cbn [snd store] in Hfc; [| intros H; injection H as _ <-; exact Hfc].
  rewrite hn_run_bind, run_summarizeComments. cbn zeta.
  destruct (completion w comments_system _) as [e2 | summary];
    [intros H; injection H as _ <-; exact Hfc |].
  rewrite HNRelease.run_save. cbn [store trace].
  destruct (insert sid (Item.title s) u summary (store st1));
    [intros H; injection H as _ <-; exact Hfc | discriminate].
Qed.

(** A comment fetch that rejects is not skipped: it ends the loop. *)
Lemma run_fetchComments_rejected (w : World) (pre post : list Z) (k : Z) (e : Err)
      (acc : list string) (st : Sys) :
  (forall k', In k' pre -> fetch_ok w k') -> item w k = inl e ->
  run w (fetchComments (pre ++ k :: post) acc) st =
  (Rejected e, mkSys (store st) (trace st ++ map GetItem pre ++ [GetItem k])).
Proof.
  revert acc st. induction pre as [| k0 pre IH]; intros acc st Hok Hk.
  - cbn [app fetchComments map]. rewrite hn_run_bind, run_fetchStoryDetails, Hk. reflexivity.
  - cbn [app fetchComments map]. rewrite hn_run_bind, run_fetchStoryDetails.
    assert (Hk0 : fetch_ok w k0) by (apply Hok; left; reflexivity).
    assert (Hrest : forall k', In k' pre -> fetch_ok w k')
      by (intros k' H; apply Hok; right; exact H).
    destruct (item w k0) as [e0 | [d |]] eqn:Hi; [exfalso; apply (Hk0 e0); exact Hi | |].
    + destruct (Item.text d) as [s |]; [destruct (truthy s) |];
        rewrite IH by assumption; cbn [store trace]; rewrite <- !app_assoc; reflexivity.
    + rewrite IH by assumption. cbn [store trace]. rewrite <- !app_assoc. reflexivity.
Qed.

Lemma run_processStory_fetch_rejected (w : World) (sid : Z) (st : Sys) (s : Item.t)
      (kids pre post : list Z) (k : Z) (u : string) (e : Err) :
  has_story sid (store st) = false -> item w sid = inr (Some s) ->
  Item.kids s = Some kids -> Item.url s = Some u -> truthy u = true ->
  firstn 25 kids = pre ++ k :: post ->
  (forall k', In k' pre -> fetch_ok w k') -> item w k = inl e ->
  run w (processStory sid) st =
  (Rejected e,
   mkSys (store st)
         (trace st ++ [SelectStory sid; GetItem sid] ++ map GetItem pre ++ [GetItem k])).
Proof.
  intros H Hi Hk Hu Ht Hkids Hok He. unfold processStory.
  rewrite hn_run_bind, run_isStoryProcessed, H. cbn iota.
  rewrite hn_run_bind, run_fetchStoryDetails, Hi. cbn [store trace].
  rewrite Hk, Hu, Ht. unfold enrichAndSave.
  rewrite hn_run_bind, Hkids, (run_fetchComments_rejected _ _ _ _ _ _ _ Hok He).
  cbn [store trace]. rewrite <- !app_assoc. reflexivity.
Qed.

End HNIngest.

(** ** Ingestion in the Reddit bot *)

Module RedditIngest.
Import Reddit RedditTable.

(** *** One turn of a callback *)

Lemma resume_processPost (w : World) (p : Post.t) (st : Sys) :
  Async.resume Cmd Resp World Table exec w (processPost p) st =
  (if has_post (Post.id p) (store st) then Ret tt else afterLookup p,
   mkSys (store st) (trace st ++ [SelectPost (Post.id p)])).
Proof.
  unfold processPost. simpl. unfold perform. simpl.
  destruct (has_post (Post.id p) (store st)); reflexivity.
Qed.

Lemma resume_afterLookup (w : World) (p : Post.t) (st : Sys) :
  Async.resume Cmd Resp World Table exec w (afterLookup p) st =
  (match title_answer w p with
   | inl e => Throw e
   | inr _ => afterTitle p
   end,
   mkSys (store st)
         (trace st ++ [ChatCompletion title_system (title_user (Post.title p))])).
Proof.
  unfold afterLookup, summarizeTitle, title_answer. simpl. unfold perform. simpl.
  destruct (completion w title_system (title_user (Post.title p))); reflexivity.
Qed.

Lemma resume_afterTitle (w : World) (p : Post.t) (st : Sys) :
  Async.resume Cmd Resp World Table exec w (afterTitle p) st =
  (match discussion_answer w p with
   | inl e => Throw e
   | inr summary => afterSummary p summary
   end,
   mkSys (store st)
         (trace st ++ [ChatCompletion discussion_system
                                      (discussion_user (discussion_input p))])).
Proof.
  unfold afterTitle, summarizeDiscussion, discussion_answer. simpl. unfold perform. simpl.
  destruct (completion w discussion_system (discussion_user (discussion_input p)));
    reflexivity.
Qed.

(** The INSERT of a callback: whether it goes through or is refused, the
    callback returns. *)
Lemma resume_afterSummary (w : World) (p : Post.t) (summary : string) (st : Sys) :
  Async.resume Cmd Resp World Table exec w (afterSummary p summary) st =
  (Ret tt,
   mkSys (match insert (Post.id p) (Post.title p) (Post.url p) summary (store st) with
          | inl _ => store st
          | inr t' => t'
          end)
         (trace st ++ [InsertPost (Post.id p) (Post.title p) (Post.url p) summary])).
Proof.
  unfold afterSummary. simpl. unfold perform. simpl.
  destruct (insert (Post.id p) (Post.title p) (Post.url p) summary (store st));
    reflexivity.
Qed.

(** *** Every turn keeps the pool in order *)

Lemma Forall2_nth {A B : Type} (R : A -> B -> Prop) (l1 : list A) (l2 : list B)
      (i : nat) (y : B) :
  Forall2 R l1 l2 -> nth_error l2 i = Some y ->
  exists x, nth_error l1 i = Some x /\ R x y.
Proof.
  intros H. revert i. induction H as [| a b l1 l2 Hab H IH]; intros i Hi.
  - destruct i; discriminate.
  - destruct i as [| i]; simpl in *.
    + injection Hi as <-. exists a. tauto.
    + apply IH. exact Hi.
Qed.

Lemma Forall2_set_nth {A B : Type} (R : A -> B -> Prop) (l1 : list A) (l2 : list B)
      (i : nat) (x : A) (y : B) :
  Forall2 R l1 l2 -> nth_error l1 i = Some x -> R x y ->
  Forall2 R l1 (set_nth i y l2).
Proof.
  intros H. revert i. induction H as [| a b l1 l2 Hab H IH]; intros i Hi Hxy.
  - destruct i; discriminate.
  - destruct i as [| i]; simpl in *.
    + injection Hi as ->. constructor; assumption.
    + constructor; [exact Hab | apply IH; assumption].
Qed.

(** No command removes an id from the table. *)
Lemma exec_grows (w : World) (c : Cmd) (t : Table) :
  incl (post_ids t) (post_ids (snd (exec w c t))).
Proof.
  destruct c; simpl; try apply incl_refl.
  - unfold insert. destruct (has_post id t); simpl; [apply incl_refl |].
    unfold post_ids. rewrite map_app. apply incl_appl, incl_refl.
  - rewrite rd_update_post_ids. apply incl_refl.
Qed.

(** But for an INSERT, no command changes what a row says. *)
Lemma exec_content (w : World) (c : Cmd) (t : Table) :
  (forall i title url summary, c <> InsertPost i title url summary) ->
  map content_of (snd (exec w c t)) = map content_of t.
Proof.
  intros H. destruct c; simpl; trivial.
  - exfalso. eapply H. reflexivity.
  - apply rd_update_content.
Qed.

Lemma from_post_content (w : World) (p : Post.t) (r r' : Row.t) :
  content_of r = content_of r' -> from_post w p r -> from_post w p r'.
Proof.
  unfold content_of, from_post. intros H. injection H as _ <- <- <- <-. tauto.
Qed.

Lemma origin_content (w : World) (t0 : Table) (posts : list Post.t) (t t' : Table) :
  map content_of t' = map content_of t -> origin w t0 posts t -> origin w t0 posts t'.
Proof.
  intros Hc Ho r' Hr'. apply (in_map content_of) in Hr'. rewrite Hc in Hr'.
  apply in_map_iff in Hr'. destruct Hr' as [r [Heq Hr]].
  destruct (Ho r Hr) as [[r0 [Hr0 H0]] | [p [Hp Hfp]]].
  - left. exists r0. split; [exact Hr0 | congruence].
  - right. exists p. split; [exact Hp | eapply from_post_content; eassumption].
Qed.

Lemma origin_insert (w : World) (t0 : Table) (posts : list Post.t) (t : Table)
      (p : Post.t) (summary : string) :
  In p posts -> discussion_answer w p = inr summary -> origin w t0 posts t ->
  origin w t0 posts
         (match insert (Post.id p) (Post.title p) (Post.url p) summary t with
          | inl _ => t
          | inr t' => t'
          end).
Proof.
  intros Hp Hd Ho. unfold insert. destruct (has_post (Post.id p) t); [exact Ho |].
  intros r Hr. apply in_app_or in Hr. destruct Hr as [Hr | [<- | []]].
  - apply Ho. exact Hr.
  - right. exists p. unfold from_post. simpl. tauto.
Qed.

Lemma insert_has (i title url summary : string) (t : Table) :
  In i (post_ids (match insert i title url summary t with
                  | inl _ => t
                  | inr t' => t'
                  end)).
Proof.
  unfold insert. destruct (has_post i t) eqn:H.
  - apply has_post_In. exact H.
  - unfold post_ids. rewrite map_app. apply in_or_app. right. left. reflexivity.
Qed.

Lemma Stage_mono (w : World) (t t' : Table) (p : Post.t) (task : Prog unit) :
  incl (post_ids t) (post_ids t') -> Stage w t p task -> Stage w t' p task.
Proof.
  intros Hi H. destruct H; try (constructor; assumption).
  - constructor. apply Hi. assumption.
Qed.

Lemma Fits_mono (w : World) (t t' : Table) (role : option Post.t) (task : Prog unit) :
  incl (post_ids t) (post_ids t') -> Fits w t role task -> Fits w t' role task.
Proof.
  destruct role as [p |]; simpl; [apply Stage_mono | tauto].
Qed.

(** One turn of one task. *)
Lemma resume_inv (w : World) (t0 : Table) (posts : list Post.t)
      (role : option Post.t) (task : Prog unit) (st : Sys) :
  (forall p, role = Some p -> In p posts) ->
  Fits w (store st) role task -> origin w t0 posts (store st) ->
  let (task', st') := Async.resume Cmd Resp World Table exec w task st in
  Fits w (store st') role task' /\ origin w t0 posts (store st') /\
  incl (post_ids (store st)) (post_ids (store st')).
Proof.
  intros Hrole Hfit Ho. destruct role as [p |]; simpl in Hfit.
  - specialize (Hrole p eq_refl). destruct Hfit.
    + rewrite resume_processPost. cbn [store]. split; [| split; [exact Ho | apply incl_refl]].
      destruct (has_post (Post.id p) (store st)) eqn:Hh; simpl.
      * apply AtEnd. apply has_post_In. exact Hh.
      * apply AtTitle.
    + rewrite resume_afterLookup. cbn [store]. split; [| split; [exact Ho | apply incl_refl]].
      destruct (title_answer w p) eqn:Ht; simpl.
      * apply AtFailed. left. exact Ht.
      * apply AtDiscussion.
    + rewrite resume_afterTitle. cbn [store]. split; [| split; [exact Ho | apply incl_refl]].
      destruct (discussion_answer w p) eqn:Hd; simpl.
      * apply AtFailed. right. exact Hd.
      * apply AtInsert. exact Hd.
    + rewrite resume_afterSummary. cbn [store]. split; [| split].
      * simpl. apply AtEnd. apply insert_has.
      * apply origin_insert; assumption.
      * pose proof (exec_grows w (InsertPost (Post.id p) (Post.title p) (Post.url p) summary)
                      (store st)) as Hg.
        simpl in Hg. destruct (insert _ _ _ _ (store st)); exact Hg.
    + simpl. split; [apply AtEnd; assumption | split; [exact Ho | apply incl_refl]].
    + simpl. split; [apply AtFailed; assumption | split; [exact Ho | apply incl_refl]].
  - destruct Hfit as [a | e | c k Hc Hk]; simpl;
      try (split; [constructor | split; [exact Ho | apply incl_refl]]).
    unfold perform. pose proof (exec_content w c (store st) Hc) as Hcont.
    pose proof (exec_grows w c (store st)) as Hg.
    destruct (exec w c (store st)) as [r t']. cbn [store snd] in *.
    split; [apply Hk | split; [| exact Hg]].
    eapply origin_content; eassumption.
Qed.

Lemma interleave_cons (w : World) (i : nat) (sch : list nat) (pool : list (Prog unit))
      (st : Sys) :
  interleave w (i :: sch) pool st =
  match nth_error pool i with
  | Some task =>
      let (task', st') := Async.resume Cmd Resp World Table exec w task st in
      if rejected task' then (set_nth i task' pool, st')
      else interleave w sch (set_nth i task' pool) st'
  | None => interleave w sch pool st
  end.
Proof. reflexivity. Qed.

(** However the callbacks and the release take turns, the pool stays in
    order. *)
Lemma interleave_inv (w : World) (t0 : Table) (posts : list Post.t)
      (roles : list (option Post.t)) (sch : list nat) (pool : list (Prog unit)) (st : Sys) :
  (forall p, In (Some p) roles -> In p posts) ->
  PoolInv w t0 posts roles pool (store st) ->
  let (pool', st') := interleave w sch pool st in
  PoolInv w t0 posts roles pool' (store st').
Proof.
  intros Hroles. revert pool st. induction sch as [| i sch IH]; intros pool st Hinv.
  - exact Hinv.
  - rewrite interleave_cons.
    destruct (nth_error pool i) as [task |] eqn:Hnth; [| apply IH; exact Hinv].
    destruct Hinv as [Hfits Ho Hg].
    destruct (Forall2_nth _ _ _ _ _ Hfits Hnth) as [role [Hrole Hfit]].
    assert (Hin : forall p, role = Some p -> In p posts).
    { intros p ->. apply Hroles. eapply nth_error_In. exact Hrole. }
    pose proof (resume_inv w t0 posts role task st Hin Hfit Ho) as Hstep.
    destruct (Async.resume Cmd Resp World Table exec w task st) as [task' st'].
    destruct Hstep as [Hfit' [Ho' Hg']].
    assert (Hinv' : PoolInv w t0 posts roles (set_nth i task' pool) (store st')).
    { constructor.
      + apply Forall2_set_nth with (x := role); [| exact Hrole | exact Hfit'].
        eapply Forall2_impl; [| exact Hfits].
        intros a b. apply Fits_mono. exact Hg'.
      + exact Ho'.
      + eapply incl_tran; eassumption. }
    destruct (rejected task'); [exact Hinv' | apply IH; exact Hinv'].
Qed.

Lemma retrieveAndPost_NoInsert : NoInsert retrieveAndPost.
Proof.
  unfold retrieveAndPost. apply NoInsertDo; [discriminate |].
  intros [e | [row |]]; [apply NoInsertRet | | apply NoInsertRet].
  apply NoInsertDo; [discriminate |]. intros [e | x]; simpl.
  - apply NoInsertDo; [discriminate |]. intros r. apply NoInsertRet.
  - apply NoInsertDo; [discriminate |]. intros [e | y]; simpl.
    + apply NoInsertDo; [discriminate |]. intros r. apply NoInsertRet.
    + apply NoInsertDo; [discriminate |].
      intros [e | z]; simpl; (apply NoInsertDo; [discriminate |]; intros r; apply NoInsertRet).
Qed.

(** The pool [main] leaves is in order to begin with. *)
Lemma pool_of_inv (w : World) (posts : list Post.t) (t : Table) :
  PoolInv w t posts (roles_of posts) (pool_of posts) t.
Proof.
  constructor.
  - unfold roles_of, pool_of. apply Forall2_app.
    + induction posts as [| p posts IH]; simpl; constructor; [apply AtLookup | exact IH].
    + constructor; [exact retrieveAndPost_NoInsert | constructor].
  - intros r Hr. left. exists r. tauto.
  - apply incl_refl.
Qed.

(** No task of that pool has ended, let alone in a rejection. *)
Lemma pool_of_live (posts : list Post.t) : existsb rejected (pool_of posts) = false.
Proof.
  unfold pool_of. rewrite existsb_app. cbn. rewrite orb_false_r.
  induction posts as [| p posts IH]; [reflexivity | exact IH].
Qed.

Lemma roles_of_posts (posts : list Post.t) (p : Post.t) :
  In (Some p) (roles_of posts) -> In p posts.
Proof.
  unfold roles_of. intros H. apply in_app_or in H. destruct H as [H | [H | []]].
  - apply in_map_iff in H. destruct H as [q [Hq Hin]]. injection Hq as <-. exact Hin.
  - discriminate.
Qed.

(** Whatever the schedule, this is what a run of the whole tick leaves. *)
Lemma tick_inv (w : World) (posts : list Post.t) (sch : list nat) (st : Sys) :
  let (pool', st') := interleave w sch (pool_of posts) st in
  PoolInv w (store st) posts (roles_of posts) pool' (store st').
Proof.
  apply interleave_inv; [apply roles_of_posts | apply pool_of_inv].
Qed.

End RedditIngest.

(** ** One callback of the Reddit bot, run on its own *)

Module RedditCallback.
Import Reddit RedditTable RedditIngest.

(** A post already stored: one lookup, nothing else. *)
Lemma run_processPost_known (w : World) (p : Post.t) (st : Sys) :
  has_post (Post.id p) (store st) = true ->
  run w (processPost p) st =
  (Fulfilled tt, mkSys (store st) (trace st ++ [lookup_cmd p])).
Proof.
  intros H. unfold run, processPost. simpl. unfold perform. simpl. rewrite H. reflexivity.
Qed.

(** A new post. *)
Lemma run_processPost_new (w : World) (p : Post.t) (st : Sys) :
  has_post (Post.id p) (store st) = false ->
  run w (processPost p) st =
  match title_answer w p with
  | inl e => (Rejected e, mkSys (store st) (trace st ++ [lookup_cmd p; title_cmd p]))
  | inr _ =>
      match discussion_answer w p with
      | inl e => (Rejected e,
                  mkSys (store st) (trace st ++ [lookup_cmd p; title_cmd p; discussion_cmd p]))
      | inr summary =>
          (Fulfilled tt,
           mkSys (store st ++ [row_of (store st) p summary])
                 (trace st ++ [lookup_cmd p; title_cmd p; discussion_cmd p;
                               insert_cmd p summary]))
      end
  end.
Proof.
  intros H. unfold run, processPost, title_answer, discussion_answer, discussion_input.
  simpl. unfold perform. simpl. rewrite H. simpl.
  destruct (completion w title_system (title_user (Post.title p))) as [e | x]; simpl.
  - rewrite <- !app_assoc. reflexivity.
  - destruct (completion w discussion_system _) as [e | summary].
    + simpl. rewrite <- !app_assoc. reflexivity.
    + cbn [bind Async.run]. unfold perform. cbn [exec store trace].
      unfold insert. rewrite H. cbn [Async.run].
      rewrite <- !app_assoc. reflexivity.
Qed.

End RedditCallback.

(** ** Nothing in the Hacker News script handles a failure *)

Module HNFailure.
Import HN.

Section Unhandled.

(** Only the outcome of CREATE TABLE is looked at by nobody. *)
Variable P : Cmd -> bool.
Hypothesis P_create : P CreateTable = false.

Lemma unhandled_fetchComments (kids : list Z) (acc : list string) :
  Unhandled P (fetchComments kids acc).
Proof.
  revert acc. induction kids as [| k kids IH]; intros acc; cbn [fetchComments]; [exact I |].
  apply AsyncLaws.unhandled_bind; [apply AsyncLaws.unhandled_call |].
  intros [d |]; [| apply IH].
  destruct (Item.text d) as [s |]; [destruct (truthy s) |]; apply IH.
Qed.

Lemma unhandled_enrichAndSave (sid : Z) (s : Item.t) (kids : list Z) (u : string) :
  Unhandled P (enrichAndSave sid s kids u).
Proof.
  unfold enrichAndSave. apply AsyncLaws.unhandled_bind; [apply unhandled_fetchComments |].
  intros comments. apply AsyncLaws.unhandled_bind; [apply AsyncLaws.unhandled_call |].
  intros summary. apply AsyncLaws.unhandled_call.
Qed.

Lemma unhandled_processStory (sid : Z) : Unhandled P (processStory sid).
Proof.
  unfold processStory, isStoryProcessed.
  apply AsyncLaws.unhandled_bind.
  - apply AsyncLaws.unhandled_bind; [apply AsyncLaws.unhandled_call | intros row; exact I].
  - intros [|]; [exact I |].
    apply AsyncLaws.unhandled_bind; [apply AsyncLaws.unhandled_call |].
    intros [s |]; [| exact I].
    destruct (Item.kids s) as [kids |]; [| exact I].
    destruct (Item.url s) as [u |]; [| exact I].
    destruct (truthy u); [apply unhandled_enrichAndSave | exact I].
Qed.

Lemma unhandled_testRetrieval : Unhandled P testRetrieval.
Proof.
  unfold testRetrieval, getTopNewsItem.
  apply AsyncLaws.unhandled_bind.
  - apply AsyncLaws.unhandled_bind; [apply AsyncLaws.unhandled_call |].
    intros [r |]; [| exact I].
    apply AsyncLaws.unhandled_bind; [apply AsyncLaws.unhandled_call | intros _; exact I].
  - intros [it |]; [| exact I].
    apply AsyncLaws.unhandled_bind; [apply AsyncLaws.unhandled_call |].
    intros _. apply AsyncLaws.unhandled_bind; [apply AsyncLaws.unhandled_call |].
    intros _. apply AsyncLaws.unhandled_call.
Qed.

Lemma unhandled_main : Unhandled P main.
Proof.
  unfold main. apply AsyncLaws.unhandled_bind.
  - unfold initializeDatabase. cbn [Unhandled]. split; [| intros r; exact I].
    rewrite P_create. discriminate.
  - intros _. apply AsyncLaws.unhandled_bind.
    + unfold fetchTopStories.
      apply AsyncLaws.unhandled_bind; [apply AsyncLaws.unhandled_call | intros data; exact I].
    + intros ids. apply AsyncLaws.unhandled_bind; [| intros _; exact unhandled_testRetrieval].
      apply AsyncLaws.unhandled_forOf. exact unhandled_processStory.
Qed.

End Unhandled.

(** An INSERT the UNIQUE column refuses, wherever in [main] it is issued,
    is the end of that run of [main]. *)
Lemma refused_insert_ends_main (w : World) (q : Prog unit) (st : Sys) (sid : Z)
      (title url summary : string) :
  Steps main q -> next_cmd q = Some (InsertStory sid title url summary) ->
  has_story sid (store st) = true ->
  run w q st =
  (Rejected SqliteConstraint,
   mkSys (store st) (trace st ++ [InsertStory sid title url summary])) /\
  Async.resume Cmd Resp World Table exec w q st =
  (Throw SqliteConstraint,
   mkSys (store st) (trace st ++ [InsertStory sid title url summary])).
Proof.
  intros Hq Hnext Hhas.
  assert (Hun : Unhandled is_insert q).
  { eapply AsyncLaws.unhandled_steps; [| exact Hq]. apply unhandled_main. reflexivity. }
  assert (Hexec : exec w (InsertStory sid title url summary) (store st) =
                  (inl SqliteConstraint, store st)).
  { cbn [exec]. unfold insert. rewrite Hhas. reflexivity. }
  pose proof (AsyncLaws.run_unhandled Cmd Resp World Table exec is_insert w q
                (InsertStory sid title url summary) st SqliteConstraint Hun Hnext eq_refl)
    as H.
  rewrite Hexec in H. apply H. reflexivity.
Qed.

(** Ticks in flight are what is left of [main]. *)
Lemma ticks_are_main (w : World) (sch : list nat) (k : nat) (st : Sys) (i : nat)
      (task : Prog unit) :
  nth_error (fst (interleave w sch (repeat main k) st)) i = Some task -> Steps main task.
Proof.
  intros Htask.
  pose proof (AsyncLaws.interleave_steps Cmd Resp World Table exec w sch (repeat main k) st)
    as Hall.
  destruct (RedditIngest.Forall2_nth _ _ _ _ _ Hall Htask) as [p [Hp Hsteps]].
  apply nth_error_In, repeat_spec in Hp. subst p. exact Hsteps.
Qed.

End HNFailure.

(** ** What a tick of the Reddit bot posts *)

Module RedditPublish.
Import Reddit RedditTable RedditIngest.

(** One turn of one task of the pool keeps the pool in order. *)
Lemma turn_inv (w : World) (t0 : Table) (posts : list Post.t) (pool : list (Prog unit))
      (st : Sys) (i : nat) (task : Prog unit) :
  PoolInv w t0 posts (roles_of posts) pool (store st) ->
  nth_error pool i = Some task ->
  PoolInv w t0 posts (roles_of posts)
          (set_nth i (fst (Async.resume Cmd Resp World Table exec w task st)) pool)
          (store (snd (Async.resume Cmd Resp World Table exec w task st))).
Proof.
  intros [Hfits Ho Hg] Hnth.
  destruct (Forall2_nth _ _ _ _ _ Hfits Hnth) as [role [Hrole Hfit]].
  assert (Hin : forall p, role = Some p -> In p posts).
  { intros p ->. apply roles_of_posts. eapply nth_error_In. exact Hrole. }
  pose proof (resume_inv w t0 posts role task st Hin Hfit Ho) as Hstep.
  destruct (Async.resume Cmd Resp World Table exec w task st) as [task' st'].
  destruct Hstep as [Hfit' [Ho' Hg']]. cbn [fst snd]. constructor.
  - apply Forall2_set_nth with (x := role); [| exact Hrole | exact Hfit'].
    eapply Forall2_impl; [| exact Hfits]. intros a b. apply Fits_mono. exact Hg'.
  - exact Ho'.
  - eapply incl_tran; eassumption.
Qed.

Section Tick.

Variable w : World.
Variable t0 : Table.
Variable tr0 : list Cmd.
Variable posts : list Post.t.

(** A callback never posts. *)
Lemma processPost_issues (p : Post.t) : Issues (posts_known w t0 posts) (processPost p).
Proof.
  unfold processPost. cbn [Issues]. split; [discriminate |].
  intros [e | [x |]]; [exact I | exact I |].
  apply AsyncLaws.issues_bind; [apply AsyncLaws.issues_call; discriminate |].
  intros title. apply AsyncLaws.issues_bind; [apply AsyncLaws.issues_call; discriminate |].
  intros summary. cbn [Issues]. split; [discriminate | intros r; exact I].
Qed.

(** The release, once it has selected [row], posts nothing but the message
    of [row]. *)
Lemma release_issues (row : Row.t) :
  known_text w t0 posts (content row) ->
  Issues (posts_known w t0 posts)
         (bind (postToBluesky (content row))
               (fun _ => Do (UpdateRetrieved (Row.id row)) (fun _ => Ret tt))).
Proof.
  intros Hknown. apply AsyncLaws.issues_bind.
  - unfold postToBluesky. apply AsyncLaws.issues_tryCatch; [| intros e; exact I].
    apply AsyncLaws.issues_bind; [apply AsyncLaws.issues_call; discriminate |].
    intros _. apply AsyncLaws.issues_bind; [apply AsyncLaws.issues_call; discriminate |].
    intros _. apply AsyncLaws.issues_call. intros text H. injection H as <-. exact Hknown.
  - intros _. cbn [Issues]. split; [discriminate | intros r; exact I].
Qed.

Lemma turn_tidy (pool : list (Prog unit)) (st : Sys) (i : nat) (task : Prog unit) :
  Tidy w t0 tr0 posts pool st -> nth_error pool i = Some task ->
  Tidy w t0 tr0 posts
       (set_nth i (fst (Async.resume Cmd Resp World Table exec w task st)) pool)
       (snd (Async.resume Cmd Resp World Table exec w task st)).
Proof.
  intros [Hinv [Hpool Htrace]] Hnth.
  assert (Htask : task = retrieveAndPost \/ Issues (posts_known w t0 posts) task).
  { rewrite Forall_forall in Hpool. apply Hpool. eapply nth_error_In. exact Hnth. }
  split; [apply turn_inv; assumption | split].
  - apply AsyncLaws.Forall_set_nth; [exact Hpool |].
    destruct Htask as [-> | Hissues]; [| right; apply AsyncLaws.issues_resume; exact Hissues].
    right. unfold retrieveAndPost. cbn [Async.resume]. unfold perform. cbn [exec fst].
    destruct (select_oldest (store st)) as [row |] eqn:Hsel; [| exact I].
    apply release_issues. exists row. split; [reflexivity |].
    apply (inv_origin _ _ _ _ _ _ Hinv). apply select_oldest_spec in Hsel. tauto.
  - intros text. rewrite AsyncLaws.resume_next. intros Hin.
    apply in_app_or in Hin. destruct Hin as [Hin | Hin]; [apply Htrace; exact Hin |].
    right. destruct Htask as [-> | Hissues]; [destruct Hin as [H | []]; discriminate H |].
    destruct task as [a | e | c k]; cbn [next_cmd] in Hin;
      [destruct Hin | destruct Hin |].
    destruct Hin as [-> | []]. cbn [Issues] in Hissues. apply (proj1 Hissues). reflexivity.
Qed.

End Tick.

(** However the callbacks and the release of a tick take turns, what is
    posted is laid out from a row that was there before the tick or from a
    post of the listing. *)
Lemma tick_posts (w : World) (posts : list Post.t) (sch : list nat) (st : Sys)
      (text : string) :
  In (AgentPost text) (trace (snd (interleave w sch (pool_of posts) st))) ->
  In (AgentPost text) (trace st) \/ known_text w (store st) posts text.
Proof.
  assert (H : Tidy w (store st) (trace st) posts
                   (fst (interleave w sch (pool_of posts) st))
                   (snd (interleave w sch (pool_of posts) st))).
  { apply (AsyncLaws.interleave_invariant Cmd Resp World Table exec
             (Tidy w (store st) (trace st) posts) w).
    - intros pool st' i p. apply turn_tidy.
    - split; [apply pool_of_inv | split].
      + unfold pool_of. apply Forall_app. split.
        * apply Forall_forall. intros task Hin. apply in_map_iff in Hin.
          destruct Hin as [p [<- _]]. right. apply processPost_issues.
        * constructor; [left; reflexivity | constructor].
      + intros text' Hin. left. exact Hin. }
  apply H.
Qed.

(** A row that came from the post of a listing entry says what the entry
    says. *)
Lemma from_child (w : World) (children : list Child.t) (r : Row.t) :
  (exists p, In p (map post_of children) /\ from_post w p r) ->
  exists c, In c children /\
            Row.id r = Child.id c /\ Row.title r = Child.title c /\
            Row.url r = ("https://www.reddit.com" ++ Child.permalink c)%string /\
            completion w discussion_system
              (discussion_user (js_or (Child.selftext c) (Child.title c)))
            = inr (Row.summary r).
Proof.
  intros [p [Hin Hfrom]]. apply in_map_iff in Hin. destruct Hin as [c [<- Hc]].
  exists c. split; [exact Hc | exact Hfrom].
Qed.

(** What one release, run to its end, posts. *)
Lemma release_posts (w : World) (st : Sys) (text : string) :
  In (AgentPost text) (trace (snd (run w retrieveAndPost st))) ->
  In (AgentPost text) (trace st) \/
  exists r, select_oldest (store st) = Some r /\ text = content r.
Proof.
  rewrite RedditRelease.run_retrieveAndPost.
  destruct (select_oldest (store st)) as [r |]; cbn [snd trace]; intros Hin;
    apply in_app_or in Hin; destruct Hin as [Hin | Hin]; try (left; exact Hin).
  - right. exists r. split; [reflexivity |].
    unfold release_trace, bluesky_trace in Hin.
    destruct Hin as [H | [H | Hin]]; try discriminate H.
    destruct (login w); [destruct Hin as [H | []]; discriminate H |].
    destruct Hin as [H | Hin]; [discriminate H |].
    destruct (facets w (content r)); [destruct Hin as [H | []]; discriminate H |].
    destruct Hin as [H | [H | []]]; [| discriminate H]. injection H as <-. reflexivity.
  - destruct Hin as [H | []]. discriminate H.
Qed.

End RedditPublish.

(** ** A whole tick *)

Module Tick.

(** *** Reddit *)

Lemma roles_of_nth (posts : list Reddit.Post.t) (i : nat) (p : Reddit.Post.t) :
  nth_error posts i = Some p -> nth_error (Reddit.roles_of posts) i = Some (Some p).
Proof.
  intros H. unfold Reddit.roles_of.
  rewrite nth_error_app1.
  - apply map_nth_error. exact H.
  - rewrite length_map. apply nth_error_Some. congruence.
Qed.

(** Whatever the schedule, the callback of the [i]-th post is at one of
    its stages. *)
Lemma callback_stage (w : Reddit.World) (posts : list Reddit.Post.t) (sch : list nat)
      (st : Reddit.Sys) (i : nat) (p : Reddit.Post.t) (task : Reddit.Prog unit) :
  nth_error posts i = Some p ->
  nth_error (fst (Reddit.interleave w sch (Reddit.pool_of posts) st)) i = Some task ->
  Reddit.Stage w (store (snd (Reddit.interleave w sch (Reddit.pool_of posts) st)))
                     p task.
Proof.
  intros Hp Htask. pose proof (RedditIngest.tick_inv w posts sch st) as Hinv.
  destruct (Reddit.interleave w sch (Reddit.pool_of posts) st) as [pool' st'].
  cbn [fst snd] in *.
  destruct (RedditIngest.Forall2_nth _ _ _ _ _ (Reddit.inv_fits _ _ _ _ _ _ Hinv) Htask)
    as [role [Hrole Hfit]].
  rewrite (roles_of_nth _ _ _ Hp) in Hrole. injection Hrole as <-. exact Hfit.
Qed.

Lemma stage_thrown (w : Reddit.World) (t : Reddit.Table) (p : Reddit.Post.t) (e : Err) :
  Reddit.Stage w t p (Throw e) ->
  Reddit.title_answer w p = inl e \/ Reddit.discussion_answer w p = inl e.
Proof.
  intros H. remember (Throw e : Reddit.Prog unit) as task eqn:Htask.
  destruct H as [| | | summary Hs | Hin | e' He]; try discriminate Htask.
  injection Htask as ->. exact He.
Qed.

Lemma stage_settled (w : Reddit.World) (t : Reddit.Table) (p : Reddit.Post.t)
      (task : Reddit.Prog unit) :
  Reddit.Stage w t p task -> settled task = true ->
  (task = Ret tt /\ In (Reddit.Post.id p) (Reddit.post_ids t)) \/
  (exists e, task = Throw e /\
             (Reddit.title_answer w p = inl e \/
              Reddit.discussion_answer w p = inl e)).
Proof.
  intros H Hs. destruct H; try discriminate Hs.
  - left. tauto.
  - right. exists e. tauto.
Qed.

(** Rows are never taken out of the table. *)
Lemma interleave_grows (w : Reddit.World) (posts : list Reddit.Post.t) (sch : list nat)
      (st : Reddit.Sys) :
  incl (Reddit.post_ids (store st))
       (Reddit.post_ids
          (store (snd (Reddit.interleave w sch (Reddit.pool_of posts) st)))).
Proof.
  pose proof (RedditIngest.tick_inv w posts sch st) as Hinv.
  destruct (Reddit.interleave w sch (Reddit.pool_of posts) st) as [pool' st'].
  exact (Reddit.inv_grows _ _ _ _ _ _ Hinv).
Qed.

(** The primary key holds under every schedule. *)
Lemma interleave_wf (w : Reddit.World) (sch : list nat) (pool : list (Reddit.Prog unit))
      (st : Reddit.Sys) :
  Reddit.wf (store st) ->
  Reddit.wf (store (snd (Reddit.interleave w sch pool st))).
Proof.
  apply (AsyncLaws.interleave_keeps Reddit.Cmd Reddit.Resp Reddit.World Reddit.Table Reddit.exec
           Reddit.wf RedditTable.rd_exec_wf).
Qed.

(** What [main] leaves behind once the listing has arrived. *)
Lemma run_reddit_main (w : Reddit.World) (st : Reddit.Sys) (token : string)
      (children : list Reddit.Child.t) :
  Reddit.access_token w = inr token -> Reddit.listing w token = inr children ->
  Reddit.run w Reddit.main st =
  (Fulfilled (Reddit.pool_of (map Reddit.post_of children)),
   mkSys (store st) (trace st ++ [Reddit.AccessToken; Reddit.GetNew token])).
Proof.
  intros Ht Hl. unfold Reddit.run, Reddit.main, Reddit.processPosts, Reddit.fetchRecentPosts.
  cbn [bind call Async.run]. unfold perform at 1. cbn [Reddit.exec store trace].
  rewrite Ht. cbn [bind Async.run]. unfold perform at 1. cbn [Reddit.exec store trace].
  rewrite Hl. cbn [bind Async.run]. rewrite <- app_assoc. reflexivity.
Qed.

(** *** Hacker News *)

Lemma run_wf {A : Type} (w : HN.World) (p : HN.Prog A) (st : HN.Sys) :
  HN.wf (store st) -> HN.wf (store (snd (HN.run w p st))).
Proof.
  apply (AsyncLaws.run_keeps HN.Cmd HN.Resp HN.World HN.Table HN.exec HN.wf HNTable.exec_wf).
Qed.

Lemma hn_interleave_wf (w : HN.World) (sch : list nat) (pool : list (HN.Prog unit))
      (st : HN.Sys) :
  HN.wf (store st) -> HN.wf (store (snd (HN.interleave w sch pool st))).
Proof.
  apply (AsyncLaws.interleave_keeps HN.Cmd HN.Resp HN.World HN.Table HN.exec
           HN.wf HNTable.exec_wf).
Qed.

(** A story that fails ends the loop where it stands. *)
Lemma run_ingest_abort (w : HN.World) (pre post : list Z) (i : Z) (st st1 st2 : HN.Sys)
      (e : Err) :
  HN.run w (HN.ingest pre) st = (Fulfilled tt, st1) ->
  HN.run w (HN.processStory i) st1 = (Rejected e, st2) ->
  HN.run w (HN.ingest (pre ++ i :: post)) st = (Rejected e, st2).
Proof.
  intros Hpre Hi. unfold HN.ingest, HN.run in *.
  rewrite AsyncLaws.run_forOf_app, Hpre. cbn [forOf].
  rewrite AsyncLaws.run_bind, Hi. reflexivity.
Qed.

Lemma run_main (w : HN.World) (st : HN.Sys) :
  HN.run w HN.main st =
  let st0 := mkSys (store st) (trace st ++ [HN.CreateTable; HN.GetTopStories]) in
  match HN.topstories w with
  | inl e => (Rejected e, st0)
  | inr ids =>
      match HN.run w (HN.ingest (firstn 15 ids)) st0 with
      | (Fulfilled _, st') => HN.run w HN.testRetrieval st'
      | (Rejected e, st') => (Rejected e, st')
      end
  end.
Proof.
  unfold HN.main, HN.initializeDatabase, HN.fetchTopStories, HN.run.
  cbn [bind Async.run call]. unfold perform at 1. cbn [HN.exec store trace].
  unfold perform at 1. cbn [HN.exec store trace]. rewrite <- app_assoc. cbn [app].
  destruct (HN.topstories w) as [e | ids]; [reflexivity |].
  cbn [bind Async.run]. rewrite AsyncLaws.run_bind. reflexivity.
Qed.

Lemma run_script (w : HN.World) (st : HN.Sys) :
  HN.run w HN.script st =
  match HN.run w HN.main st with
  | (Fulfilled _, st') => (Fulfilled tt, mkSys (store st') (trace st' ++ [HN.CronStart]))
  | (Rejected e, st') => (Rejected e, st')
  end.
Proof.
  unfold HN.script. rewrite HNIngest.hn_run_bind.
  destruct (HN.run w HN.main st) as [[[] | e] st']; reflexivity.
Qed.

End Tick.

(** ** The message *)

Module Publish.
Import Message.

Lemma append_assoc (a b c : string) : ((a ++ b) ++ c = a ++ (b ++ c))%string.
Proof.
  induction a as [| x a IH]; simpl; [reflexivity | rewrite IH; reflexivity].
Qed.

Lemma msg_layout (r : HN.Row.t) :
  HN.msg r =
  message_layout CRLF (HN.Row.title r) (HN.Row.commentSummary r) (hn_link (HN.Row.storyId r)).
Proof.
  unfold HN.msg, message_layout, hn_link. cbn zeta.
  rewrite !append_assoc. reflexivity.
Qed.

Lemma content_layout (r : Reddit.Row.t) :
  Reddit.content r =
  message_layout LF (Reddit.Row.title r) (Reddit.Row.summary r) (rd_link (Reddit.Row.id r)).
Proof. reflexivity. Qed.

(** What one [testRetrieval] that found [r] does, run to its end. *)
Lemma run_testRetrieval_found (w : HN.World) (st : HN.Sys) (r : HN.Row.t) :
  HN.select_top (store st) = Some r ->
  snd (HN.run w HN.testRetrieval st) =
  mkSys (HN.update_retrieved (HN.Row.id r) (store st))
        (trace st ++ HN.release_cmds w r).
Proof.
  intros Hsel. unfold HN.testRetrieval.
  rewrite HNIngest.hn_run_bind, HNRelease.run_getTopNewsItem, Hsel.
  unfold HN.run, HN.release_cmds. simpl. unfold perform. simpl.
  destruct (HN.login w) as [e | []]; simpl.
  - rewrite <- !app_assoc. reflexivity.
  - destruct (HN.facets w (HN.msg r)) as [e | []]; simpl.
    + rewrite <- !app_assoc. reflexivity.
    + destruct (HN.post w (HN.msg r)) as [e | []]; simpl; rewrite <- !app_assoc; reflexivity.
Qed.

End Publish.

(** ** The sample tables are well formed *)

Module ExampleFacts.
Import Examples.

Lemma hn_t3_wf : HN.wf hn_t3.
Proof.
  split.
  - repeat constructor.
  - unfold HN.story_ids. simpl. repeat constructor; simpl; intuition discriminate.
Defined.

Lemma hn_t3_ids : NoDup (HN.ids hn_t3).
Proof.
  unfold HN.ids. simpl. repeat constructor; simpl; intuition discriminate.
Defined.

Lemma rd_t3_wf : Reddit.wf rd_t3.
Proof.
  split.
  - repeat constructor.
  - unfold Reddit.post_ids. simpl. repeat constructor; simpl; intuition discriminate.
Defined.

End ExampleFacts.

(** ** Lists that only grow *)

Module GrowthFacts.
Import Growth.

Section Grown.

Variable A : Type.
Variable aged : A -> A -> Prop.
Hypothesis aged_refl : forall a, aged a a.
Hypothesis aged_trans : forall a b c, aged a b -> aged b c -> aged a c.

Lemma all_aged_refl (l : list A) : Forall2 aged l l.
Proof. induction l; constructor; auto. Qed.

Lemma all_aged_trans (l1 l2 l3 : list A) :
  Forall2 aged l1 l2 -> Forall2 aged l2 l3 -> Forall2 aged l1 l3.
Proof.
  intros H. revert l3. induction H as [| a b l1 l2 Hab _ IH]; intros l3 H3.
  - inversion H3. constructor.
  - inversion H3 as [| b' c l2' l3' Hbc H3' E1 E2]; subst.
    constructor; [eapply aged_trans; eassumption | apply IH; assumption].
Qed.

Lemma grown_refl (l : list A) : grown A aged l l.
Proof.
  exists l, []. split; [symmetry; apply app_nil_r | apply all_aged_refl].
Qed.

Lemma grown_trans (l1 l2 l3 : list A) :
  grown A aged l1 l2 -> grown A aged l2 l3 -> grown A aged l1 l3.
Proof.
  intros [o1 [n1 [E1 H1]]] [o2 [n2 [E2 H2]]]. subst l2 l3.
  apply Forall2_app_inv_l in H2. destruct H2 as [o2a [o2b [Ha [Hb E]]]]. subst o2.
  exists o2a, (o2b ++ n2). split.
  - symmetry. apply app_assoc.
  - eapply all_aged_trans; eassumption.
Qed.

Lemma grown_snoc (l : list A) (x : A) : grown A aged l (l ++ [x]).
Proof. exists l, [x]. split; [reflexivity | apply all_aged_refl]. Qed.

Lemma grown_map (f : A -> A) (l : list A) :
  (forall a, aged a (f a)) -> grown A aged l (map f l).
Proof.
  intros Hf. exists (map f l), []. split; [symmetry; apply app_nil_r |].
  induction l; simpl; constructor; auto.
Qed.

(** An element keeps its place. *)
Lemma grown_nth (l l' : list A) (i : nat) (a : A) :
  grown A aged l l' -> nth_error l i = Some a ->
  exists a', nth_error l' i = Some a' /\ aged a a'.
Proof.
  intros [olds [news [E H]]] Hi. subst l'. revert i Hi.
  induction H as [| x y l olds Hxy _ IH]; intros i Hi.
  - destruct i; discriminate Hi.
  - destruct i as [| i]; simpl in *.
    + injection Hi as <-. exists y. split; [reflexivity | exact Hxy].
    + apply IH. exact Hi.
Qed.

Lemma grown_In (l l' : list A) (a : A) :
  grown A aged l l' -> In a l -> exists a', In a' l' /\ aged a a'.
Proof.
  intros H Hin. apply In_nth_error in Hin. destruct Hin as [i Hi].
  destruct (grown_nth l l' i a H Hi) as [a' [Hi' Ha]].
  exists a'. split; [eapply nth_error_In; exact Hi' | exact Ha].
Qed.

Lemma grown_length (l l' : list A) :
  grown A aged l l' -> (List.length l <= List.length l')%nat.
Proof.
  intros [olds [news [E H]]]. subst l'. rewrite length_app.
  apply Forall2_length in H. lia.
Qed.

End Grown.

Lemma Subseq_nil {A : Type} (l : list A) : Subseq [] l.
Proof. induction l; constructor; assumption. Qed.

Lemma Subseq_refl {A : Type} (l : list A) : Subseq l l.
Proof. induction l; constructor; assumption. Qed.

Lemma Subseq_app {A : Type} (l1 l1' l2 l2' : list A) :
  Subseq l1 l1' -> Subseq l2 l2' -> Subseq (l1 ++ l2) (l1' ++ l2').
Proof.
  intros H1 H2. induction H1; simpl; try constructor; assumption.
Qed.

Lemma Subseq_length {A : Type} (l l' : list A) :
  Subseq l l' -> (List.length l <= List.length l')%nat.
Proof. intros H. induction H; simpl; lia. Qed.

Lemma Subseq_In {A : Type} (l l' : list A) (a : A) :
  Subseq l l' -> In a l -> In a l'.
Proof.
  intros H. induction H; simpl; intros Hin; auto.
  destruct Hin as [-> | Hin]; auto.
Qed.

End GrowthFacts.

(** ** Rows are kept *)

Module HNKept.
Import HN Growth.

Lemma hn_aged_refl (r : Row.t) : aged r r.
Proof. split; auto. Qed.

Lemma hn_aged_trans (a b c : Row.t) : aged a b -> aged b c -> aged a c.
Proof.
  intros [E1 F1] [E2 F2]. split; [congruence | auto].
Qed.

Lemma hn_aged_update (i : Z) (r : Row.t) : aged r (if Row.id r =? i then mark r else r).
Proof.
  destruct (Row.id r =? i); [| apply hn_aged_refl].
  split; [reflexivity | intros _; discriminate].
Qed.

Lemma exec_grown (w : World) (c : Cmd) (t : Table) :
  grown Row.t aged (rows t) (rows (snd (exec w c t))).
Proof.
  destruct c; simpl; try apply (GrowthFacts.grown_refl _ _ hn_aged_refl).
  - unfold insert. destruct (has_story storyId t); simpl.
    + apply (GrowthFacts.grown_refl _ _ hn_aged_refl).
    + apply (GrowthFacts.grown_snoc _ _ hn_aged_refl).
  - apply GrowthFacts.grown_map. apply hn_aged_update.
Qed.

Lemma exec_keeps_grown (t0 : Table) (w : World) (c : Cmd) (t : Table) :
  grown Row.t aged (rows t0) (rows t) ->
  grown Row.t aged (rows t0) (rows (snd (exec w c t))).
Proof.
  intros H. eapply (GrowthFacts.grown_trans _ _ hn_aged_trans); [exact H | apply exec_grown].
Qed.

Lemma run_grown {A : Type} (w : World) (p : Prog A) (st : Sys) :
  grown Row.t aged (rows (store st)) (rows (store (snd (run w p st)))).
Proof.
  apply (AsyncLaws.run_keeps Cmd Resp World Table exec
           (fun t => grown Row.t aged (rows (store st)) (rows t))
           (exec_keeps_grown (store st))).
  apply (GrowthFacts.grown_refl _ _ hn_aged_refl).
Qed.

Lemma interleave_grown (w : World) (sch : list nat) (pool : list (Prog unit)) (st : Sys) :
  grown Row.t aged (rows (store st)) (rows (store (snd (interleave w sch pool st)))).
Proof.
  apply (AsyncLaws.interleave_keeps Cmd Resp World Table exec
           (fun t => grown Row.t aged (rows (store st)) (rows t))
           (exec_keeps_grown (store st))).
  apply (GrowthFacts.grown_refl _ _ hn_aged_refl).
Qed.

Lemma crash_grown {A : Type} (w : World) (n : nat) (p : Prog A) (st : Sys) :
  grown Row.t aged (rows (store st)) (rows (store (crashAfter w n p st))).
Proof.
  apply (AsyncLaws.crashAfter_keeps Cmd Resp World Table exec
           (fun t => grown Row.t aged (rows (store st)) (rows t))
           (exec_keeps_grown (store st))).
  apply (GrowthFacts.grown_refl _ _ hn_aged_refl).
Qed.

End HNKept.

Module RedditKept.
Import Reddit Growth.

Lemma rd_aged_refl (r : Row.t) : aged r r.
Proof. split; auto. Qed.

Lemma rd_aged_trans (a b c : Row.t) : aged a b -> aged b c -> aged a c.
Proof.
  intros [E1 F1] [E2 F2]. split; [congruence | auto].
Qed.

Lemma rd_aged_update (i : string) (r : Row.t) :
  aged r (if String.eqb (Row.id r) i then mark r else r).
Proof.
  destruct (String.eqb (Row.id r) i); [| apply rd_aged_refl].
  split; [reflexivity | intros _; discriminate].
Qed.

Lemma rd_exec_grown (w : World) (c : Cmd) (t : Table) :
  grown Row.t aged t (snd (exec w c t)).
Proof.
  destruct c; simpl; try apply (GrowthFacts.grown_refl _ _ rd_aged_refl).
  - unfold insert. destruct (has_post id t); simpl.
    + apply (GrowthFacts.grown_refl _ _ rd_aged_refl).
    + apply (GrowthFacts.grown_snoc _ _ rd_aged_refl).
  - apply GrowthFacts.grown_map. apply rd_aged_update.
Qed.

Lemma rd_exec_keeps_grown (t0 : Table) (w : World) (c : Cmd) (t : Table) :
  grown Row.t aged t0 t -> grown Row.t aged t0 (snd (exec w c t)).
Proof.
  intros H. eapply (GrowthFacts.grown_trans _ _ rd_aged_trans); [exact H | apply rd_exec_grown].
Qed.

Lemma rd_run_grown {A : Type} (w : World) (p : Prog A) (st : Sys) :
  grown Row.t aged (store st) (store (snd (run w p st))).
Proof.
  apply (AsyncLaws.run_keeps Cmd Resp World Table exec
           (fun t => grown Row.t aged (store st) t)
           (rd_exec_keeps_grown (store st))).
  apply (GrowthFacts.grown_refl _ _ rd_aged_refl).
Qed.

Lemma rd_interleave_grown (w : World) (sch : list nat) (pool : list (Prog unit)) (st : Sys) :
  grown Row.t aged (store st) (store (snd (interleave w sch pool st))).
Proof.
  apply (AsyncLaws.interleave_keeps Cmd Resp World Table exec
           (fun t => grown Row.t aged (store st) t)
           (rd_exec_keeps_grown (store st))).
  apply (GrowthFacts.grown_refl _ _ rd_aged_refl).
Qed.

Lemma rd_crash_grown {A : Type} (w : World) (n : nat) (p : Prog A) (st : Sys) :
  grown Row.t aged (store st) (store (crashAfter w n p st)).
Proof.
  apply (AsyncLaws.crashAfter_keeps Cmd Resp World Table exec
           (fun t => grown Row.t aged (store st) t)
           (rd_exec_keeps_grown (store st))).
  apply (GrowthFacts.grown_refl _ _ rd_aged_refl).
Qed.

End RedditKept.

(** ** A released row stays released *)

Module HNOnce.
Import HN.

Lemma released_update (t : Table) (r : Row.t) :
  In r (rows t) -> released (Row.id r) (update_retrieved (Row.id r) t).
Proof.
  intros Hin. destruct (Crash.hn_update_flags t r Hin) as [Hm Hall]. split.
  - exists (mark r). split; [exact Hm | reflexivity].
  - intros x Hx Hid. rewrite (Hall x Hx Hid). discriminate.
Qed.

Lemma exec_released (i : Z) (w : World) (c : Cmd) (t : Table) :
  released i t -> released i (snd (exec w c t)).
Proof.
  intros [[r0 [Hin0 Hid0]] Hall].
  destruct c; simpl; try (split; [exists r0; tauto | exact Hall]).
  - unfold insert. destruct (has_story storyId t); simpl.
    + split; [exists r0; tauto | exact Hall].
    + split.
      * exists r0. split; [apply in_or_app; left; exact Hin0 | exact Hid0].
      * intros r Hr Hid. apply in_app_or in Hr.
        destruct Hr as [Hr | [<- | []]]; [auto |].
        simpl in Hid. pose proof (HNTable.max_id_bound _ _ Hin0). lia.
  - split.
    + exists (if Row.id r0 =? id then mark r0 else r0). split.
      * apply in_map_iff. exists r0. tauto.
      * destruct (Row.id r0 =? id); exact Hid0.
    + intros r Hr Hid. apply in_map_iff in Hr. destruct Hr as [y [Hy Hiny]].
      destruct (Row.id y =? id); subst r; [simpl; discriminate | apply Hall; assumption].
Qed.

Lemma run_released {A : Type} (i : Z) (w : World) (p : Prog A) (st : Sys) :
  released i (store st) -> released i (store (snd (run w p st))).
Proof.
  apply (AsyncLaws.run_keeps Cmd Resp World Table exec (released i) (exec_released i)).
Qed.

Lemma interleave_released (i : Z) (w : World) (sch : list nat) (pool : list (Prog unit))
      (st : Sys) :
  released i (store st) -> released i (store (snd (interleave w sch pool st))).
Proof.
  apply (AsyncLaws.interleave_keeps Cmd Resp World Table exec (released i)
           (exec_released i)).
Qed.

Lemma released_not_selected (i : Z) (t : Table) (r : Row.t) :
  released i t -> select_top t = Some r -> Row.id r <> i.
Proof.
  intros [_ Hall] Hsel Hid. apply HNTable.select_top_spec in Hsel.
  destruct Hsel as [Hin [H0 _]]. exact (Hall r Hin Hid H0).
Qed.

(** With story ids unique, a released story is not selected under another
    row id either. *)
Lemma released_story_not_selected (t : Table) (r r' x : Row.t) :
  NoDup (story_ids t) -> released (Row.id r) t ->
  In x (rows t) -> content x = content r ->
  select_top t = Some r' -> Row.storyId r' <> Row.storyId r.
Proof.
  intros Hn [_ Hall] Hx Hc Hsel Hsid. apply HNTable.select_top_spec in Hsel.
  destruct Hsel as [Hin [H0 _]].
  assert (Hxr : Row.id x = Row.id r /\ Row.storyId x = Row.storyId r).
  { unfold content in Hc. injection Hc as -> -> _ _ _. tauto. }
  assert (r' = x).
  { apply (Keyed.key_inj _ _ Row.storyId (rows t)); trivial.
    rewrite Hsid. symmetry. exact (proj2 Hxr). }
  subst x. exact (Hall r' Hin (proj1 Hxr) H0).
Qed.

End HNOnce.

Module RedditOnce.
Import Reddit.

Lemma rd_released_update (t : Table) (r : Row.t) :
  In r t -> released (Row.id r) (update_retrieved (Row.id r) t).
Proof.
  intros Hin. destruct (Crash.rd_update_flags t r Hin) as [Hm Hall]. split.
  - rewrite RedditTable.rd_update_post_ids. apply in_map. exact Hin.
  - intros x Hx Hid. rewrite (Hall x Hx Hid). discriminate.
Qed.

Lemma rd_exec_released (i : string) (w : World) (c : Cmd) (t : Table) :
  released i t -> released i (snd (exec w c t)).
Proof.
  intros [Hin Hall]. split; [apply (RedditIngest.exec_grows w c t); exact Hin |].
  destruct c; simpl; try exact Hall.
  - unfold insert. destruct (has_post id t) eqn:Hhas; simpl; [exact Hall |].
    intros r Hr Hid. apply in_app_or in Hr. destruct Hr as [Hr | [<- | []]]; [auto |].
    simpl in Hid. subst id. apply RedditTable.has_post_In in Hin. congruence.
  - intros r Hr Hid. apply in_map_iff in Hr. destruct Hr as [y [Hy Hiny]].
    destruct (String.eqb (Row.id y) id); subst r; [simpl; discriminate | auto].
Qed.

Lemma rd_run_released {A : Type} (i : string) (w : World) (p : Prog A) (st : Sys) :
  released i (store st) -> released i (store (snd (run w p st))).
Proof.
  apply (AsyncLaws.run_keeps Cmd Resp World Table exec (released i) (rd_exec_released i)).
Qed.

Lemma rd_interleave_released (i : string) (w : World) (sch : list nat)
      (pool : list (Prog unit)) (st : Sys) :
  released i (store st) -> released i (store (snd (interleave w sch pool st))).
Proof.
  apply (AsyncLaws.interleave_keeps Cmd Resp World Table exec (released i)
           (rd_exec_released i)).
Qed.

Lemma rd_released_not_selected (i : string) (t : Table) (r : Row.t) :
  released i t -> select_oldest t = Some r -> Row.id r <> i.
Proof.
  intros [_ Hall] Hsel Hid. apply RedditTable.select_oldest_spec in Hsel.
  destruct Hsel as [Hin [H0 _]]. exact (Hall r Hin Hid H0).
Qed.

End RedditOnce.

(** ** The release step of the Hacker News bot, to its end *)

Module HNPublish.
Import HN.

Lemma run_testRetrieval_none (w : World) (st : Sys) :
  select_top (store st) = None ->
  run w testRetrieval st = (Fulfilled tt, mkSys (store st) (trace st ++ [SelectTop])).
Proof.
  intros Hsel. unfold testRetrieval.
  rewrite HNIngest.hn_run_bind, HNRelease.run_getTopNewsItem, Hsel. reflexivity.
Qed.

Lemma run_testRetrieval_some (w : World) (st : Sys) (r : Row.t) :
  select_top (store st) = Some r ->
  run w testRetrieval st =
  (match login w with
   | inl e => Rejected e
   | inr _ => match facets w (msg r) with
              | inl e => Rejected e
              | inr _ => match post w (msg r) with
                         | inl e => Rejected e
                         | inr _ => Fulfilled tt
                         end
              end
   end,
   mkSys (update_retrieved (Row.id r) (store st)) (trace st ++ release_cmds w r)).
Proof.
  intros Hsel. unfold testRetrieval.
  rewrite HNIngest.hn_run_bind, HNRelease.run_getTopNewsItem, Hsel.
  unfold run, release_cmds. simpl. unfold perform. simpl.
  destruct (login w) as [e | []]; simpl.
  - rewrite <- !app_assoc. reflexivity.
  - destruct (facets w (msg r)) as [e | []]; simpl.
    + rewrite <- !app_assoc. reflexivity.
    + destruct (post w (msg r)) as [e | []]; simpl; rewrite <- !app_assoc; reflexivity.
Qed.

End HNPublish.

(** ** What a tick of the Hacker News bot stores and asks *)

Module HNEffect.
Import HN Growth.

Lemma chats_app (l l' : list Cmd) : chats (l ++ l') = (chats l + chats l')%nat.
Proof. unfold chats. rewrite filter_app, length_app. reflexivity. Qed.

Lemma inserts_app (l l' : list Cmd) : inserts (l ++ l') = (inserts l + inserts l')%nat.
Proof. unfold inserts. rewrite filter_app, length_app. reflexivity. Qed.

(** Reads are neither chat requests nor INSERTs. *)
Lemma reads_quiet (l : list Cmd) :
  forallb is_read l = true ->
  chats l = 0%nat /\ inserts l = 0%nat /\ Forall comments_request l.
Proof.
  induction l as [| c l IH]; intros H; [repeat split; constructor |].
  cbn [forallb] in H. apply andb_true_iff in H. destruct H as [Hc Hl].
  destruct (IH Hl) as [H1 [H2 H3]].
  destruct c; try discriminate Hc; unfold chats, inserts in *; cbn [filter is_chat is_insert];
    repeat split; trivial; constructor; trivial; exact I.
Qed.

(** The inner loop only reads, and what it returns are the texts of the
    children in order. *)
Lemma fetchComments_effect (w : World) (kids : list Z) (acc : list string) (st : Sys) :
  exists gets,
    snd (run w (fetchComments kids acc) st) = mkSys (store st) (trace st ++ gets) /\
    forallb is_read gets = true /\
    forall cs, fst (run w (fetchComments kids acc) st) = Fulfilled cs ->
               cs = acc ++ somes (map (comment_text w) kids).
Proof.
  revert acc st. induction kids as [| k kids IH]; intros acc st.
  - exists []. cbn. rewrite app_nil_r. split; [destruct st; reflexivity |].
    split; [reflexivity |]. intros cs H. injection H as <-. symmetry. apply app_nil_r.
  - cbn [fetchComments]. rewrite HNIngest.hn_run_bind, HNIngest.run_fetchStoryDetails.
    assert (Hstep : forall acc',
               acc' ++ somes (map (comment_text w) kids) =
               acc ++ somes (map (comment_text w) (k :: kids)) ->
               exists gets,
                 snd (run w (fetchComments kids acc')
                          (mkSys (store st) (trace st ++ [GetItem k]))) =
                 mkSys (store st) (trace st ++ gets) /\
                 forallb is_read gets = true /\
                 forall cs,
                   fst (run w (fetchComments kids acc')
                            (mkSys (store st) (trace st ++ [GetItem k]))) = Fulfilled cs ->
                   cs = acc ++ somes (map (comment_text w) (k :: kids))).
    { intros acc' Hacc.
      destruct (IH acc' (mkSys (store st) (trace st ++ [GetItem k]))) as [gets [H1 [H2 H3]]].
      exists (GetItem k :: gets). cbn [store trace] in H1. rewrite <- app_assoc in H1.
      split; [exact H1 |]. split; [exact H2 |].
      intros cs Hcs. rewrite <- Hacc. apply H3. exact Hcs. }
    destruct (item w k) as [e | [d |]] eqn:Hi.
    + exists [GetItem k]. split; [reflexivity |]. split; [reflexivity |]. discriminate.
    + destruct (Item.text d) as [s |] eqn:Ht; [destruct (truthy s) eqn:Hs |];
        apply Hstep; cbn [map somes]; unfold comment_text at 2; rewrite Hi, Ht;
        try rewrite Hs; try reflexivity.
      rewrite <- app_assoc. reflexivity.
    + apply Hstep. cbn [map somes]. unfold comment_text at 2. rewrite Hi. reflexivity.
Qed.

(** One turn of the loop of [main]: either the table is as it was and at
    most one chat request was made, or the story was new, passed the guard,
    was summarized and is now the last row. *)
Lemma processStory_effect (w : World) (sid : Z) (st : Sys) (o : Outcome unit) (st' : Sys) :
  run w (processStory sid) st = (o, st') ->
  exists evs,
    trace st' = trace st ++ evs /\ Forall comments_request evs /\
    ((store st' = store st /\ (chats evs <= 1)%nat /\ inserts evs = 0%nat /\
      (o = Fulfilled tt -> seen w (store st) sid)) \/
     (o = Fulfilled tt /\ chats evs = 1%nat /\ inserts evs = 1%nat /\
      has_story sid (store st) = false /\
      exists r, store st' = mkTable (rows (store st) ++ [r]) (Row.id r) /\
                Row.storyId r = sid /\ from_story w r)).
Proof.
  assert (Hreads : forall l, forallb is_read l = true ->
                             (o = Fulfilled tt -> seen w (store st) sid) ->
                             st' = mkSys (store st) (trace st ++ l) ->
                             exists evs,
                               trace st' = trace st ++ evs /\ Forall comments_request evs /\
                               ((store st' = store st /\ (chats evs <= 1)%nat /\
                                 inserts evs = 0%nat /\
                                 (o = Fulfilled tt -> seen w (store st) sid)) \/
                                (o = Fulfilled tt /\ chats evs = 1%nat /\
                                 inserts evs = 1%nat /\
                                 has_story sid (store st) = false /\
                                 exists r,
                                   store st' = mkTable (rows (store st) ++ [r]) (Row.id r) /\
                                   Row.storyId r = sid /\ from_story w r))).
  { intros l Hl Hseen ->. exists l. destruct (reads_quiet l Hl) as [H1 [H2 H3]].
    split; [reflexivity |]. split; [exact H3 |]. left. cbn [store]. rewrite H1, H2.
    split; [reflexivity |]. split; [lia |]. split; [reflexivity | exact Hseen]. }
  intros Hrun.
  destruct (has_story sid (store st)) eqn:Hhas.
  { apply (Hreads [SelectStory sid]); [reflexivity | intros _; left; exact Hhas |].
    rewrite (HNIngest.run_processStory_known w sid st Hhas) in Hrun.
    injection Hrun as _ <-. reflexivity. }
  destruct (item w sid) as [e | it] eqn:Hitem.
  { revert Hrun. unfold processStory.
    rewrite HNIngest.hn_run_bind, HNIngest.run_isStoryProcessed, Hhas. cbn iota.
    rewrite HNIngest.hn_run_bind, HNIngest.run_fetchStoryDetails, Hitem. cbn [store trace].
    rewrite <- app_assoc. intros H. injection H as <- <-.
    apply (Hreads [SelectStory sid; GetItem sid]); [reflexivity | discriminate | reflexivity]. }
  assert (Hskip : skipped it ->
                  st' = mkSys (store st) (trace st ++ [SelectStory sid; GetItem sid])).
  { intros Hs. rewrite (HNIngest.run_processStory_skipped w sid st it Hhas Hitem Hs) in Hrun.
    injection Hrun as _ <-. reflexivity. }
  destruct it as [s |];
    [| apply (Hreads [SelectStory sid; GetItem sid]);
       [reflexivity | intros _; right; exists None; split; [exact Hitem | exact I]
       | apply Hskip; exact I]].
  destruct (Item.kids s) as [kids |] eqn:Hkids;
    [| apply (Hreads [SelectStory sid; GetItem sid]);
       [reflexivity
       | intros _; right; exists (Some s); split; [exact Hitem | left; exact Hkids]
       | apply Hskip; left; exact Hkids]].
  destruct (truthy_opt (Item.url s)) eqn:Hurl;
    [| apply (Hreads [SelectStory sid; GetItem sid]);
       [reflexivity
       | intros _; right; exists (Some s); split; [exact Hitem | right; exact Hurl]
       | apply Hskip; right; exact Hurl]].
  destruct (Item.url s) as [u |] eqn:Hu; [| discriminate Hurl]. cbn [truthy_opt] in Hurl.
  clear Hskip. revert Hrun. unfold processStory.
  rewrite HNIngest.hn_run_bind, HNIngest.run_isStoryProcessed, Hhas. cbn iota.
  rewrite HNIngest.hn_run_bind, HNIngest.run_fetchStoryDetails, Hitem. cbn [store trace].
  rewrite Hkids, Hu, Hurl. unfold enrichAndSave. rewrite HNIngest.hn_run_bind.
  rewrite <- app_assoc. cbn [app].
  set (st1 := mkSys (store st) (trace st ++ [SelectStory sid; GetItem sid])).
  destruct (fetchComments_effect w (firstn 25 kids) [] st1) as [gets [Hsnd [Hgets Hcs]]].
  destruct (run w (fetchComments (firstn 25 kids) []) st1) as [[cs | e] st2].
  - cbn [fst snd] in Hsnd, Hcs. subst st2. rewrite (Hcs cs eq_refl). cbn [app].
    fold (discussion_texts w kids).
    rewrite HNIngest.hn_run_bind, HNIngest.run_summarizeComments. cbn zeta.
    cbn [store trace st1].
    set (text := join LF (discussion_texts w kids)).
    destruct (completion w comments_system (comments_user text)) as [e | summary] eqn:Hchat.
    + intros H. injection H as <- <-. cbn [store trace].
      exists ([SelectStory sid; GetItem sid] ++ gets
              ++ [ChatCompletion comments_system (comments_user text)]).
      destruct (reads_quiet gets Hgets) as [H1 [H2 H3]].
      split; [rewrite <- !app_assoc; reflexivity |]. split.
      * apply Forall_app. split; [repeat constructor |]. apply Forall_app. split; [exact H3 |].
        constructor; [| constructor]. split; [reflexivity | exists text; reflexivity].
      * left. rewrite !chats_app, !inserts_app, H1, H2. cbn.
        split; [reflexivity |]. split; [lia |]. split; [reflexivity | discriminate].
    + rewrite HNRelease.run_save. cbn [store trace]. unfold insert. rewrite Hhas.
      intros H. injection H as <- <-. cbn [store trace].
      exists ([SelectStory sid; GetItem sid] ++ gets
              ++ [ChatCompletion comments_system (comments_user text)]
              ++ [InsertStory sid (Item.title s) u summary]).
      destruct (reads_quiet gets Hgets) as [H1 [H2 H3]].
      split; [rewrite <- !app_assoc; reflexivity |]. split.
      * apply Forall_app. split; [repeat constructor |]. apply Forall_app. split; [exact H3 |].
        constructor; [| repeat constructor]. split; [reflexivity | exists text; reflexivity].
      * right. rewrite !chats_app, !inserts_app, H1, H2. cbn.
        repeat split.
        exists (Row.mk (Z.max (seq (store st)) (max_id (rows (store st))) + 1) sid
                       (Item.title s) u summary 0).
        split; [reflexivity |]. split; [reflexivity |].
        exists s, kids. cbn. repeat split; trivial.
  - cbn [fst snd] in Hsnd. subst st2. intros H. injection H as <- <-.
    cbn [store trace st1]. exists ([SelectStory sid; GetItem sid] ++ gets).
    destruct (reads_quiet gets Hgets) as [H1 [H2 H3]].
    split; [rewrite <- !app_assoc; reflexivity |]. split.
    + apply Forall_app. split; [repeat constructor | exact H3].
    + left. rewrite !chats_app, !inserts_app, H1, H2. cbn.
      split; [reflexivity |]. split; [lia |]. split; [reflexivity | discriminate].
Qed.

End HNEffect.

Module HNTickEffect.
Import HN Growth.

Lemma has_story_before (sid : Z) (t t' : Table) (news : list Row.t) :
  rows t' = rows t ++ news -> has_story sid t' = false -> has_story sid t = false.
Proof.
  unfold has_story. intros ->. rewrite existsb_app. intros H.
  apply orb_false_iff in H. tauto.
Qed.

(** The loop of [main] over [ids]: what it appends and what it asks. *)
Lemma ingest_effect (w : World) (ids : list Z) (st : Sys) (o : Outcome unit) (st' : Sys) :
  run w (ingest ids) st = (o, st') ->
  exists evs news,
    trace st' = trace st ++ evs /\
    rows (store st') = rows (store st) ++ news /\
    Subseq (map Row.storyId news) ids /\
    NoDup (map Row.storyId news) /\
    Forall (from_story w) news /\
    (forall r, In r news -> has_story (Row.storyId r) (store st) = false) /\
    Forall comments_request evs /\
    (chats evs <= List.length ids)%nat /\
    inserts evs = List.length news /\
    (List.length news <= chats evs)%nat.
Proof.
  revert st o st'. induction ids as [| i ids IH]; intros st o st' Hrun.
  - injection Hrun as _ <-. exists [], []. rewrite !app_nil_r.
    split; [reflexivity |]. split; [reflexivity |]. split; [constructor |].
    split; [constructor |]. split; [constructor |]. split; [intros r [] |].
    split; [constructor |]. cbn. repeat split; lia.
  - unfold ingest in Hrun. cbn [forOf] in Hrun. rewrite HNIngest.hn_run_bind in Hrun.
    destruct (run w (processStory i) st) as [o1 st1] eqn:H1.
    destruct (HNEffect.processStory_effect _ _ _ _ _ H1) as [evs1 [Ht1 [Hc1 Hcase]]].
    destruct o1 as [[] | e].
    + destruct (IH st1 o st' Hrun)
        as [evs2 [news2 [Ht2 [Hr2 [Hsub [Hnd [Hfrom [Hnew [Hc2 [Hch [Hins Hlen]]]]]]]]]]].
      destruct Hcase as [[Hs [Hch1 [Hin1 _]]] | [_ [Hch1 [Hin1 [Hhas [r [Hs [Hsid Hr]]]]]]]].
      * exists (evs1 ++ evs2), news2.
        rewrite HNEffect.chats_app, HNEffect.inserts_app, Hin1. cbn [List.length].
        split; [rewrite Ht2, Ht1, app_assoc; reflexivity |].
        split; [rewrite Hr2, Hs; reflexivity |].
        split; [constructor; exact Hsub |].
        split; [exact Hnd |].
        split; [exact Hfrom |].
        split; [intros r Hr; rewrite <- Hs; apply Hnew; exact Hr |].
        split; [apply Forall_app; tauto |].
        repeat split; lia.
      * exists (evs1 ++ evs2), (r :: news2).
        rewrite HNEffect.chats_app, HNEffect.inserts_app, Hin1, Hch1.
        cbn [List.length map].
        split; [rewrite Ht2, Ht1, app_assoc; reflexivity |].
        split; [rewrite Hr2, Hs; cbn [rows]; rewrite <- app_assoc; reflexivity |].
        split; [rewrite Hsid; constructor; exact Hsub |].
        split.
        { constructor; [| exact Hnd]. intros Hin. apply in_map_iff in Hin.
          destruct Hin as [r' [Hsid' Hr']]. specialize (Hnew r' Hr').
          rewrite Hsid', Hs in Hnew. unfold has_story in Hnew. cbn [rows] in Hnew.
          rewrite existsb_app in Hnew. cbn in Hnew. rewrite Hsid, Z.eqb_refl in Hnew.
          rewrite orb_true_r in Hnew. discriminate Hnew. }
        split; [constructor; assumption |].
        split.
        { intros r' [<- | Hr']; [rewrite Hsid; exact Hhas |].
          apply (has_story_before _ _ (store st1) [r]); [rewrite Hs; reflexivity |].
          apply Hnew. exact Hr'. }
        split; [apply Forall_app; tauto |].
        repeat split; lia.
    + injection Hrun as _ <-.
      destruct Hcase as [[Hs [Hch1 [Hin1 _]]] | [Ho _]]; [| discriminate Ho].
      exists evs1, []. rewrite Hs, app_nil_r. cbn [List.length map].
      split; [exact Ht1 |]. split; [reflexivity |].
      split; [apply GrowthFacts.Subseq_nil |]. split; [constructor |].
      split; [constructor |]. split; [intros r [] |]. split; [exact Hc1 |].
      repeat split; lia.
Qed.

(** The release step asks the chat service nothing and stores nothing. *)
Lemma release_quiet (w : World) (r : Row.t) :
  chats (release_cmds w r) = 0%nat /\ inserts (release_cmds w r) = 0%nat /\
  Forall comments_request (release_cmds w r).
Proof.
  unfold release_cmds. destruct (login w); [| destruct (facets w (msg r))];
    cbn; repeat split; repeat constructor.
Qed.

(** A tick that ends well got the listing, went through its first 15 ids,
    and ended with the release. *)
Lemma main_fulfilled (w : World) (st : Sys) :
  fst (run w main st) = Fulfilled tt ->
  exists ids st1,
    topstories w = inr ids /\
    run w (ingest (firstn 15 ids))
        (mkSys (store st) (trace st ++ [CreateTable; GetTopStories])) = (Fulfilled tt, st1) /\
    run w main st = run w testRetrieval st1.
Proof.
  rewrite Tick.run_main. cbn zeta.
  destruct (topstories w) as [e | ids]; [discriminate |].
  destruct (run w (ingest (firstn 15 ids)) _) as [[[] | e] st1] eqn:Hing; [| discriminate].
  intros _. exists ids, st1. split; [reflexivity | split; [exact Hing | reflexivity]].
Qed.

(** A whole tick: what it appends and what it asks. *)
Lemma main_effect (w : World) (st : Sys) (o : Outcome unit) (st' : Sys) :
  run w main st = (o, st') ->
  exists evs news,
    trace st' = trace st ++ evs /\
    map content (rows (store st')) = map content (rows (store st) ++ news) /\
    (exists t1, rows t1 = rows (store st) ++ news /\
                (store st' = t1 \/
                 exists r, select_top t1 = Some r /\
                           store st' = update_retrieved (Row.id r) t1)) /\
    Subseq (map Row.storyId news) (listed w) /\
    NoDup (map Row.storyId news) /\
    Forall (from_story w) news /\
    (forall r, In r news -> has_story (Row.storyId r) (store st) = false) /\
    Forall comments_request evs /\
    (chats evs <= 15)%nat /\
    inserts evs = List.length news /\
    (List.length news <= chats evs)%nat.
Proof.
  rewrite Tick.run_main. cbn zeta. unfold listed.
  destruct (topstories w) as [e | ids].
  { intros H. injection H as _ <-. exists [CreateTable; GetTopStories], [].
    rewrite app_nil_r. cbn [List.length map store].
    split; [reflexivity |]. split; [reflexivity |].
    split; [exists (store st); split; [reflexivity | left; reflexivity] |].
    split; [constructor |].
    split; [constructor |]. split; [constructor |]. split; [intros r [] |].
    split; [repeat constructor |]. cbn. repeat split; lia. }
  set (st0 := mkSys (store st) (trace st ++ [CreateTable; GetTopStories])).
  destruct (run w (ingest (firstn 15 ids)) st0) as [o1 st1] eqn:Hing.
  destruct (ingest_effect _ _ _ _ _ Hing)
    as [evs [news [Ht [Hr [Hsub [Hnd [Hfrom [Hnew [Hc [Hch [Hins Hlen]]]]]]]]]]].
  cbn [store trace st0] in Ht, Hr, Hnew.
  assert (H15 : (chats evs <= 15)%nat).
  { pose proof (firstn_le_length 15 ids). lia. }
  assert (Hquiet : forall tail,
             chats tail = 0%nat -> inserts tail = 0%nat -> Forall comments_request tail ->
             chats ([CreateTable; GetTopStories] ++ evs ++ tail) = chats evs /\
             inserts ([CreateTable; GetTopStories] ++ evs ++ tail) = inserts evs /\
             Forall comments_request ([CreateTable; GetTopStories] ++ evs ++ tail)).
  { intros tail H1 H2 H3. rewrite !HNEffect.chats_app, !HNEffect.inserts_app, H1, H2.
    cbn. repeat split; try lia. repeat constructor. apply Forall_app. tauto. }
  destruct o1 as [[] | e].
  - destruct (select_top (store st1)) as [r |] eqn:Hsel.
    + rewrite (HNPublish.run_testRetrieval_some w st1 r Hsel).
      intros H. injection H as _ <-. cbn [store trace].
      destruct (release_quiet w r) as [Q1 [Q2 Q3]].
      destruct (Hquiet (release_cmds w r) Q1 Q2 Q3) as [E1 [E2 E3]].
      exists ([CreateTable; GetTopStories] ++ evs ++ release_cmds w r), news.
      rewrite E1, E2, HNTable.update_content, Hr, Ht, <- !app_assoc.
      split; [reflexivity |]. split; [reflexivity |].
      split; [exists (store st1); split; [exact Hr | right; exists r; tauto] |].
      repeat split; trivial.
    + rewrite (HNPublish.run_testRetrieval_none w st1 Hsel).
      intros H. injection H as _ <-. cbn [store trace].
      destruct (Hquiet [SelectTop] eq_refl eq_refl) as [E1 [E2 E3]];
        [repeat constructor |].
      exists ([CreateTable; GetTopStories] ++ evs ++ [SelectTop]), news.
      rewrite E1, E2, Hr, Ht, <- !app_assoc.
      split; [reflexivity |]. split; [reflexivity |].
      split; [exists (store st1); split; [exact Hr | left; reflexivity] |].
      repeat split; trivial.
  - intros H. injection H as _ <-.
    destruct (Hquiet [] eq_refl eq_refl) as [E1 [E2 E3]]; [constructor |].
    rewrite app_nil_r in E1, E2, E3.
    exists ([CreateTable; GetTopStories] ++ evs), news.
    rewrite E1, E2, Hr, Ht, <- !app_assoc.
    split; [reflexivity |]. split; [reflexivity |].
    split; [exists (store st1); split; [exact Hr | left; reflexivity] |].
    repeat split; trivial.
Qed.

(** A story once stored is found by every later lookup. *)
Lemma exec_has_story (sid : Z) (w : World) (c : Cmd) (t : Table) :
  has_story sid t = true -> has_story sid (snd (exec w c t)) = true.
Proof.
  intros H. apply HNTable.has_story_In in H. apply HNTable.has_story_In.
  unfold story_ids in *. apply in_map_iff in H. destruct H as [r [Hsid Hin]].
  destruct (GrowthFacts.grown_In _ _ _ _ _ (HNKept.exec_grown w c t) Hin) as [r' [Hin' [Hc _]]].
  apply in_map_iff. exists r'. split; [| exact Hin'].
  unfold content in Hc. injection Hc as _ -> _ _ _. exact Hsid.
Qed.

(** What a tick stores is waiting to be released, behind what was waiting. *)
Lemma pending_news (w : World) (t t' : Table) (news : list Row.t) :
  rows t' = rows t ++ news -> Forall (from_story w) news ->
  pending t' = pending t ++ news.
Proof.
  intros Hr Hnews. unfold pending. rewrite Hr, filter_app. f_equal. clear Hr.
  induction Hnews as [| r news [s [kids Hfrom]] _ IH]; [reflexivity |].
  cbn [filter]. unfold unretrieved at 1.
  replace (Row.retrieved r) with 0 by (symmetry; tauto).
  cbn. rewrite IH. reflexivity.
Qed.

Lemma interleave_has_story (sid : Z) (w : World) (sch : list nat) (pool : list (Prog unit))
      (st : Sys) :
  has_story sid (store st) = true ->
  has_story sid (store (snd (interleave w sch pool st))) = true.
Proof.
  apply (AsyncLaws.interleave_keeps Cmd Resp World Table exec
           (fun t => has_story sid t = true) (exec_has_story sid)).
Qed.

End HNTickEffect.

(** ** What a tick of the Reddit bot stores *)

Module RedditTickEffect.
Import Reddit.

Lemma Forall2_In {A B : Type} (R : A -> B -> Prop) (l : list A) (l' : list B) (a : A) :
  Forall2 R l l' -> In a l -> exists b, In b l' /\ R a b.
Proof.
  intros H. induction H as [| x y l l' Hxy _ IH]; intros Hin; [destruct Hin |].
  destruct Hin as [<- | Hin].
  - exists y. split; [left; reflexivity | exact Hxy].
  - destruct (IH Hin) as [b [Hb HR]]. exists b. split; [right; exact Hb | exact HR].
Qed.

(** With unique keys, a row of the front part and a row of the back part
    have different keys. *)
Lemma NoDup_app_keys {A K : Type} (key : A -> K) (l1 l2 : list A) (x y : A) :
  NoDup (map key (l1 ++ l2)) -> In x l1 -> In y l2 -> key x <> key y.
Proof.
  induction l1 as [| a l1 IH]; intros Hn Hx Hy; [destruct Hx |].
  cbn [app map] in Hn. inversion Hn as [| k l Hnot Hn']; subst.
  destruct Hx as [-> | Hx]; [| apply IH; assumption].
  intros Hk. apply Hnot. rewrite Hk. apply in_map. apply in_or_app. right. exact Hy.
Qed.

Lemma content_id (r r' : Row.t) : content_of r = content_of r' -> Row.id r = Row.id r'.
Proof. unfold content_of. intros H. injection H as _ -> _ _ _. reflexivity. Qed.

(** In a table that grew out of [t0] and kept its ids unique, a row of the
    new part has an id that [t0] did not have. *)
Lemma news_are_new (t0 olds news : Table) (r : Row.t) :
  Forall2 aged t0 olds -> NoDup (post_ids (olds ++ news)) -> In r news ->
  ~ In (Row.id r) (post_ids t0).
Proof.
  intros Haged Hn Hr Hin. unfold post_ids in Hin. apply in_map_iff in Hin.
  destruct Hin as [r0 [Hid Hr0]].
  destruct (Forall2_In _ _ _ _ Haged Hr0) as [r0' [Hr0' [Hc _]]].
  apply (NoDup_app_keys Row.id olds news r0' r Hn Hr0' Hr).
  rewrite (content_id _ _ Hc). exact Hid.
Qed.

End RedditTickEffect.

(** ** The tick after a tick *)

Module HNSecondTick.
Import HN.

Lemma run_has_story {A : Type} (sid : Z) (w : World) (p : Prog A) (st : Sys) :
  has_story sid (store st) = true -> has_story sid (store (snd (run w p st))) = true.
Proof.
  apply (AsyncLaws.run_keeps Cmd Resp World Table exec
           (fun t => has_story sid t = true) (HNTickEffect.exec_has_story sid)).
Qed.

Lemma run_seen {A : Type} (i : Z) (w w' : World) (p : Prog A) (st : Sys) :
  seen w (store st) i -> seen w (store (snd (run w' p st))) i.
Proof.
  intros [H | H]; [left; apply run_has_story; exact H | right; exact H].
Qed.

(** Once the loop has gone through [ids], each of them is stored or turned
    away by the guard. *)
Lemma ingest_seen (w : World) (ids : list Z) (st st' : Sys) :
  run w (ingest ids) st = (Fulfilled tt, st') ->
  forall i, In i ids -> seen w (store st') i.
Proof.
  revert st. induction ids as [| j ids IH]; intros st Hrun i Hin; [destruct Hin |].
  unfold ingest in Hrun. cbn [forOf] in Hrun. rewrite HNIngest.hn_run_bind in Hrun.
  destruct (run w (processStory j) st) as [o1 st1] eqn:H1.
  destruct o1 as [[] | e]; [| discriminate Hrun].
  destruct Hin as [<- | Hin]; [| exact (IH st1 Hrun i Hin)].
  assert (Hj : seen w (store st1) j).
  { destruct (HNEffect.processStory_effect _ _ _ _ _ H1) as [evs [_ [_ Hcase]]].
    destruct Hcase as [[Hs [_ [_ Hseen]]] | [_ [_ [_ [_ [r [Hs [Hsid _]]]]]]]].
    - rewrite Hs. apply Hseen. reflexivity.
    - left. rewrite Hs. unfold has_story. cbn [rows]. rewrite existsb_app. cbn.
      rewrite Hsid, Z.eqb_refl. apply orb_true_r. }
  pose proof (run_seen j w w (forOf ids processStory) st1 Hj) as H.
  fold (ingest ids) in Hrun. unfold ingest in H. unfold ingest in Hrun.
  rewrite Hrun in H. exact H.
Qed.

(** On ids it has nothing more to do for, the loop only reads. *)
Lemma ingest_seen_reads (w : World) (ids : list Z) (st : Sys) :
  (forall i, In i ids -> seen w (store st) i) ->
  exists evs,
    run w (ingest ids) st = (Fulfilled tt, mkSys (store st) (trace st ++ evs)) /\
    forallb is_read evs = true.
Proof.
  revert st. induction ids as [| j ids IH]; intros st Hseen.
  - exists []. rewrite app_nil_r. split; [destruct st; reflexivity | reflexivity].
  - assert (Hj : exists l, run w (processStory j) st =
                           (Fulfilled tt, mkSys (store st) (trace st ++ l)) /\
                           forallb is_read l = true).
    { destruct (has_story j (store st)) eqn:Hhas.
      - exists [SelectStory j]. split; [| reflexivity].
        apply HNIngest.run_processStory_known. exact Hhas.
      - destruct (Hseen j (or_introl eq_refl)) as [H | [o [Hitem Hskip]]]; [congruence |].
        exists [SelectStory j; GetItem j]. split; [| reflexivity].
        exact (HNIngest.run_processStory_skipped w j st o Hhas Hitem Hskip). }
    destruct Hj as [l [Hrun Hl]].
    destruct (IH (mkSys (store st) (trace st ++ l))) as [evs [Hrest Hevs]].
    { intros i Hi. apply Hseen. right. exact Hi. }
    exists (l ++ evs). unfold ingest. cbn [forOf].
    rewrite HNIngest.hn_run_bind, Hrun. unfold ingest in Hrest. rewrite Hrest.
    cbn [store trace]. rewrite <- app_assoc. split; [reflexivity |].
    rewrite forallb_app, Hl, Hevs. reflexivity.
Qed.

End HNSecondTick.

(** ** Laws of cost *)

Module CostLaws.
Import Cost.

Section Laws.

Variable Cmd : Type.
Variable Resp : Cmd -> Type.
Variable cost : Cmd -> nat.
Variable World : Type.
Variable Store : Type.
Variable exec : World -> forall c : Cmd, Store -> (Err + Resp c) * Store.

Local Abbreviation Prog := (Async.Prog Cmd Resp).
Local Abbreviation Sys := (Async.Sys Cmd Store).
Local Abbreviation perform := (Async.perform Cmd Resp World Store exec).
Local Abbreviation run := (Async.run Cmd Resp World Store exec).
Local Abbreviation crashAfter := (Async.crashAfter Cmd Resp World Store exec).
Local Abbreviation resume := (Async.resume Cmd Resp World Store exec).
Local Abbreviation interleave := (Async.interleave Cmd Resp World Store exec).

Lemma within_mono {A : Type} (n m : nat) (p : Prog A) :
  Within cost n p -> (n <= m)%nat -> Within cost m p.
Proof.
  intros H Hle. destruct H as [n a | n e | n k c f Hc Hf]; [constructor | constructor |].
  apply (WithinDo _ _ cost m k); [lia | exact Hf].
Qed.

Lemma within_call (c : Cmd) : Within cost (cost c) (call c : Prog (Resp c)).
Proof.
  apply (WithinDo _ _ cost (cost c) 0); [lia |].
  intros [e | x]; constructor.
Qed.

Lemma within_bind {A B : Type} (a b : nat) (p : Prog A) (f : A -> Prog B) :
  Within cost a p -> (forall x, Within cost b (f x)) -> Within cost (a + b) (bind p f).
Proof.
  intros H Hf. induction H as [n x | n e | n m c k Hc Hk IH]; cbn [bind].
  - apply (within_mono b); [apply Hf | lia].
  - constructor.
  - apply (WithinDo _ _ cost (n + b) (m + b)); [lia | exact IH].
Qed.

Lemma within_tryCatch {A : Type} (a b : nat) (p : Prog A) (h : Err -> Prog A) :
  Within cost a p -> (forall e, Within cost b (h e)) -> Within cost (a + b) (tryCatch p h).
Proof.
  intros H Hh. induction H as [n x | n e | n m c k Hc Hk IH]; cbn [tryCatch].
  - constructor.
  - apply (within_mono b); [apply Hh | lia].
  - apply (WithinDo _ _ cost (n + b) (m + b)); [lia | exact IH].
Qed.

Lemma within_forOf {X : Type} (b : nat) (xs : list X) (body : X -> Prog unit) :
  (forall x, Within cost b (body x)) -> Within cost (List.length xs * b) (forOf xs body).
Proof.
  intros Hb. induction xs as [| x xs IH]; cbn [forOf List.length Nat.mul]; [constructor |].
  apply within_bind; [apply Hb | intros _; exact IH].
Qed.

Lemma spent_app (l l' : list Cmd) :
  spent cost (l ++ l') = (spent cost l + spent cost l')%nat.
Proof. unfold spent. rewrite map_app, list_sum_app. reflexivity. Qed.

Lemma spent_one (c : Cmd) : spent cost [c] = cost c.
Proof. unfold spent. cbn. lia. Qed.

Lemma spent_nil : spent cost [] = 0%nat.
Proof. reflexivity. Qed.

(** A trace is only ever extended. *)
Lemma run_trace {A : Type} (w : World) (p : Prog A) (st : Sys) :
  exists evs, trace (snd (run w p st)) = trace st ++ evs.
Proof.
  revert st. induction p as [a | e | c k IH]; intros st; cbn [Async.run].
  - exists []. symmetry. apply app_nil_r.
  - exists []. symmetry. apply app_nil_r.
  - pose proof (AsyncLaws.perform_trace Cmd Resp World Store exec w c st) as Ht.
    destruct (perform w c st) as [r st']. cbn [snd] in Ht.
    destruct (IH r st') as [evs Hevs]. exists ([c] ++ evs).
    rewrite Hevs, Ht, app_assoc. reflexivity.
Qed.

Lemma resume_trace {A : Type} (w : World) (p : Prog A) (st : Sys) :
  exists evs, trace (snd (resume w p st)) = trace st ++ evs.
Proof.
  destruct p as [a | e | c k]; cbn [Async.resume snd].
  - exists []. symmetry. apply app_nil_r.
  - exists []. symmetry. apply app_nil_r.
  - pose proof (AsyncLaws.perform_trace Cmd Resp World Store exec w c st) as Ht.
    destruct (perform w c st) as [r st']. exists [c]. exact Ht.
Qed.

Lemma interleave_trace (w : World) (sch : list nat) (pool : list (Prog unit)) (st : Sys) :
  exists evs, trace (snd (interleave w sch pool st)) = trace st ++ evs.
Proof.
  revert pool st. induction sch as [| i sch IH]; intros pool st; cbn [Async.interleave].
  - exists []. symmetry. apply app_nil_r.
  - destruct (nth_error pool i) as [p |]; [| apply IH].
    destruct (resume_trace w p st) as [evs1 H1].
    destruct (resume w p st) as [p' st']. cbn [snd] in H1.
    destruct (rejected p'); [exists evs1; exact H1 |].
    destruct (IH (set_nth i p' pool) st') as [evs2 H2].
    exists (evs1 ++ evs2). rewrite H2, H1, app_assoc. reflexivity.
Qed.

(** A program run to its end stays within its bound. *)
Lemma run_within {A : Type} (n : nat) (w : World) (p : Prog A) (st : Sys) :
  Within cost n p ->
  exists evs, trace (snd (run w p st)) = trace st ++ evs /\ (spent cost evs <= n)%nat.
Proof.
  intros H. revert st. induction H as [n a | n e | n m c k Hc Hk IH]; intros st;
    cbn [Async.run].
  - exists []. split; [symmetry; apply app_nil_r | rewrite spent_nil; lia].
  - exists []. split; [symmetry; apply app_nil_r | rewrite spent_nil; lia].
  - pose proof (AsyncLaws.perform_trace Cmd Resp World Store exec w c st) as Ht.
    destruct (perform w c st) as [r st']. cbn [snd] in Ht.
    destruct (IH r st') as [evs [Hevs Hle]]. exists ([c] ++ evs).
    split; [rewrite Hevs, Ht, app_assoc; reflexivity |].
    rewrite spent_app, spent_one. lia.
Qed.

(** One turn spends part of the bound and leaves the rest. *)
Lemma resume_within {A : Type} (n : nat) (w : World) (p : Prog A) (st : Sys) :
  Within cost n p ->
  exists m evs,
    Within cost m (fst (resume w p st)) /\
    trace (snd (resume w p st)) = trace st ++ evs /\
    (spent cost evs + m <= n)%nat.
Proof.
  intros H. destruct H as [n a | n e | n m c k Hc Hk]; cbn [Async.resume fst snd].
  - exists n, []. split; [constructor |]. split; [symmetry; apply app_nil_r | rewrite spent_nil; lia].
  - exists n, []. split; [constructor |]. split; [symmetry; apply app_nil_r | rewrite spent_nil; lia].
  - pose proof (AsyncLaws.perform_trace Cmd Resp World Store exec w c st) as Ht.
    destruct (perform w c st) as [r st']. cbn [fst snd] in *.
    exists m, [c]. split; [apply Hk |]. split; [exact Ht | rewrite spent_one; lia].
Qed.

Lemma Forall2_set_both {A B : Type} (R : A -> B -> Prop) (l1 : list A) (l2 : list B)
      (i : nat) (x : A) (y : B) :
  Forall2 R l1 l2 -> R x y -> Forall2 R (set_nth i x l1) (set_nth i y l2).
Proof.
  intros H Hxy. revert i. induction H as [| a b l1 l2 Hab H IH]; intros i.
  - destruct i; constructor.
  - destruct i as [| i]; cbn [set_nth]; constructor; auto.
Qed.

Lemma list_sum_set (l : list nat) (i : nat) (old new : nat) :
  nth_error l i = Some old ->
  (list_sum (set_nth i new l) + old = list_sum l + new)%nat.
Proof.
  revert i. induction l as [| a l IH]; intros i Hi; [destruct i; discriminate Hi |].
  destruct i as [| i]; cbn [set_nth nth_error] in *.
  - injection Hi as ->. unfold list_sum. cbn [fold_right]. lia.
  - specialize (IH i Hi). unfold list_sum in *. cbn [fold_right]. lia.
Qed.

(** Tasks that take turns under any schedule stay within the sum of their
    bounds. *)
Lemma interleave_within (w : World) (sch : list nat) (bounds : list nat)
      (pool : list (Prog unit)) (st : Sys) :
  Forall2 (fun n p => Within cost n p) bounds pool ->
  exists evs,
    trace (snd (interleave w sch pool st)) = trace st ++ evs /\
    (spent cost evs <= list_sum bounds)%nat.
Proof.
  revert bounds pool st. induction sch as [| i sch IH]; intros bounds pool st Hall;
    cbn [Async.interleave].
  - exists []. split; [symmetry; apply app_nil_r | rewrite spent_nil; lia].
  - destruct (nth_error pool i) as [p |] eqn:Hnth; [| apply IH; exact Hall].
    destruct (RedditIngest.Forall2_nth _ _ _ _ _ Hall Hnth) as [n [Hn Hp]].
    destruct (resume_within n w p st Hp) as [m [evs1 [Hm [Ht1 Hle1]]]].
    destruct (resume w p st) as [p' st']. cbn [fst snd] in *.
    pose proof (list_sum_set bounds i n m Hn) as Hsum.
    destruct (rejected p'); [exists evs1; split; [exact Ht1 | lia] |].
    destruct (IH (set_nth i m bounds) (set_nth i p' pool) st') as [evs2 [Ht2 Hle2]].
    { apply Forall2_set_both; assumption. }
    exists (evs1 ++ evs2). split; [rewrite Ht2, Ht1, app_assoc; reflexivity |].
    rewrite spent_app. lia.
Qed.

End Laws.

Lemma list_sum_repeat (n k : nat) : list_sum (repeat n k) = (k * n)%nat.
Proof.
  induction k as [| k IH]; [reflexivity |].
  cbn [repeat]. unfold list_sum in *. cbn [fold_right]. rewrite IH. reflexivity.
Qed.

Lemma Forall2_repeat {A B : Type} (R : A -> B -> Prop) (a : A) (b : B) (k : nat) :
  R a b -> Forall2 R (repeat a k) (repeat b k).
Proof. intros H. induction k; cbn; constructor; assumption. Qed.

End CostLaws.

(** ** What a tick can cost *)

Module HNCost.
Import HN Cost.

Section Tariff.

Variable tf : Tariff.

Lemma within_fetchComments (kids : list Z) (acc : list string) :
  Within (price tf) (List.length kids * t_item tf) (fetchComments kids acc).
Proof.
  revert acc. induction kids as [| k kids IH]; intros acc;
    cbn [fetchComments List.length Nat.mul]; [constructor |].
  apply CostLaws.within_bind; [apply (CostLaws.within_call Cmd Resp (price tf) (GetItem k)) |].
  intros [d |]; [| apply IH].
  destruct (Item.text d) as [s |]; [destruct (truthy s) |]; apply IH.
Qed.

Lemma within_enrichAndSave (sid : Z) (s : Item.t) (kids : list Z) (u : string) :
  Within (price tf) (25 * t_item tf + (t_chat tf + t_insert tf))
         (enrichAndSave sid s kids u).
Proof.
  unfold enrichAndSave. apply CostLaws.within_bind.
  - apply (CostLaws.within_mono _ _ _ (List.length (firstn 25 kids) * t_item tf));
      [apply within_fetchComments |].
    pose proof (firstn_le_length 25 kids). nia.
  - intros comments. apply CostLaws.within_bind.
    + apply (CostLaws.within_call Cmd Resp (price tf)
               (ChatCompletion comments_system (comments_user (join LF comments)))).
    + intros summary.
      apply (CostLaws.within_call Cmd Resp (price tf)
               (InsertStory sid (Item.title s) u summary)).
Qed.

Lemma within_processStory (sid : Z) : Within (price tf) (story_price tf) (processStory sid).
Proof.
  unfold processStory, isStoryProcessed, story_price. apply CostLaws.within_bind.
  - apply (CostLaws.within_mono _ _ _ (t_lookup tf + 0)); [| lia].
    apply CostLaws.within_bind;
      [apply (CostLaws.within_call Cmd Resp (price tf) (SelectStory sid)) |].
    intros row. constructor.
  - intros [|]; [constructor |]. apply CostLaws.within_bind;
      [apply (CostLaws.within_call Cmd Resp (price tf) (GetItem sid)) |].
    intros [s |]; [| constructor].
    destruct (Item.kids s) as [kids |]; [| constructor].
    destruct (Item.url s) as [u |]; [| constructor].
    destruct (truthy u); [apply within_enrichAndSave | constructor].
Qed.

Lemma within_ingest (ids : list Z) :
  Within (price tf) (List.length ids * story_price tf) (ingest ids).
Proof. apply CostLaws.within_forOf. exact within_processStory. Qed.

Lemma within_getTopNewsItem :
  Within (price tf) (t_select tf + t_update tf) getTopNewsItem.
Proof.
  unfold getTopNewsItem. apply CostLaws.within_bind;
    [apply (CostLaws.within_call Cmd Resp (price tf) SelectTop) |].
  intros [r |]; [| constructor].
  apply (CostLaws.within_mono _ _ _ (t_update tf + 0)); [| lia].
  apply CostLaws.within_bind;
    [apply (CostLaws.within_call Cmd Resp (price tf) (UpdateRetrieved (Row.id r))) |].
  intros _. constructor.
Qed.

Lemma within_testRetrieval : Within (price tf) (release_price tf) testRetrieval.
Proof.
  unfold testRetrieval, release_price. apply CostLaws.within_bind;
    [exact within_getTopNewsItem |].
  intros [it |]; [| constructor].
  apply CostLaws.within_bind;
    [apply (CostLaws.within_call Cmd Resp (price tf) AgentLogin) |].
  intros _. apply CostLaws.within_bind;
    [apply (CostLaws.within_call Cmd Resp (price tf) (DetectFacets (msg it))) |].
  intros _. apply (CostLaws.within_call Cmd Resp (price tf) (AgentPost (msg it))).
Qed.

Lemma within_hn_main : Within (price tf) (tick_price tf) main.
Proof.
  unfold main, initializeDatabase, fetchTopStories, tick_price. cbn [bind call].
  apply (WithinDo _ _ (price tf) _ (t_listing tf + (15 * story_price tf + release_price tf)));
    [cbn [price]; lia |].
  intros _.
  apply (WithinDo _ _ (price tf) _ (15 * story_price tf + release_price tf));
    [cbn [price]; lia |].
  intros [e | data]; cbn [bind]; [constructor |].
  apply CostLaws.within_bind; [| intros _; exact within_testRetrieval].
  apply (CostLaws.within_mono _ _ _ (List.length (firstn 15 data) * story_price tf));
    [apply within_ingest |].
  pose proof (firstn_le_length 15 data). nia.
Qed.

End Tariff.

End HNCost.

Module RedditCost.
Import Reddit Cost.

Section Tariff.

Variable tf : Tariff.

Lemma within_processPost (p : Post.t) :
  Within (price tf) (callback_price tf) (processPost p).
Proof.
  unfold processPost, callback_price.
  apply (WithinDo _ _ (price tf) _ (t_chat tf + (t_chat tf + t_insert tf)));
    [cbn [price]; lia |].
  intros [e | [x |]]; [constructor | constructor |].
  apply CostLaws.within_bind;
    [apply (CostLaws.within_call Cmd Resp (price tf)
              (ChatCompletion title_system (title_user (Post.title p)))) |].
  intros title. apply CostLaws.within_bind;
    [apply (CostLaws.within_call Cmd Resp (price tf)
              (ChatCompletion discussion_system
                 (discussion_user (js_or (Post.selftext p) (Post.title p))))) |].
  intros summary.
  apply (WithinDo _ _ (price tf) _ 0%nat); [cbn [price]; lia | intros r; constructor].
Qed.

Lemma within_postToBluesky (text : string) :
  Within (price tf) (t_login tf + (t_facets tf + t_post tf)) (postToBluesky text).
Proof.
  unfold postToBluesky.
  apply (CostLaws.within_mono _ _ _ (t_login tf + (t_facets tf + t_post tf) + 0)); [| lia].
  apply CostLaws.within_tryCatch; [| intros e; constructor].
  apply CostLaws.within_bind;
    [apply (CostLaws.within_call Cmd Resp (price tf) AgentLogin) |].
  intros _. apply CostLaws.within_bind;
    [apply (CostLaws.within_call Cmd Resp (price tf) (DetectFacets text)) |].
  intros _. apply (CostLaws.within_call Cmd Resp (price tf) (AgentPost text)).
Qed.

Lemma within_retrieveAndPost : Within (price tf) (release_price tf) retrieveAndPost.
Proof.
  unfold retrieveAndPost, release_price.
  apply (WithinDo _ _ (price tf) _ ((t_login tf + (t_facets tf + t_post tf)) + t_update tf));
    [cbn [price]; lia |].
  intros [e | [row |]]; [constructor | | constructor].
  apply CostLaws.within_bind; [apply within_postToBluesky |].
  intros _.
  apply (WithinDo _ _ (price tf) _ 0%nat); [cbn [price]; lia | intros r; constructor].
Qed.

Lemma within_rd_main : Within (price tf) (t_token tf + t_listing tf) main.
Proof.
  unfold main, processPosts, fetchRecentPosts. cbn [bind call].
  apply (WithinDo _ _ (price tf) _ (t_listing tf)); [cbn [price]; lia |].
  intros [e | token]; cbn [bind]; [constructor |].
  apply (WithinDo _ _ (price tf) _ 0%nat); [cbn [price]; lia |].
  intros [e | children]; cbn [bind]; constructor.
Qed.

(** The pool [main] leaves behind, task by task. *)
Lemma within_pool (posts : list Post.t) :
  Forall2 (fun n p => Within (price tf) n p)
          (repeat (callback_price tf) (List.length posts) ++ [release_price tf])
          (pool_of posts).
Proof.
  unfold pool_of. apply Forall2_app.
  - induction posts as [| p posts IH]; cbn [map repeat List.length]; constructor;
      [apply within_processPost | exact IH].
  - constructor; [exact within_retrieveAndPost | constructor].
Qed.

Lemma pool_bound (posts : list Post.t) :
  list_sum (repeat (callback_price tf) (List.length posts) ++ [release_price tf]) =
  (List.length posts * callback_price tf + release_price tf)%nat.
Proof.
  rewrite list_sum_app, CostLaws.list_sum_repeat. unfold list_sum. cbn [fold_right]. lia.
Qed.

End Tariff.

End RedditCost.

(** ** A tick of the Reddit bot pays for new posts only *)

Module RedditNew.
Import Reddit Cost.

Section Tariff.

Variable tf : Tariff.

Lemma has_post_mono (i : string) (t t' : Table) :
  incl (post_ids t) (post_ids t') -> has_post i t = true -> has_post i t' = true.
Proof.
  intros Hincl H. apply RedditTable.has_post_In. apply Hincl.
  apply RedditTable.has_post_In. exact H.
Qed.

Lemma WithinAt_mono (t t' : Table) (n : nat) (task : Prog unit) :
  incl (post_ids t) (post_ids t') -> WithinAt tf t n task -> WithinAt tf t' n task.
Proof.
  intros Hincl [H | [p [Hp [Hhas Hle]]]]; [left; exact H |].
  right. exists p. split; [exact Hp |]. split; [| exact Hle].
  exact (has_post_mono _ _ _ Hincl Hhas).
Qed.

Lemma resume_grows (w : World) (task : Prog unit) (st : Sys) :
  incl (post_ids (store st))
       (post_ids (store (snd (Async.resume Cmd Resp World Table exec w task st)))).
Proof.
  apply (AsyncLaws.resume_keeps Cmd Resp World Table exec
           (fun t => incl (post_ids (store st)) (post_ids t))).
  - intros w' c s H. eapply incl_tran; [exact H | apply RedditIngest.exec_grows].
  - apply incl_refl.
Qed.

(** One turn spends part of the bound and leaves the rest. *)
Lemma resume_within_at (n : nat) (w : World) (task : Prog unit) (st : Sys) :
  WithinAt tf (store st) n task ->
  exists m evs,
    WithinAt tf (store (snd (Async.resume Cmd Resp World Table exec w task st))) m
             (fst (Async.resume Cmd Resp World Table exec w task st)) /\
    trace (snd (Async.resume Cmd Resp World Table exec w task st)) = trace st ++ evs /\
    (spent (price tf) evs + m <= n)%nat.
Proof.
  intros [H | [p [-> [Hhas Hle]]]].
  - destruct (CostLaws.resume_within Cmd Resp (price tf) World Table exec n w task st H)
      as [m [evs [Hm [Ht Hs]]]].
    exists m, evs. split; [left; exact Hm |]. split; assumption.
  - rewrite RedditIngest.resume_processPost, Hhas. cbn [fst snd store trace].
    exists 0%nat, [SelectPost (Post.id p)]. split; [left; constructor |].
    split; [reflexivity |]. rewrite CostLaws.spent_one. cbn [price]. lia.
Qed.

(** Under any schedule the pool stays within the sum of the bounds its
    tasks have on the table the schedule starts from. *)
Lemma interleave_within_at (w : World) (sch : list nat) (bounds : list nat)
      (pool : list (Prog unit)) (st : Sys) :
  Forall2 (WithinAt tf (store st)) bounds pool ->
  exists evs,
    trace (snd (interleave w sch pool st)) = trace st ++ evs /\
    (spent (price tf) evs <= list_sum bounds)%nat.
Proof.
  revert bounds pool st. induction sch as [| i sch IH]; intros bounds pool st Hall.
  - exists []. split; [symmetry; apply app_nil_r | cbn; lia].
  - rewrite RedditIngest.interleave_cons.
    destruct (nth_error pool i) as [p |] eqn:Hnth; [| apply IH; exact Hall].
    destruct (RedditIngest.Forall2_nth _ _ _ _ _ Hall Hnth) as [n [Hn Hp]].
    destruct (resume_within_at n w p st Hp) as [m [evs1 [Hm [Ht1 Hle1]]]].
    pose proof (resume_grows w p st) as Hgrow.
    destruct (Async.resume Cmd Resp World Table exec w p st) as [p' st'].
    cbn [fst snd] in *.
    pose proof (CostLaws.list_sum_set bounds i n m Hn) as Hsum.
    destruct (rejected p'); [exists evs1; split; [exact Ht1 | lia] |].
    destruct (IH (set_nth i m bounds) (set_nth i p' pool) st') as [evs2 [Ht2 Hle2]].
    { apply CostLaws.Forall2_set_both; [| exact Hm].
      eapply Forall2_impl; [| exact Hall].
      intros a b. apply WithinAt_mono. exact Hgrow. }
    exists (evs1 ++ evs2). split; [rewrite Ht2, Ht1, app_assoc; reflexivity |].
    rewrite CostLaws.spent_app. lia.
Qed.

(** The pool [main] leaves behind, task by task, on the table [t]. *)
Lemma pool_at (t : Table) (posts : list Post.t) :
  Forall2 (WithinAt tf t) (map (post_price tf t) posts ++ [release_price tf])
          (pool_of posts).
Proof.
  unfold pool_of. apply Forall2_app.
  - induction posts as [| p posts IH]; cbn [map]; constructor; [| exact IH].
    unfold post_price. destruct (has_post (Post.id p) t) eqn:Hhas.
    + right. exists p. split; [reflexivity |]. split; [exact Hhas | lia].
    + left. apply RedditCost.within_processPost.
  - constructor; [left; exact (RedditCost.within_retrieveAndPost tf) | constructor].
Qed.

Lemma pool_at_bound (t : Table) (posts : list Post.t) :
  list_sum (map (post_price tf t) posts ++ [release_price tf]) =
  (list_sum (map (post_price tf t) posts) + release_price tf)%nat.
Proof. rewrite list_sum_app. unfold list_sum at 2. cbn [fold_right]. lia. Qed.

End Tariff.

(** When every post is in the table, chat requests and INSERTs are free of
    charge. *)
Lemma known_posts_price (tf : Tariff) (t : Table) (posts : list Post.t) :
  (forall p, In p posts -> has_post (Post.id p) t = true) ->
  list_sum (map (post_price tf t) posts) = (List.length posts * t_lookup tf)%nat.
Proof.
  intros H. induction posts as [| p posts IH]; [reflexivity |].
  cbn [map List.length Nat.mul]. unfold list_sum in *. cbn [fold_right].
  rewrite IH by (intros q Hq; apply H; right; exact Hq).
  unfold post_price. rewrite (H p (or_introl eq_refl)). reflexivity.
Qed.

End RedditNew.

(** * The specification, property by property *)

(** C1.  Release is first in, first out.  In either bot and for every table,
    the release step picks an unposted row of least row id (and reports
    absence exactly when no row is unposted); on a table that grew by
    inserts, successive releases hand out the waiting rows in the order they
    were stored, whatever their external ids, and the release after the last
    finds nothing; in particular rows stored in the order A, B, C on a table
    with nothing waiting come out as A, B, C and then absence.  The commands
    of a Reddit release that found a row are the SELECT, what
    [postToBluesky] gets to do for the message of that row (the login, the
    facet detection when the login worked, the post when the detection did
    not throw) and the UPDATE.  Every table the scripts reach from an empty
    one, however their tasks interleave, has grown by inserts in this
    sense. *)
Theorem release_is_fifo :
  (forall (w : HN.World) (st : HN.Sys),
     exists o,
       fst (HN.run w HN.getTopNewsItem st) = Fulfilled o /\
       match o with
       | Some r =>
           In r (HN.rows (store st)) /\ HN.Row.retrieved r = 0 /\
           forall r', In r' (HN.rows (store st)) -> HN.Row.retrieved r' = 0 ->
                      HN.Row.id r <= HN.Row.id r'
       | None => forall r', In r' (HN.rows (store st)) -> HN.Row.retrieved r' <> 0
       end) /\
  (forall (w : HN.World) (st : HN.Sys),
     HN.wf (store st) ->
     fst (HN.releases w (S (List.length (HN.pending (store st)))) st) =
     map (fun r => Fulfilled (Some r)) (HN.pending (store st)) ++ [Fulfilled None]) /\
  (forall (w : HN.World) (tr : list HN.Cmd) (t0 t1 t2 t3 : HN.Table)
          (a b c : Z) (ta ua sa tb ub sb tc uc sc : string),
     HN.wf t0 -> HN.pending t0 = [] ->
     HN.insert a ta ua sa t0 = inr t1 ->
     HN.insert b tb ub sb t1 = inr t2 ->
     HN.insert c tc uc sc t2 = inr t3 ->
     exists ia ib ic,
       fst (HN.releases w 4 (mkSys t3 tr)) =
       [Fulfilled (Some (HN.Row.mk ia a ta ua sa 0));
        Fulfilled (Some (HN.Row.mk ib b tb ub sb 0));
        Fulfilled (Some (HN.Row.mk ic c tc uc sc 0));
        Fulfilled None]) /\
  (forall (w : Reddit.World) (st : Reddit.Sys),
     (exists r,
        In r (store st) /\ Reddit.Row.retrieved r = 0 /\
        (forall r', In r' (store st) -> Reddit.Row.retrieved r' = 0 ->
                    Reddit.Row.rowid r <= Reddit.Row.rowid r') /\
        trace (snd (Reddit.run w Reddit.retrieveAndPost st)) =
        trace st ++ Reddit.release_trace w r) \/
     ((forall r', In r' (store st) -> Reddit.Row.retrieved r' <> 0) /\
      trace (snd (Reddit.run w Reddit.retrieveAndPost st)) =
      trace st ++ [Reddit.SelectOldest])) /\
  (forall (w : Reddit.World) (st : Reddit.Sys),
     Reddit.wf (store st) ->
     trace (Reddit.retrievals w (S (List.length (Reddit.pending (store st)))) st) =
     trace st ++ flat_map (Reddit.release_trace w) (Reddit.pending (store st))
           ++ [Reddit.SelectOldest]) /\
  (forall (w : Reddit.World) (tr : list Reddit.Cmd) (t0 t1 t2 t3 : Reddit.Table)
          (a ta ua sa b tb ub sb c tc uc sc : string),
     Reddit.wf t0 -> Reddit.pending t0 = [] ->
     Reddit.insert a ta ua sa t0 = inr t1 ->
     Reddit.insert b tb ub sb t1 = inr t2 ->
     Reddit.insert c tc uc sc t2 = inr t3 ->
     exists na nb nc,
       trace (Reddit.retrievals w 4 (mkSys t3 tr)) =
       tr ++ Reddit.release_trace w (Reddit.Row.mk na a ta ua sa 0)
          ++ Reddit.release_trace w (Reddit.Row.mk nb b tb ub sb 0)
          ++ Reddit.release_trace w (Reddit.Row.mk nc c tc uc sc 0)
          ++ [Reddit.SelectOldest]) /\
  (forall (w : HN.World) (sch : list nat) (pool : list (HN.Prog unit)),
     HN.wf (store (snd (HN.interleave w sch pool (mkSys HN.empty []))))) /\
  (forall (w : Reddit.World) (sch : list nat) (pool : list (Reddit.Prog unit)),
     Reddit.wf (store (snd (Reddit.interleave w sch pool (mkSys Reddit.empty []))))).
Proof.
  split; [exact Fifo.hn_release_least |].
  split; [exact HNRelease.releases_drain |].
  split; [exact Fifo.hn_three_in_order |].
  split; [exact Fifo.rd_release_least |].
  split; [intros w st Hwf; rewrite (RedditRelease.retrievals_drain w st Hwf); reflexivity |].
  split; [exact Fifo.rd_three_in_order |].
  split.
  - intros w sch pool. apply Tick.hn_interleave_wf. exact HNTable.wf_empty.
  - intros w sch pool. apply Tick.interleave_wf. exact RedditTable.rd_wf_empty.
Qed.

(** The stories 300, 100, 200 and the posts c, a, b come out in the order
    they went in. *)
Lemma release_is_fifo_witness :
  (exists ia ib ic,
     fst (HN.releases Examples.hn_world 4 (Examples.hn_start Examples.hn_t3)) =
     [Fulfilled (Some (HN.Row.mk ia 300 "A" "https://a.example" "sa" 0));
      Fulfilled (Some (HN.Row.mk ib 100 "B" "https://b.example" "sb" 0));
      Fulfilled (Some (HN.Row.mk ic 200 "C" "https://c.example" "sc" 0));
      Fulfilled None]) /\
  (exists na nb nc,
     trace (Reddit.retrievals Examples.rd_world 4 (Examples.rd_start Examples.rd_t3)) =
     [] ++ Reddit.release_trace Examples.rd_world (Reddit.Row.mk na "c" "C" "uc" "sc" 0)
        ++ Reddit.release_trace Examples.rd_world (Reddit.Row.mk nb "a" "A" "ua" "sa" 0)
        ++ Reddit.release_trace Examples.rd_world (Reddit.Row.mk nc "b" "B" "ub" "sb" 0)
        ++ [Reddit.SelectOldest]) /\
  fst (HN.releases Examples.hn_world 4 (Examples.hn_start Examples.hn_t3)) =
  map (fun r => Fulfilled (Some r)) (HN.rows Examples.hn_t3) ++ [Fulfilled None].
Proof.
  split; [| split].
  - apply (proj1 (proj2 (proj2 release_is_fifo)) Examples.hn_world []
             HN.empty Examples.hn_t1 Examples.hn_t2 Examples.hn_t3);
      [exact HNTable.wf_empty | reflexivity | reflexivity | reflexivity | reflexivity].
  - apply (proj1 (proj2 (proj2 (proj2 (proj2 (proj2 release_is_fifo))))) Examples.rd_world []
             Reddit.empty Examples.rd_t1 Examples.rd_t2 Examples.rd_t3);
      [exact RedditTable.rd_wf_empty | reflexivity | reflexivity | reflexivity | reflexivity].
  - exact (proj1 (proj2 release_is_fifo) Examples.hn_world
             (Examples.hn_start Examples.hn_t3) ExampleFacts.hn_t3_wf).
Defined.

(** C4.  One release step flags at most one row.  In either bot, on a table
    whose primary key is unique, one invocation of the release step changes
    no row but for its flag, moves exactly one row from unposted to posted
    when some row is unposted (the row it selected), and none when no row is
    unposted, in which case it reports absence and not an error. *)
Theorem one_row_per_release :
  (forall (w : HN.World) (st : HN.Sys),
     NoDup (HN.ids (store st)) ->
     let (o, st') := HN.run w HN.getTopNewsItem st in
     map HN.content (HN.rows (store st')) = map HN.content (HN.rows (store st)) /\
     (List.length (HN.transitioned (store st) (store st')) <= 1)%nat /\
     (HN.pending (store st) <> [] ->
      exists r, o = Fulfilled (Some r) /\
                HN.transitioned (store st) (store st') = [r]) /\
     (HN.pending (store st) = [] ->
      o = Fulfilled None /\ HN.transitioned (store st) (store st') = [])) /\
  (forall (w : Reddit.World) (st : Reddit.Sys),
     NoDup (Reddit.post_ids (store st)) ->
     let (o, st') := Reddit.run w Reddit.retrieveAndPost st in
     o = Fulfilled tt /\
     map Reddit.content_of (store st') = map Reddit.content_of (store st) /\
     (List.length (Reddit.transitioned (store st) (store st')) <= 1)%nat /\
     (Reddit.pending (store st) <> [] ->
      exists r, Reddit.select_oldest (store st) = Some r /\
                Reddit.transitioned (store st) (store st') = [r]) /\
     (Reddit.pending (store st) = [] ->
      Reddit.transitioned (store st) (store st') = [])).
Proof.
  split; [exact OneAtATime.hn_one_per_release | exact OneAtATime.rd_one_per_release].
Qed.

(** With three rows waiting, one release flags exactly one of them. *)
Lemma one_row_per_release_witness :
  (let (o, st') := HN.run Examples.hn_world HN.getTopNewsItem
                          (Examples.hn_start Examples.hn_t3) in
   exists r, o = Fulfilled (Some r) /\ HN.transitioned Examples.hn_t3 (store st') = [r]) /\
  (let (o, st') := Reddit.run Examples.rd_world Reddit.retrieveAndPost
                              (Examples.rd_start Examples.rd_t3) in
   exists r, Reddit.select_oldest Examples.rd_t3 = Some r /\
             Reddit.transitioned Examples.rd_t3 (store st') = [r]).
Proof.
  split.
  - pose proof (proj1 one_row_per_release Examples.hn_world
                  (Examples.hn_start Examples.hn_t3) ExampleFacts.hn_t3_ids) as H.
    destruct (HN.run Examples.hn_world HN.getTopNewsItem (Examples.hn_start Examples.hn_t3))
      as [o st'].
    apply (proj1 (proj2 (proj2 H))). discriminate.
  - pose proof (proj2 one_row_per_release Examples.rd_world
                  (Examples.rd_start Examples.rd_t3) (proj2 ExampleFacts.rd_t3_wf)) as H.
    destruct (Reddit.run Examples.rd_world Reddit.retrieveAndPost
                         (Examples.rd_start Examples.rd_t3)) as [o st'].
    apply (proj1 (proj2 (proj2 (proj2 H)))). discriminate.
Defined.

(** C10.  A release step that finds no unposted row does nothing else.  In
    either bot, when every row is flagged, the release step issues its
    SELECT and no other command (no UPDATE, no login, no post), reports
    absence without an error, and leaves the table exactly as it was. *)
Theorem idle_release_is_silent :
  (forall (w : HN.World) (st : HN.Sys),
     (forall r, In r (HN.rows (store st)) -> HN.Row.retrieved r <> 0) ->
     HN.run w HN.getTopNewsItem st =
     (Fulfilled None, mkSys (store st) (trace st ++ [HN.SelectTop])) /\
     HN.run w HN.testRetrieval st =
     (Fulfilled tt, mkSys (store st) (trace st ++ [HN.SelectTop]))) /\
  (forall (w : Reddit.World) (st : Reddit.Sys),
     (forall r, In r (store st) -> Reddit.Row.retrieved r <> 0) ->
     Reddit.run w Reddit.retrieveAndPost st =
     (Fulfilled tt, mkSys (store st) (trace st ++ [Reddit.SelectOldest]))).
Proof.
  split.
  - intros w st H. apply HNTable.select_top_none in H.
    assert (Hget : HN.run w HN.getTopNewsItem st =
                   (Fulfilled None, mkSys (store st) (trace st ++ [HN.SelectTop]))).
    { rewrite HNRelease.run_getTopNewsItem, H. reflexivity. }
    split; [exact Hget |].
    unfold HN.testRetrieval. rewrite HNIngest.hn_run_bind, Hget. reflexivity.
  - intros w st H. apply RedditTable.select_oldest_none in H.
    rewrite RedditRelease.run_retrieveAndPost, H. reflexivity.
Qed.

(** A table whose only row was posted already. *)
Lemma idle_release_is_silent_witness :
  (HN.run Examples.hn_world HN.getTopNewsItem (Examples.hn_start Examples.hn_done) =
   (Fulfilled None, mkSys Examples.hn_done [HN.SelectTop]) /\
   HN.run Examples.hn_world HN.testRetrieval (Examples.hn_start Examples.hn_done) =
   (Fulfilled tt, mkSys Examples.hn_done [HN.SelectTop])) /\
  Reddit.run Examples.rd_world Reddit.retrieveAndPost (Examples.rd_start Examples.rd_done) =
  (Fulfilled tt, mkSys Examples.rd_done [Reddit.SelectOldest]).
Proof.
  split.
  - apply (proj1 idle_release_is_silent Examples.hn_world (Examples.hn_start Examples.hn_done)).
    intros r [<- | []]. simpl. discriminate.
  - apply (proj2 idle_release_is_silent Examples.rd_world (Examples.rd_start Examples.rd_done)).
    intros r [<- | []]. simpl. discriminate.
Defined.

(** C3, as the spec states it, fails on the Reddit bot: with one row
    waiting, a crash after the login (the publish call under way) or after
    the post went out finds the row still unflagged. *)
Lemma reddit_marks_after_posting :
  Reddit.select_oldest Examples.rd_t1 = Some (Reddit.Row.mk 1 "c" "C" "uc" "sc" 0) /\
  Reddit.crashAfter Examples.rd_world 2 Reddit.retrieveAndPost (Examples.rd_start Examples.rd_t1) =
  mkSys [Reddit.Row.mk 1 "c" "C" "uc" "sc" 0] [Reddit.SelectOldest; Reddit.AgentLogin] /\
  Reddit.crashAfter Examples.rd_world 4 Reddit.retrieveAndPost (Examples.rd_start Examples.rd_t1) =
  mkSys [Reddit.Row.mk 1 "c" "C" "uc" "sc" 0]
        [Reddit.SelectOldest; Reddit.AgentLogin;
         Reddit.DetectFacets (Reddit.content (Reddit.Row.mk 1 "c" "C" "uc" "sc" 0));
         Reddit.AgentPost (Reddit.content (Reddit.Row.mk 1 "c" "C" "uc" "sc" 0))].
Proof. repeat split. Qed.

(** C3, amended.  In the Hacker News bot the UPDATE that flags the selected
    row is the second command of a release, before the login and the post:
    whenever the process dies with the Bluesky agent already called, the row
    is flagged.  In the Reddit bot the UPDATE is the last command, issued
    once [postToBluesky] has returned: a crash at any earlier point leaves
    the table as it was, the row unflagged, and a release that runs to its
    end flags the row whether or not the post went out. *)
Theorem marking_and_publishing_order :
  (forall (w : HN.World) (st : HN.Sys) (n : nat) (r : HN.Row.t),
     HN.select_top (store st) = Some r ->
     let st' := HN.crashAfter w n HN.testRetrieval st in
     trace st' = trace st ++ firstn n (HN.release_cmds w r) /\
     (existsb HN.publishing (firstn n (HN.release_cmds w r)) = true ->
      store st' = HN.update_retrieved (HN.Row.id r) (store st) /\
      In (HN.mark r) (HN.rows (store st')) /\
      forall x, In x (HN.rows (store st')) -> HN.Row.id x = HN.Row.id r ->
                HN.Row.retrieved x = 1)) /\
  (forall (w : Reddit.World) (st : Reddit.Sys) (n : nat) (r : Reddit.Row.t),
     Reddit.select_oldest (store st) = Some r ->
     let st' := Reddit.crashAfter w n Reddit.retrieveAndPost st in
     trace st' = trace st ++ firstn n (Reddit.release_trace w r) /\
     ((n < List.length (Reddit.release_trace w r))%nat -> store st' = store st) /\
     ((List.length (Reddit.release_trace w r) <= n)%nat ->
      store st' = Reddit.update_retrieved (Reddit.Row.id r) (store st) /\
      In (Reddit.mark r) (store st') /\
      forall x, In x (store st') -> Reddit.Row.id x = Reddit.Row.id r ->
                Reddit.Row.retrieved x = 1)).
Proof.
  split.
  - intros w st n r Hsel. cbn zeta. rewrite (Crash.hn_crash_state w st n r Hsel).
    cbn [store trace]. split; [reflexivity |]. intros Hpub.
    assert (Hn : (2 <=? n)%nat = true).
    { destruct n as [| [| n]]; [discriminate Hpub | discriminate Hpub | reflexivity]. }
    rewrite Hn. split; [reflexivity |].
    apply Crash.hn_update_flags. apply HNTable.select_top_spec in Hsel. tauto.
  - intros w st n r Hsel. cbn zeta. rewrite (Crash.rd_crash_state w st n r Hsel).
    cbn [store trace]. split; [reflexivity |]. split.
    + intros Hn. apply Nat.leb_gt in Hn. rewrite Hn. reflexivity.
    + intros Hn. apply Nat.leb_le in Hn. rewrite Hn. split; [reflexivity |].
      apply Crash.rd_update_flags. apply RedditTable.select_oldest_spec in Hsel. tauto.
Qed.

(** A crash right after the login: Hacker News has the row flagged, Reddit
    has not. *)
Lemma marking_and_publishing_order_witness :
  (let st' := HN.crashAfter Examples.hn_world 3 HN.testRetrieval
                            (Examples.hn_start Examples.hn_t1) in
   trace st' = [HN.SelectTop; HN.UpdateRetrieved 1; HN.AgentLogin] /\
   store st' = HN.mkTable [HN.Row.mk 1 300 "A" "https://a.example" "sa" 1] 1) /\
  (let st' := Reddit.crashAfter Examples.rd_world 2 Reddit.retrieveAndPost
                                (Examples.rd_start Examples.rd_t1) in
   trace st' = [Reddit.SelectOldest; Reddit.AgentLogin] /\
   store st' = Examples.rd_t1).
Proof.
  split.
  - destruct (proj1 marking_and_publishing_order Examples.hn_world
                (Examples.hn_start Examples.hn_t1) 3%nat
                (HN.Row.mk 1 300 "A" "https://a.example" "sa" 0) eq_refl)
      as [Htrace Hflag].
    split; [exact Htrace |]. exact (proj1 (Hflag eq_refl)).
  - destruct (proj2 marking_and_publishing_order Examples.rd_world
                (Examples.rd_start Examples.rd_t1) 2%nat
                (Reddit.Row.mk 1 "c" "C" "uc" "sc" 0) eq_refl)
      as [Htrace [Hbefore _]].
    split; [exact Htrace |]. apply Hbefore. simpl. lia.
Defined.

(** C8, as the spec states it, fails: the link that closes the message is
    not the URL stored with the record.  For the story 8863 the stored URL
    is the article, the message ends in the Hacker News item page; for the
    Reddit post the stored URL is the permalink, the message ends in a
    shorter path built from the id. *)
Lemma message_link_is_not_stored_url :
  HN.msg (HN.Row.mk 1 8863 "My YC app: Dropbox"
                      "http://www.getdropbox.com/u/2/screencast.html" "Neat" 0) =
  Message.message_layout CRLF "My YC app: Dropbox" "Neat"
                         "https://news.ycombinator.com/item?id=8863" /\
  String.eqb (HN.msg (HN.Row.mk 1 8863 "My YC app: Dropbox"
                                  "http://www.getdropbox.com/u/2/screencast.html" "Neat" 0))
             (Message.message_layout CRLF "My YC app: Dropbox" "Neat"
                                     "http://www.getdropbox.com/u/2/screencast.html") = false /\
  String.eqb (Reddit.content
                (Reddit.Row.mk 1 "1abcde" "Road closure on the 405"
                   "https://www.reddit.com/r/LosAngeles/comments/1abcde/road_closure/" "Ugh" 0))
             (Message.message_layout LF "Road closure on the 405" "Ugh"
                "https://www.reddit.com/r/LosAngeles/comments/1abcde/road_closure/") = false.
Proof. repeat split. Qed.

(** C8, amended.  The message is a function of the record alone, laid out
    as a title line, a blank line, the summary behind its marker, a blank
    line and a link; the link is built from the record's external id (the
    Hacker News item page of the story id, the r/LosAngeles comments path of
    the post id) and the stored URL plays no part in it.  A release that
    selected a record logs in, runs the facet detection on this text and,
    when both answer, hands this text to the Bluesky agent; when the facet
    detection throws on the text nothing is handed over: the Hacker News
    release rejects, the Reddit one goes on to flag the row.  The story id
    is a safe integer, which is where JavaScript prints a number by its
    digits. *)
Theorem message_text_layout :
  (forall r : HN.Row.t,
     HN.msg r =
     Message.message_layout CRLF (HN.Row.title r) (HN.Row.commentSummary r)
                            (Message.hn_link (HN.Row.storyId r))) /\
  (forall r : Reddit.Row.t,
     Reddit.content r =
     Message.message_layout LF (Reddit.Row.title r) (Reddit.Row.summary r)
                            (Message.rd_link (Reddit.Row.id r))) /\
  (forall (i sid : Z) (title url url' summary : string) (flag : Z),
     HN.msg (HN.Row.mk i sid title url summary flag) =
     HN.msg (HN.Row.mk i sid title url' summary flag)) /\
  (forall (n : Z) (i title url url' summary : string) (flag : Z),
     Reddit.content (Reddit.Row.mk n i title url summary flag) =
     Reddit.content (Reddit.Row.mk n i title url' summary flag)) /\
  (forall (w : HN.World) (st : HN.Sys) (r : HN.Row.t),
     let text := Message.message_layout CRLF (HN.Row.title r) (HN.Row.commentSummary r)
                                        (Message.hn_link (HN.Row.storyId r)) in
     HN.select_top (store st) = Some r -> safe_integer (HN.Row.storyId r) ->
     HN.login w = inr tt -> HN.facets w text = inr tt ->
     trace (snd (HN.run w HN.testRetrieval st)) =
     trace st ++ [HN.SelectTop; HN.UpdateRetrieved (HN.Row.id r); HN.AgentLogin;
                  HN.DetectFacets text; HN.AgentPost text]) /\
  (forall (w : Reddit.World) (st : Reddit.Sys) (r : Reddit.Row.t),
     let text := Message.message_layout LF (Reddit.Row.title r) (Reddit.Row.summary r)
                                        (Message.rd_link (Reddit.Row.id r)) in
     Reddit.select_oldest (store st) = Some r ->
     Reddit.login w = inr tt -> Reddit.facets w text = inr tt ->
     trace (snd (Reddit.run w Reddit.retrieveAndPost st)) =
     trace st ++ [Reddit.SelectOldest; Reddit.AgentLogin; Reddit.DetectFacets text;
                  Reddit.AgentPost text; Reddit.UpdateRetrieved (Reddit.Row.id r)]) /\
  (forall (w : HN.World) (st : HN.Sys) (r : HN.Row.t) (e : Err),
     let text := Message.message_layout CRLF (HN.Row.title r) (HN.Row.commentSummary r)
                                        (Message.hn_link (HN.Row.storyId r)) in
     HN.select_top (store st) = Some r -> safe_integer (HN.Row.storyId r) ->
     HN.login w = inr tt -> HN.facets w text = inl e ->
     HN.run w HN.testRetrieval st =
     (Rejected e,
      mkSys (HN.update_retrieved (HN.Row.id r) (store st))
            (trace st ++ [HN.SelectTop; HN.UpdateRetrieved (HN.Row.id r); HN.AgentLogin;
                          HN.DetectFacets text]))) /\
  (forall (w : Reddit.World) (st : Reddit.Sys) (r : Reddit.Row.t) (e : Err),
     let text := Message.message_layout LF (Reddit.Row.title r) (Reddit.Row.summary r)
                                        (Message.rd_link (Reddit.Row.id r)) in
     Reddit.select_oldest (store st) = Some r ->
     Reddit.login w = inr tt -> Reddit.facets w text = inl e ->
     Reddit.run w Reddit.retrieveAndPost st =
     (Fulfilled tt,
      mkSys (Reddit.update_retrieved (Reddit.Row.id r) (store st))
            (trace st ++ [Reddit.SelectOldest; Reddit.AgentLogin; Reddit.DetectFacets text;
                          Reddit.UpdateRetrieved (Reddit.Row.id r)]))).
Proof.
  split; [exact Publish.msg_layout |].
  split; [exact Publish.content_layout |].
  split; [reflexivity |]. split; [reflexivity |]. split; [| split; [| split]].
  - intros w st r text Hsel _ Hlogin Hfacets.
    rewrite (Publish.run_testRetrieval_found w st r Hsel).
    unfold HN.release_cmds. rewrite Hlogin, Publish.msg_layout. fold text.
    rewrite Hfacets. reflexivity.
  - intros w st r text Hsel Hlogin Hfacets. rewrite RedditRelease.run_retrieveAndPost, Hsel.
    unfold Reddit.release_trace, Reddit.bluesky_trace.
    rewrite Hlogin, Publish.content_layout. fold text. rewrite Hfacets. reflexivity.
  - intros w st r e text Hsel _ Hlogin Hfacets. unfold HN.testRetrieval.
    rewrite HNIngest.hn_run_bind, HNRelease.run_getTopNewsItem, Hsel.
    rewrite Publish.msg_layout. fold text.
    unfold HN.run. simpl. unfold perform. simpl. rewrite Hlogin. simpl.
    rewrite Hfacets. simpl. rewrite <- !app_assoc. reflexivity.
  - intros w st r e text Hsel Hlogin Hfacets. rewrite RedditRelease.run_retrieveAndPost, Hsel.
    unfold Reddit.release_trace, Reddit.bluesky_trace.
    rewrite Hlogin, Publish.content_layout. fold text. rewrite Hfacets. reflexivity.
Qed.

(** The first story and the first post of the sample tables, released. *)
Lemma message_text_layout_witness :
  trace (snd (HN.run Examples.hn_world HN.testRetrieval (Examples.hn_start Examples.hn_t1))) =
  [HN.SelectTop; HN.UpdateRetrieved 1; HN.AgentLogin;
   HN.DetectFacets (Message.message_layout CRLF "A" "sa" (Message.hn_link 300));
   HN.AgentPost (Message.message_layout CRLF "A" "sa" (Message.hn_link 300))] /\
  trace (snd (Reddit.run Examples.rd_world Reddit.retrieveAndPost
                         (Examples.rd_start Examples.rd_t1))) =
  [Reddit.SelectOldest; Reddit.AgentLogin;
   Reddit.DetectFacets (Message.message_layout LF "C" "sc" (Message.rd_link "c"));
   Reddit.AgentPost (Message.message_layout LF "C" "sc" (Message.rd_link "c"));
   Reddit.UpdateRetrieved "c"] /\
  HN.run Examples.hn_world_mention HN.testRetrieval (Examples.hn_start Examples.hn_mention) =
  (Rejected (TypeError "Cannot read properties of undefined"),
   mkSys (HN.mkTable [HN.Row.mk 1 500 "Thanks @pg.com" "https://m.example" "sm" 1] 1)
         [HN.SelectTop; HN.UpdateRetrieved 1; HN.AgentLogin;
          HN.DetectFacets (Message.message_layout CRLF "Thanks @pg.com" "sm"
                             (Message.hn_link 500))]) /\
  Reddit.run Examples.rd_world_mention Reddit.retrieveAndPost
             (Examples.rd_start Examples.rd_mention) =
  (Fulfilled tt,
   mkSys [Reddit.Row.mk 1 "m" "Thanks @pg.com" "um" "sm" 1]
         [Reddit.SelectOldest; Reddit.AgentLogin;
          Reddit.DetectFacets (Message.message_layout LF "Thanks @pg.com" "sm"
                                 (Message.rd_link "m"));
          Reddit.UpdateRetrieved "m"]).
Proof.
  assert (Hsafe : forall n, - 2 ^ 53 < n < 2 ^ 53 -> safe_integer n) by (intros n H; exact H).
  split; [| split; [| split]].
  - apply (proj1 (proj2 (proj2 (proj2 (proj2 message_text_layout))))
             Examples.hn_world (Examples.hn_start Examples.hn_t1)
             (HN.Row.mk 1 300 "A" "https://a.example" "sa" 0) eq_refl);
      [apply Hsafe; simpl; lia | reflexivity | reflexivity].
  - exact (proj1 (proj2 (proj2 (proj2 (proj2 (proj2 message_text_layout)))))
             Examples.rd_world (Examples.rd_start Examples.rd_t1)
             (Reddit.Row.mk 1 "c" "C" "uc" "sc" 0) eq_refl eq_refl eq_refl).
  - apply (proj1 (proj2 (proj2 (proj2 (proj2 (proj2 (proj2 message_text_layout))))))
             Examples.hn_world_mention (Examples.hn_start Examples.hn_mention)
             (HN.Row.mk 1 500 "Thanks @pg.com" "https://m.example" "sm" 0)
             (TypeError "Cannot read properties of undefined") eq_refl);
      [apply Hsafe; simpl; lia | reflexivity | reflexivity].
  - exact (proj2 (proj2 (proj2 (proj2 (proj2 (proj2 (proj2 message_text_layout))))))
             Examples.rd_world_mention (Examples.rd_start Examples.rd_mention)
             (Reddit.Row.mk 1 "m" "Thanks @pg.com" "um" "sm" 0)
             (TypeError "Cannot read properties of undefined") eq_refl eq_refl eq_refl).
Defined.

(** C7, as the spec states it, fails on the Reddit bot: a link post has no
    body, and what the discussion summarizer is given is then the title of
    the post, which is neither its body nor any comment. *)
Lemma link_post_summarizes_title :
  Reddit.Post.selftext Examples.link_post = "" /\
  trace (snd (Reddit.run Examples.rd_world (Reddit.processPost Examples.link_post)
                         (Examples.rd_start Reddit.empty))) =
  [Reddit.SelectPost "1abcde";
   Reddit.ChatCompletion Reddit.title_system
     (Reddit.title_user "Road closure on the 405");
   Reddit.ChatCompletion Reddit.discussion_system
     (Reddit.discussion_user "Road closure on the 405");
   Reddit.InsertPost "1abcde" "Road closure on the 405"
     "https://www.reddit.com/r/LosAngeles/comments/1abcde/road_closure/" "D"].
Proof. split; reflexivity. Qed.

(** C7, amended.  Hacker News: for a new story that passes the guard and
    whose comment fetches all answer, the discussion summarizer is given the
    newline-joined texts, in the order the story lists its children, of
    those among the first 25 children that are not [null] and carry a
    non-empty text; at most 25 texts, possibly none, and the story is then
    stored whenever the summarizer answers.  A comment fetch that rejects
    is not an omission: it ends the processing of the story with that
    rejection and nothing is stored.  Reddit: no comment is fetched;
    the summarizer is given the body of the post, or its title when the body
    is empty. *)
Theorem discussion_summary_input :
  (forall (w : HN.World) (sid : Z) (st : HN.Sys) (s : HN.Item.t) (kids : list Z) (u : string),
     HN.has_story sid (store st) = false -> HN.item w sid = inr (Some s) ->
     HN.Item.kids s = Some kids -> HN.Item.url s = Some u -> truthy u = true ->
     (forall k, In k (firstn 25 kids) -> HN.fetch_ok w k) ->
     let text := join LF (HN.discussion_texts w kids) in
     let reads := [HN.SelectStory sid; HN.GetItem sid] ++ map HN.GetItem (firstn 25 kids)
                  ++ [HN.ChatCompletion HN.comments_system (HN.comments_user text)] in
     (List.length (HN.discussion_texts w kids) <= 25)%nat /\
     HN.run w (HN.processStory sid) st =
     match HN.completion w HN.comments_system (HN.comments_user text) with
     | inl e => (Rejected e, mkSys (store st) (trace st ++ reads))
     | inr summary =>
         let new_id := Z.max (HN.seq (store st)) (HN.max_id (HN.rows (store st))) + 1 in
         (Fulfilled tt,
          mkSys (HN.mkTable (HN.rows (store st)
                             ++ [HN.Row.mk new_id sid (HN.Item.title s) u summary 0])
                            new_id)
                (trace st ++ reads ++ [HN.InsertStory sid (HN.Item.title s) u summary]))
     end) /\
  (forall (w : HN.World) (sid : Z) (st : HN.Sys) (s : HN.Item.t)
          (kids pre post : list Z) (k : Z) (u : string) (e : Err),
     HN.has_story sid (store st) = false -> HN.item w sid = inr (Some s) ->
     HN.Item.kids s = Some kids -> HN.Item.url s = Some u -> truthy u = true ->
     firstn 25 kids = pre ++ k :: post ->
     (forall k', In k' pre -> HN.fetch_ok w k') -> HN.item w k = inl e ->
     HN.run w (HN.processStory sid) st =
     (Rejected e,
      mkSys (store st)
            (trace st ++ [HN.SelectStory sid; HN.GetItem sid] ++ map HN.GetItem pre
                   ++ [HN.GetItem k]))) /\
  (forall (w : Reddit.World) (p : Reddit.Post.t) (st : Reddit.Sys) (x : string),
     Reddit.has_post (Reddit.Post.id p) (store st) = false ->
     Reddit.title_answer w p = inr x ->
     exists rest,
       trace (snd (Reddit.run w (Reddit.processPost p) st)) =
       trace st ++ [Reddit.SelectPost (Reddit.Post.id p);
                    Reddit.ChatCompletion Reddit.title_system
                      (Reddit.title_user (Reddit.Post.title p));
                    Reddit.ChatCompletion Reddit.discussion_system
                      (Reddit.discussion_user
                         (if truthy (Reddit.Post.selftext p)
                          then Reddit.Post.selftext p else Reddit.Post.title p))]
                ++ rest).
Proof.
  split; [| split].
  - intros w sid st s kids u H Hi Hk Hu Ht Hok. cbn zeta.
    split; [apply HNIngest.discussion_texts_length |].
    exact (HNIngest.run_processStory_enriched w sid st s kids u H Hi Hk Hu Ht Hok).
  - exact HNIngest.run_processStory_fetch_rejected.
  - intros w p st x H Hx. rewrite (RedditCallback.run_processPost_new w p st H), Hx.
    destruct (Reddit.discussion_answer w p) as [e | summary]; cbn [snd trace].
    + exists []. reflexivity.
    + exists [Reddit.insert_cmd p summary]. reflexivity.
Qed.

(** Story 102 lists the children 2001 ("great"), 2002 ("meh") and 2003
    (deleted); the text post is summarized from its body. *)
Lemma discussion_summary_input_witness :
  HN.run Examples.hn_world (HN.processStory 102) (Examples.hn_start HN.empty) =
  (Fulfilled tt,
   mkSys (HN.mkTable [HN.Row.mk 1 102 "Show HN: a thing" "https://example.com/thing"
                                "Mixed feelings" 0] 1)
         [HN.SelectStory 102; HN.GetItem 102; HN.GetItem 2001; HN.GetItem 2002;
          HN.GetItem 2003;
          HN.ChatCompletion HN.comments_system
            (HN.comments_user (join LF ["great"; "meh"]));
          HN.InsertStory 102 "Show HN: a thing" "https://example.com/thing"
            "Mixed feelings"]) /\
  (exists rest,
     trace (snd (Reddit.run Examples.rd_world (Reddit.processPost Examples.text_post)
                            (Examples.rd_start Reddit.empty))) =
     [Reddit.SelectPost "1fghij";
      Reddit.ChatCompletion Reddit.title_system (Reddit.title_user "Best tacos?");
      Reddit.ChatCompletion Reddit.discussion_system
        (Reddit.discussion_user "Looking for recommendations.")] ++ rest).
Proof.
  split.
  - refine (proj2 (proj1 discussion_summary_input Examples.hn_world 102
                     (Examples.hn_start HN.empty)
                     (HN.Item.mk "Show HN: a thing" (Some "https://example.com/thing")
                                 (Some [2001; 2002; 2003]) None)
                     [2001; 2002; 2003] "https://example.com/thing"
                     eq_refl eq_refl eq_refl eq_refl eq_refl _)).
    intros k Hk e. simpl in Hk.
    destruct Hk as [<- | [<- | [<- | []]]]; discriminate.
  - exact (proj2 (proj2 discussion_summary_input) Examples.rd_world Examples.text_post
             (Examples.rd_start Reddit.empty) "T" eq_refl eq_refl).
Defined.



(** C2, as the spec states it, fails.  The Ask-HN item 103 has no URL: the
    guard of [main] skips it on both attempts and the table holds no record
    of it, not one.  And when the listing of one Reddit tick names a post
    twice and both lookups run before the first INSERT, the second callback
    enriches and inserts as well; its INSERT is what the primary key turns
    away. *)
Lemma ingesting_twice_neither_one_record_nor_one_enrichment :
  snd (HN.run Examples.hn_world_ask (HN.ingest [103; 103]) (Examples.hn_start HN.empty)) =
  mkSys HN.empty [HN.SelectStory 103; HN.GetItem 103; HN.SelectStory 103; HN.GetItem 103] /\
  count_occ Z.eq_dec (HN.story_ids HN.empty) 103 = 0%nat /\
  snd (Reddit.interleave Examples.rd_world [0; 1; 0; 0; 0; 1; 1; 1]%nat
         (Reddit.pool_of [Examples.text_post; Examples.text_post])
         (Examples.rd_start Reddit.empty)) =
  mkSys [Reddit.row_of Reddit.empty Examples.text_post "D"]
        [Reddit.lookup_cmd Examples.text_post;
         Reddit.lookup_cmd Examples.text_post;
         Reddit.title_cmd Examples.text_post;
         Reddit.discussion_cmd Examples.text_post;
         Reddit.insert_cmd Examples.text_post "D";
         Reddit.title_cmd Examples.text_post;
         Reddit.discussion_cmd Examples.text_post;
         Reddit.insert_cmd Examples.text_post "D"].
Proof. repeat split. Qed.

(** C2, amended.  Ingestion never stores two records with one external id:
    in the Hacker News bot after any two attempts on a story id, in the
    Reddit bot after any interleaving of the callbacks of a tick.  A new
    story that passes the guard and whose enrichment succeeds is stored, a
    new story the guard turns away is not; and once a record with the id is
    stored, an attempt on that id (in the Reddit bot, a callback whose
    lookup runs after the INSERT) consists of the lookup alone, with no
    fetch, no enrichment and no INSERT, and leaves exactly one record with
    that id. *)
Theorem deduplicated_ingestion :
  (forall (w1 w2 : HN.World) (sid : Z) (st : HN.Sys),
     HN.wf (store st) ->
     let st1 := snd (HN.run w1 (HN.processStory sid) st) in
     let st2 := snd (HN.run w2 (HN.processStory sid) st1) in
     (count_occ Z.eq_dec (HN.story_ids (store st2)) sid <= 1)%nat /\
     (HN.has_story sid (store st1) = true ->
      st2 = mkSys (store st1) (trace st1 ++ [HN.SelectStory sid]) /\
      count_occ Z.eq_dec (HN.story_ids (store st2)) sid = 1%nat)) /\
  (forall (w : HN.World) (sid : Z) (st : HN.Sys) (s : HN.Item.t) (kids : list Z)
          (u summary : string),
     HN.has_story sid (store st) = false -> HN.item w sid = inr (Some s) ->
     HN.Item.kids s = Some kids -> HN.Item.url s = Some u -> truthy u = true ->
     (forall k, In k (firstn 25 kids) -> HN.fetch_ok w k) ->
     HN.completion w HN.comments_system
       (HN.comments_user (join LF (HN.discussion_texts w kids))) = inr summary ->
     HN.has_story sid (store (snd (HN.run w (HN.processStory sid) st))) = true) /\
  (forall (w : HN.World) (sid : Z) (st : HN.Sys) (o : option HN.Item.t),
     HN.has_story sid (store st) = false -> HN.item w sid = inr o -> HN.skipped o ->
     HN.run w (HN.processStory sid) st =
     (Fulfilled tt, mkSys (store st) (trace st ++ [HN.SelectStory sid; HN.GetItem sid]))) /\
  (forall (w : Reddit.World) (posts : list Reddit.Post.t) (sch : list nat)
          (st : Reddit.Sys) (i : string),
     Reddit.wf (store st) ->
     (count_occ string_dec
        (Reddit.post_ids
           (store (snd (Reddit.interleave w sch (Reddit.pool_of posts) st)))) i
      <= 1)%nat) /\
  (forall (w : Reddit.World) (p : Reddit.Post.t) (st : Reddit.Sys),
     Reddit.wf (store st) ->
     Reddit.has_post (Reddit.Post.id p) (store st) = true ->
     Reddit.run w (Reddit.processPost p) st =
     (Fulfilled tt, mkSys (store st) (trace st ++ [Reddit.SelectPost (Reddit.Post.id p)])) /\
     count_occ string_dec (Reddit.post_ids (store st)) (Reddit.Post.id p) = 1%nat).
Proof.
  split; [| split; [| split; [exact HNIngest.run_processStory_skipped | split]]].
  - intros w1 w2 sid st Hwf. cbn zeta.
    set (st1 := snd (HN.run w1 (HN.processStory sid) st)).
    assert (Hwf1 : HN.wf (store st1)) by (apply Tick.run_wf; exact Hwf).
    assert (Hwf2 : HN.wf (store (snd (HN.run w2 (HN.processStory sid) st1))))
      by (apply Tick.run_wf; exact Hwf1).
    split.
    + apply (proj1 (NoDup_count_occ Z.eq_dec _) (proj2 Hwf2)).
    + intros Hhas. rewrite (HNIngest.run_processStory_known w2 sid st1 Hhas).
      cbn [snd store]. split; [reflexivity |].
      pose proof (proj1 (NoDup_count_occ Z.eq_dec _) (proj2 Hwf1) sid) as Hle.
      apply HNTable.has_story_In in Hhas.
      apply (count_occ_In Z.eq_dec) in Hhas. lia.
  - intros w sid st s kids u summary H Hi Hk Hu Ht Hok Hsum.
    rewrite (HNIngest.run_processStory_enriched w sid st s kids u H Hi Hk Hu Ht Hok).
    cbn zeta. rewrite Hsum. cbn [snd store]. unfold HN.has_story. cbn [HN.rows].
    rewrite existsb_app. simpl. rewrite Z.eqb_refl. apply orb_true_r.
  - intros w posts sch st i Hwf.
    pose proof (Tick.interleave_wf w sch (Reddit.pool_of posts) st Hwf) as [_ Hn].
    apply (proj1 (NoDup_count_occ string_dec _) Hn).
  - intros w p st Hwf Hhas. split; [apply RedditCallback.run_processPost_known; exact Hhas |].
    pose proof (proj1 (NoDup_count_occ string_dec _) (proj2 Hwf) (Reddit.Post.id p)) as Hle.
    apply RedditTable.has_post_In in Hhas.
    apply (count_occ_In string_dec) in Hhas. lia.
Qed.

(** Story 102 twice: stored by the first attempt, looked up by the second.
    The text post, once it is stored: looked up, nothing else. *)
Lemma deduplicated_ingestion_witness :
  (let st1 := snd (HN.run Examples.hn_world (HN.processStory 102)
                          (Examples.hn_start HN.empty)) in
   let st2 := snd (HN.run Examples.hn_world (HN.processStory 102) st1) in
   st2 = mkSys (store st1) (trace st1 ++ [HN.SelectStory 102]) /\
   count_occ Z.eq_dec (HN.story_ids (store st2)) 102 = 1%nat) /\
  (Reddit.run Examples.rd_world (Reddit.processPost Examples.text_post)
              (Examples.rd_start [Reddit.row_of Reddit.empty Examples.text_post "D"]) =
   (Fulfilled tt,
    mkSys [Reddit.row_of Reddit.empty Examples.text_post "D"]
          [Reddit.SelectPost "1fghij"]) /\
   count_occ string_dec
     (Reddit.post_ids [Reddit.row_of Reddit.empty Examples.text_post "D"])
     "1fghij" = 1%nat).
Proof.
  split.
  - exact (proj2 (proj1 deduplicated_ingestion Examples.hn_world Examples.hn_world 102
                    (Examples.hn_start HN.empty) HNTable.wf_empty) eq_refl).
  - apply (proj2 (proj2 (proj2 (proj2 deduplicated_ingestion))) Examples.rd_world
             Examples.text_post
             (Examples.rd_start [Reddit.row_of Reddit.empty Examples.text_post "D"])).
    + split; [repeat constructor | repeat constructor; simpl; tauto].
    + reflexivity.
Defined.

(** C5, as the spec states it, fails on the Hacker News bot.  Two ticks
    overlap and both find story 102 new; the first stores it, the INSERT of
    the second violates the UNIQUE column, and that tick ends there with the
    violation as its rejection: it never looks at story 104 and never
    releases. *)
Lemma hn_duplicate_insert_rejects_the_tick :
  nth_error (fst Examples.hn_overlap) 1 = Some (Throw SqliteConstraint) /\
  store (snd Examples.hn_overlap) =
  HN.mkTable [HN.Row.mk 1 102 "Show HN: a thing" "https://example.com/thing"
                        "Mixed feelings" 0] 1 /\
  trace (snd Examples.hn_overlap) =
  [HN.CreateTable; HN.GetTopStories; HN.SelectStory 102;
   HN.CreateTable; HN.GetTopStories; HN.SelectStory 102;
   HN.GetItem 102; HN.GetItem 2001; HN.GetItem 2002; HN.GetItem 2003;
   HN.ChatCompletion HN.comments_system (HN.comments_user (join LF ["great"; "meh"]));
   HN.InsertStory 102 "Show HN: a thing" "https://example.com/thing" "Mixed feelings";
   HN.GetItem 102; HN.GetItem 2001; HN.GetItem 2002; HN.GetItem 2003;
   HN.ChatCompletion HN.comments_system (HN.comments_user (join LF ["great"; "meh"]));
   HN.InsertStory 102 "Show HN: a thing" "https://example.com/thing" "Mixed feelings"].
Proof. repeat split. Qed.

(** C5, amended.  Reddit: an INSERT the primary key refuses changes nothing
    and the callback returns as if it had gone through; under every
    interleaving of a tick, a callback ends in a rejection only when the
    chat service rejected one of its two requests, so a refused INSERT
    never rejects a callback.  Hacker News: wherever a run of [main] has
    got to, when the command it is about to issue is an INSERT and the
    table holds the story id by then, the INSERT is refused, the table is
    unchanged, and the rest of [main] is not run: no further story is
    processed, nothing is released, and [main] is rejected with the
    violation.  The ticks in flight are such runs of [main], and under every
    schedule the turn that issues the refused INSERT is the last one: the
    rejection is handled by nothing and the run ends there. *)
Theorem uniqueness_violation_handling :
  (forall (w : Reddit.World) (p : Reddit.Post.t) (summary : string) (st : Reddit.Sys),
     Reddit.has_post (Reddit.Post.id p) (store st) = true ->
     Reddit.run w (Reddit.afterSummary p summary) st =
     (Fulfilled tt,
      mkSys (store st)
            (trace st ++ [Reddit.InsertPost (Reddit.Post.id p) (Reddit.Post.title p)
                            (Reddit.Post.url p) summary]))) /\
  (forall (w : Reddit.World) (posts : list Reddit.Post.t) (sch : list nat)
          (st : Reddit.Sys) (i : nat) (p : Reddit.Post.t) (e : Err),
     nth_error posts i = Some p ->
     nth_error (fst (Reddit.interleave w sch (Reddit.pool_of posts) st)) i
     = Some (Throw e) ->
     Reddit.title_answer w p = inl e \/ Reddit.discussion_answer w p = inl e) /\
  (forall (w : HN.World) (q : HN.Prog unit) (st : HN.Sys) (sid : Z)
          (title url summary : string),
     Steps HN.main q -> next_cmd q = Some (HN.InsertStory sid title url summary) ->
     HN.has_story sid (store st) = true ->
     HN.run w q st =
     (Rejected SqliteConstraint,
      mkSys (store st) (trace st ++ [HN.InsertStory sid title url summary]))) /\
  (forall (w : HN.World) (sch : list nat) (k : nat) (st : HN.Sys) (i : nat)
          (task : HN.Prog unit),
     nth_error (fst (HN.interleave w sch (repeat HN.main k) st)) i = Some task ->
     Steps HN.main task) /\
  (forall (w : HN.World) (sch sch' : list nat) (k : nat) (st : HN.Sys) (i : nat)
          (task : HN.Prog unit) (sid : Z) (title url summary : string),
     let before := HN.interleave w sch (repeat HN.main k) st in
     existsb rejected (fst before) = false ->
     nth_error (fst before) i = Some task ->
     next_cmd task = Some (HN.InsertStory sid title url summary) ->
     HN.has_story sid (store (snd before)) = true ->
     HN.interleave w (sch ++ i :: sch') (repeat HN.main k) st =
     (set_nth i (Throw SqliteConstraint) (fst before),
      mkSys (store (snd before))
            (trace (snd before) ++ [HN.InsertStory sid title url summary]))).
Proof.
  split; [| split; [| split; [| split]]].
  - intros w p summary st H. unfold Reddit.run, Reddit.afterSummary.
    cbn [Async.run]. unfold perform. cbn [Reddit.exec].
    unfold Reddit.insert. rewrite H. reflexivity.
  - intros w posts sch st i p e Hp Htask.
    eapply Tick.stage_thrown. eapply Tick.callback_stage; eassumption.
  - intros w q st sid title url summary Hq Hnext Hhas.
    exact (proj1 (HNFailure.refused_insert_ends_main w q st sid title url summary
                    Hq Hnext Hhas)).
  - exact HNFailure.ticks_are_main.
  - intros w sch sch' k st i task sid title url summary before Hlive Htask Hnext Hhas.
    pose proof (HNFailure.ticks_are_main w sch k st i task Htask) as Hq.
    subst before. unfold HN.interleave in *.
    rewrite (AsyncLaws.interleave_app _ _ _ _ _ w sch (i :: sch') _ st Hlive).
    destruct (Async.interleave _ _ _ _ _ w sch (repeat HN.main k) st) as [pool' st'].
    cbn [fst snd] in *. unfold HN.Prog in *. rewrite AsyncLaws.interleave_turn, Htask.
    rewrite (proj2 (HNFailure.refused_insert_ends_main w task st' sid title url summary
                      Hq Hnext Hhas)).
    reflexivity.
Qed.

(** A post stored in the meantime, a callback the chat service lets down,
    and two ticks of the Hacker News bot in flight: the second is about to
    store story 102, which the first has stored by then. *)
Lemma uniqueness_violation_handling_witness :
  Reddit.run Examples.rd_world (Reddit.afterSummary Examples.text_post "D")
             (Examples.rd_start [Reddit.row_of Reddit.empty Examples.text_post "D"]) =
  (Fulfilled tt,
   mkSys [Reddit.row_of Reddit.empty Examples.text_post "D"]
         [Reddit.insert_cmd Examples.text_post "D"]) /\
  (Reddit.title_answer Examples.rd_world_one_failure Examples.link_post
   = inl (RequestFailed "503") \/
   Reddit.discussion_answer Examples.rd_world_one_failure Examples.link_post
   = inl (RequestFailed "503")) /\
  HN.interleave Examples.hn_world
    ([0; 0; 0; 1; 1; 1; 0; 0; 0; 0; 0; 0; 1; 1; 1; 1; 1] ++ 1 :: [0; 0; 1])%nat
    (repeat HN.main 2) (Examples.hn_start HN.empty) =
  (set_nth 1 (Throw SqliteConstraint) (fst Examples.hn_before_refusal),
   mkSys (HN.mkTable [HN.Row.mk 1 102 "Show HN: a thing" "https://example.com/thing"
                                "Mixed feelings" 0] 1)
         (trace (snd Examples.hn_before_refusal) ++
          [HN.InsertStory 102 "Show HN: a thing" "https://example.com/thing"
                          "Mixed feelings"])) /\
  HN.run Examples.hn_world (nth 1 (fst Examples.hn_before_refusal) (Ret tt))
         (snd Examples.hn_before_refusal) =
  (Rejected SqliteConstraint,
   mkSys (HN.mkTable [HN.Row.mk 1 102 "Show HN: a thing" "https://example.com/thing"
                                "Mixed feelings" 0] 1)
         (trace (snd Examples.hn_before_refusal) ++
          [HN.InsertStory 102 "Show HN: a thing" "https://example.com/thing"
                          "Mixed feelings"])).
Proof.
  split; [| split; [| split]].
  - exact (proj1 uniqueness_violation_handling Examples.rd_world Examples.text_post "D"
             (Examples.rd_start [Reddit.row_of Reddit.empty Examples.text_post "D"])
             eq_refl).
  - exact (proj1 (proj2 uniqueness_violation_handling) Examples.rd_world_one_failure
             [Examples.link_post; Examples.text_post] [0; 1; 0; 1; 1; 1]%nat
             (Examples.rd_start Reddit.empty) 0%nat Examples.link_post
             (RequestFailed "503") eq_refl eq_refl).
  - exact (proj2 (proj2 (proj2 (proj2 uniqueness_violation_handling))) Examples.hn_world
             [0; 0; 0; 1; 1; 1; 0; 0; 0; 0; 0; 0; 1; 1; 1; 1; 1]%nat [0; 0; 1]%nat 2%nat
             (Examples.hn_start HN.empty) 1%nat
             (nth 1 (fst Examples.hn_before_refusal) (Ret tt))
             102 "Show HN: a thing" "https://example.com/thing" "Mixed feelings"
             eq_refl eq_refl eq_refl eq_refl).
  - exact (proj1 (proj2 (proj2 uniqueness_violation_handling)) Examples.hn_world
             (nth 1 (fst Examples.hn_before_refusal) (Ret tt))
             (snd Examples.hn_before_refusal)
             102 "Show HN: a thing" "https://example.com/thing" "Mixed feelings"
             (proj1 (proj2 (proj2 (proj2 uniqueness_violation_handling)))
                Examples.hn_world
                [0; 0; 0; 1; 1; 1; 0; 0; 0; 0; 0; 0; 1; 1; 1; 1; 1]%nat 2%nat
                (Examples.hn_start HN.empty) 1%nat
                (nth 1 (fst Examples.hn_before_refusal) (Ret tt)) eq_refl)
             eq_refl eq_refl).
Defined.

(** C6, as the spec states it, fails on the Hacker News bot.  With the chat
    endpoint down, the first story of the start-up run fails in
    [summarizeComments]; nothing catches the rejection, which becomes that
    of the whole script, and the cron job is never started. *)
Lemma failed_enrichment_stops_the_script :
  HN.run Examples.hn_world_chat_down HN.script (Examples.hn_start HN.empty) =
  (Rejected (RequestFailed "503"),
   mkSys HN.empty
         [HN.CreateTable; HN.GetTopStories; HN.SelectStory 102; HN.GetItem 102;
          HN.GetItem 2001; HN.GetItem 2002; HN.GetItem 2003;
          HN.ChatCompletion HN.comments_system
            (HN.comments_user (join LF ["great"; "meh"]))]) /\
  existsb (fun c => match c with HN.CronStart => true | _ => false end)
          (trace (snd (HN.run Examples.hn_world_chat_down HN.script
                              (Examples.hn_start HN.empty)))) = false.
Proof. split; reflexivity. Qed.

(** C6, amended.  Hacker News: when the processing of a story rejects, the
    tick ends in the state that story left: the stories after it are not
    processed and nothing is released, the table is the one the stories
    before it left (what they stored stays stored), and the rejection is
    that of [main] and of the script, caught by nothing.  Reddit: the
    callbacks of a tick take turns, and a callback whose request to the chat
    service fails ends in a rejection that nothing handles: the run ends
    with that turn, the table as it was, and whatever the other callbacks
    and the release had left to do is not done.  Under every interleaving a
    callback that has ended either returned with its post in the table or
    was rejected by the chat service on one of its own two requests, and no
    row is ever taken out of the table. *)
Theorem hard_failure_handling :
  (forall (w : HN.World) (st st1 st2 : HN.Sys) (ids pre post : list Z) (i : Z) (e : Err),
     HN.topstories w = inr ids -> firstn 15 ids = pre ++ i :: post ->
     HN.run w (HN.ingest pre)
            (mkSys (store st) (trace st ++ [HN.CreateTable; HN.GetTopStories]))
     = (Fulfilled tt, st1) ->
     HN.run w (HN.processStory i) st1 = (Rejected e, st2) ->
     HN.run w HN.main st = (Rejected e, st2) /\
     HN.run w HN.script st = (Rejected e, st2) /\
     store st2 = store st1) /\
  (forall (w : Reddit.World) (posts : list Reddit.Post.t) (sch : list nat)
          (st : Reddit.Sys) (i : nat) (p : Reddit.Post.t) (task : Reddit.Prog unit),
     nth_error posts i = Some p ->
     nth_error (fst (Reddit.interleave w sch (Reddit.pool_of posts) st)) i
     = Some task ->
     settled task = true ->
     (task = Ret tt /\
      In (Reddit.Post.id p)
         (Reddit.post_ids
            (store (snd (Reddit.interleave w sch (Reddit.pool_of posts) st))))) \/
     (exists e, task = Throw e /\
                (Reddit.title_answer w p = inl e \/
                 Reddit.discussion_answer w p = inl e))) /\
  (forall (w : Reddit.World) (posts : list Reddit.Post.t) (sch : list nat)
          (st : Reddit.Sys),
     incl (Reddit.post_ids (store st))
          (Reddit.post_ids
             (store (snd (Reddit.interleave w sch (Reddit.pool_of posts) st))))) /\
  (forall (w : Reddit.World) (posts : list Reddit.Post.t) (sch sch' : list nat)
          (st : Reddit.Sys) (i : nat) (p : Reddit.Post.t) (e : Err),
     let before := Reddit.interleave w sch (Reddit.pool_of posts) st in
     existsb rejected (fst before) = false ->
     nth_error (fst before) i = Some (Reddit.afterLookup p) ->
     Reddit.title_answer w p = inl e ->
     Reddit.interleave w (sch ++ i :: sch') (Reddit.pool_of posts) st =
     (set_nth i (Throw e) (fst before),
      mkSys (store (snd before)) (trace (snd before) ++ [Reddit.title_cmd p]))) /\
  (forall (w : Reddit.World) (posts : list Reddit.Post.t) (sch sch' : list nat)
          (st : Reddit.Sys) (i : nat) (p : Reddit.Post.t) (e : Err),
     let before := Reddit.interleave w sch (Reddit.pool_of posts) st in
     existsb rejected (fst before) = false ->
     nth_error (fst before) i = Some (Reddit.afterTitle p) ->
     Reddit.discussion_answer w p = inl e ->
     Reddit.interleave w (sch ++ i :: sch') (Reddit.pool_of posts) st =
     (set_nth i (Throw e) (fst before),
      mkSys (store (snd before)) (trace (snd before) ++ [Reddit.discussion_cmd p]))) /\
  (forall (w : Reddit.World) (posts : list Reddit.Post.t) (sch sch' : list nat)
          (st : Reddit.Sys),
     existsb rejected (fst (Reddit.interleave w sch (Reddit.pool_of posts) st)) = true ->
     Reddit.interleave w (sch ++ sch') (Reddit.pool_of posts) st =
     Reddit.interleave w sch (Reddit.pool_of posts) st).
Proof.
  split; [| split; [| split; [| split; [| split]]]].
  - intros w st st1 st2 ids pre post i e Htop Hids Hpre Hi.
    assert (Hmain : HN.run w HN.main st = (Rejected e, st2)).
    { rewrite Tick.run_main. cbn zeta. rewrite Htop, Hids.
      rewrite (Tick.run_ingest_abort w pre post i _ st1 st2 e Hpre Hi). reflexivity. }
    split; [exact Hmain |]. split.
    + rewrite Tick.run_script, Hmain. reflexivity.
    + eapply HNIngest.processStory_rejected_store. exact Hi.
  - intros w posts sch st i p task Hp Htask Hs.
    eapply Tick.stage_settled; [| exact Hs]. eapply Tick.callback_stage; eassumption.
  - exact Tick.interleave_grows.
  - intros w posts sch sch' st i p e before Hlive Htask He. subst before.
    unfold Reddit.interleave in *.
    rewrite (AsyncLaws.interleave_app _ _ _ _ _ w sch (i :: sch') _ st Hlive).
    destruct (Async.interleave _ _ _ _ _ w sch (Reddit.pool_of posts) st) as [pool' st'].
    cbn [fst snd] in *.
    change (Async.interleave Reddit.Cmd Reddit.Resp Reddit.World Reddit.Table Reddit.exec)
      with Reddit.interleave.
    rewrite RedditIngest.interleave_cons, Htask.
    rewrite RedditIngest.resume_afterLookup, He. reflexivity.
  - intros w posts sch sch' st i p e before Hlive Htask He. subst before.
    unfold Reddit.interleave in *.
    rewrite (AsyncLaws.interleave_app _ _ _ _ _ w sch (i :: sch') _ st Hlive).
    destruct (Async.interleave _ _ _ _ _ w sch (Reddit.pool_of posts) st) as [pool' st'].
    cbn [fst snd] in *.
    change (Async.interleave Reddit.Cmd Reddit.Resp Reddit.World Reddit.Table Reddit.exec)
      with Reddit.interleave.
    rewrite RedditIngest.interleave_cons, Htask.
    rewrite RedditIngest.resume_afterTitle, He. reflexivity.
  - intros w posts sch sch' st Hend.
    apply (AsyncLaws.interleave_ends _ _ _ _ _ w sch sch' _ st); [| exact Hend].
    apply RedditIngest.pool_of_live.
Qed.

(** The chat endpoint down in the start-up run of the Hacker News bot.  In
    a tick of the Reddit bot the callback of the text post has stored its
    row when the callback of the link post is let down by the chat service:
    the run ends there and the release, due next, does not run. *)
Lemma hard_failure_handling_witness :
  (HN.run Examples.hn_world_chat_down HN.main (Examples.hn_start HN.empty) =
   (Rejected (RequestFailed "503"),
    mkSys HN.empty
          [HN.CreateTable; HN.GetTopStories; HN.SelectStory 102; HN.GetItem 102;
           HN.GetItem 2001; HN.GetItem 2002; HN.GetItem 2003;
           HN.ChatCompletion HN.comments_system
             (HN.comments_user (join LF ["great"; "meh"]))])) /\
  ((Ret tt = Ret tt :> Reddit.Prog unit /\
    In "1fghij" (Reddit.post_ids (store (snd Examples.rd_one_failure)))) \/
   (exists e, Ret tt = Throw e :> Reddit.Prog unit /\
              (Reddit.title_answer Examples.rd_world_one_failure Examples.text_post
               = inl e \/
               Reddit.discussion_answer Examples.rd_world_one_failure Examples.text_post
               = inl e))) /\
  Examples.rd_one_failure =
  ([Throw (RequestFailed "503"); Ret tt; Reddit.retrieveAndPost],
   mkSys [Reddit.row_of Reddit.empty Examples.text_post "D"]
         [Reddit.lookup_cmd Examples.text_post; Reddit.title_cmd Examples.text_post;
          Reddit.discussion_cmd Examples.text_post;
          Reddit.insert_cmd Examples.text_post "D";
          Reddit.lookup_cmd Examples.link_post; Reddit.title_cmd Examples.link_post]).
Proof.
  split; [| split].
  - exact (proj1 (proj1 hard_failure_handling Examples.hn_world_chat_down
                    (Examples.hn_start HN.empty)
                    (mkSys HN.empty [HN.CreateTable; HN.GetTopStories])
                    (mkSys HN.empty
                           [HN.CreateTable; HN.GetTopStories; HN.SelectStory 102;
                            HN.GetItem 102; HN.GetItem 2001; HN.GetItem 2002;
                            HN.GetItem 2003;
                            HN.ChatCompletion HN.comments_system
                              (HN.comments_user (join LF ["great"; "meh"]))])
                    [102; 104] [] [104] 102 (RequestFailed "503")
                    eq_refl eq_refl eq_refl eq_refl)).
  - exact (proj1 (proj2 hard_failure_handling) Examples.rd_world_one_failure
             [Examples.link_post; Examples.text_post]
             [1; 1; 1; 1; 0; 0; 2; 2; 2; 2; 2]%nat
             (Examples.rd_start Reddit.empty) 1%nat Examples.text_post (Ret tt)
             eq_refl eq_refl eq_refl).
  - exact (proj1 (proj2 (proj2 (proj2 hard_failure_handling)))
             Examples.rd_world_one_failure
             [Examples.link_post; Examples.text_post] [1; 1; 1; 1; 0]%nat
             [2; 2; 2; 2; 2]%nat (Examples.rd_start Reddit.empty) 0%nat
             Examples.link_post (RequestFailed "503") eq_refl eq_refl eq_refl).
Defined.

(** * Further properties of the code *)

(** X1.  The Hacker News table only grows.  Whatever is run on it (a program
    to its end, a program cut short by a crash, any number of tasks under
    any schedule), the rows that were there are still there afterwards, at
    the same places and with the same id, story id, title, url and summary;
    a row that was flagged as retrieved is still flagged; what is new comes
    after them.  Nothing in the script deletes, rewrites or un-flags a row. *)
Theorem hn_table_only_grows :
  (forall (A : Type) (w : HN.World) (p : HN.Prog A) (st : HN.Sys),
     Growth.grown HN.Row.t HN.aged
                  (HN.rows (store st)) (HN.rows (store (snd (HN.run w p st))))) /\
  (forall (A : Type) (w : HN.World) (n : nat) (p : HN.Prog A) (st : HN.Sys),
     Growth.grown HN.Row.t HN.aged
                  (HN.rows (store st)) (HN.rows (store (HN.crashAfter w n p st)))) /\
  (forall (w : HN.World) (sch : list nat) (pool : list (HN.Prog unit)) (st : HN.Sys),
     Growth.grown HN.Row.t HN.aged
                  (HN.rows (store st))
                  (HN.rows (store (snd (HN.interleave w sch pool st))))) /\
  (forall (w : HN.World) (sch : list nat) (pool : list (HN.Prog unit)) (st : HN.Sys)
          (i : nat) (r : HN.Row.t),
     nth_error (HN.rows (store st)) i = Some r ->
     exists r',
       nth_error (HN.rows (store (snd (HN.interleave w sch pool st)))) i = Some r' /\
       HN.content r' = HN.content r /\
       (HN.Row.retrieved r <> 0 -> HN.Row.retrieved r' <> 0)).
Proof.
  split; [| split; [| split]].
  - intros A w p st. apply HNKept.run_grown.
  - intros A w n p st. apply HNKept.crash_grown.
  - intros w sch pool st. apply HNKept.interleave_grown.
  - intros w sch pool st i r Hi.
    exact (GrowthFacts.grown_nth HN.Row.t HN.aged _ _ i r
             (HNKept.interleave_grown w sch pool st) Hi).
Qed.

Lemma hn_table_only_grows_witness :
  exists r',
    nth_error (HN.rows (store (snd (HN.interleave Examples.hn_world
                                      [0; 0; 0; 0; 0; 0; 0; 0; 0; 0]%nat [HN.main]
                                      (Examples.hn_start Examples.hn_done)))))
              0 = Some r' /\
    HN.content r' = (1, 300, "A", "https://a.example", "sa") /\
    (1 <> 0 -> HN.Row.retrieved r' <> 0).
Proof.
  exact (proj2 (proj2 (proj2 hn_table_only_grows)) Examples.hn_world
           [0; 0; 0; 0; 0; 0; 0; 0; 0; 0]%nat [HN.main]
           (Examples.hn_start Examples.hn_done) 0%nat
           (HN.Row.mk 1 300 "A" "https://a.example" "sa" 1) eq_refl).
Defined.

(** X2.  The Reddit table only grows, in the same sense: under every
    schedule of the callbacks and the release of a tick, after a program run
    to its end and after a crash, the old rows are kept in place with their
    rowid, id, title, url and summary, a flag once set stays set, and new
    rows come last. *)
Theorem reddit_table_only_grows :
  (forall (A : Type) (w : Reddit.World) (p : Reddit.Prog A) (st : Reddit.Sys),
     Growth.grown Reddit.Row.t Reddit.aged
                  (store st) (store (snd (Reddit.run w p st)))) /\
  (forall (A : Type) (w : Reddit.World) (n : nat) (p : Reddit.Prog A) (st : Reddit.Sys),
     Growth.grown Reddit.Row.t Reddit.aged
                  (store st) (store (Reddit.crashAfter w n p st))) /\
  (forall (w : Reddit.World) (sch : list nat) (pool : list (Reddit.Prog unit))
          (st : Reddit.Sys),
     Growth.grown Reddit.Row.t Reddit.aged
                  (store st) (store (snd (Reddit.interleave w sch pool st)))) /\
  (forall (w : Reddit.World) (sch : list nat) (pool : list (Reddit.Prog unit))
          (st : Reddit.Sys) (i : nat) (r : Reddit.Row.t),
     nth_error (store st) i = Some r ->
     exists r',
       nth_error (store (snd (Reddit.interleave w sch pool st))) i = Some r' /\
       Reddit.content_of r' = Reddit.content_of r /\
       (Reddit.Row.retrieved r <> 0 -> Reddit.Row.retrieved r' <> 0)).
Proof.
  split; [| split; [| split]].
  - intros A w p st. apply RedditKept.rd_run_grown.
  - intros A w n p st. apply RedditKept.rd_crash_grown.
  - intros w sch pool st. apply RedditKept.rd_interleave_grown.
  - intros w sch pool st i r Hi.
    exact (GrowthFacts.grown_nth Reddit.Row.t Reddit.aged _ _ i r
             (RedditKept.rd_interleave_grown w sch pool st) Hi).
Qed.

Lemma reddit_table_only_grows_witness :
  exists r',
    nth_error (store (snd (Reddit.interleave Examples.rd_world
                             [0; 1; 2; 0; 1; 2; 0; 1; 2; 0; 1; 2]%nat
                             (Reddit.pool_of [Examples.link_post; Examples.text_post])
                             (Examples.rd_start Examples.rd_done))))
              0 = Some r' /\
    Reddit.content_of r' = (1, "c", "C", "uc", "sc") /\
    (1 <> 0 -> Reddit.Row.retrieved r' <> 0).
Proof.
  exact (proj2 (proj2 (proj2 reddit_table_only_grows)) Examples.rd_world
           [0; 1; 2; 0; 1; 2; 0; 1; 2; 0; 1; 2]%nat
           (Reddit.pool_of [Examples.link_post; Examples.text_post])
           (Examples.rd_start Examples.rd_done) 0%nat
           (Reddit.Row.mk 1 "c" "C" "uc" "sc" 1) eq_refl).
Defined.

(** X3.  A Hacker News story is released at most once.  Once
    [getTopNewsItem] has handed out a row of a table with unique story ids,
    no later call hands out a row with that id or with that story id,
    whatever runs on the table in between (further ticks, overlapping or
    not, under any schedule). *)
Theorem hn_story_released_once (w : HN.World) (st : HN.Sys) (r : HN.Row.t) :
  HN.wf (store st) ->
  fst (HN.run w HN.getTopNewsItem st) = Fulfilled (Some r) ->
  forall (w1 : HN.World) (sch : list nat) (pool : list (HN.Prog unit)) (w2 : HN.World)
         (r' : HN.Row.t),
    fst (HN.run w2 HN.getTopNewsItem
                (snd (HN.interleave w1 sch pool (snd (HN.run w HN.getTopNewsItem st)))))
    = Fulfilled (Some r') ->
    HN.Row.id r' <> HN.Row.id r /\ HN.Row.storyId r' <> HN.Row.storyId r.
Proof.
  intros Hwf Hfst w1 sch pool w2 r'.
  rewrite (HNRelease.run_getTopNewsItem w st) in Hfst |- *.
  destruct (HN.select_top (store st)) as [r0 |] eqn:Hsel; [| discriminate Hfst].
  cbn [fst snd] in *. injection Hfst as ->.
  set (st1 := mkSys (HN.update_retrieved (HN.Row.id r) (store st))
                    (trace st ++ [HN.SelectTop; HN.UpdateRetrieved (HN.Row.id r)])).
  set (st2 := snd (HN.interleave w1 sch pool st1)).
  rewrite (HNRelease.run_getTopNewsItem w2 st2).
  destruct (HN.select_top (store st2)) as [r2 |] eqn:Hsel2;
    cbn [fst]; intros H; [injection H as -> | discriminate H].
  pose proof (proj1 (HNTable.select_top_spec _ _ Hsel)) as Hin.
  assert (Hrel : HN.released (HN.Row.id r) (store st2)).
  { apply HNOnce.interleave_released. apply HNOnce.released_update. exact Hin. }
  split; [exact (HNOnce.released_not_selected _ _ _ Hrel Hsel2) |].
  assert (Hwf2 : HN.wf (store st2)).
  { apply Tick.hn_interleave_wf. apply HNTable.update_wf. exact Hwf. }
  destruct (Crash.hn_update_flags _ _ Hin) as [Hm _].
  destruct (GrowthFacts.grown_In _ _ _ _ _ (HNKept.interleave_grown w1 sch pool st1) Hm)
    as [x [Hx [Hc _]]].
  exact (HNOnce.released_story_not_selected _ r r' x (proj2 Hwf2) Hrel Hx Hc Hsel2).
Qed.

Lemma hn_story_released_once_witness :
  (2 =? 1) = false /\ (100 =? 300) = false.
Proof.
  destruct (hn_story_released_once Examples.hn_world (Examples.hn_start Examples.hn_t3)
              (HN.Row.mk 1 300 "A" "https://a.example" "sa" 0)
              ExampleFacts.hn_t3_wf eq_refl
              Examples.hn_world [0; 0; 0; 0; 0; 0; 0; 0]%nat [HN.main] Examples.hn_world
              (HN.Row.mk 2 100 "B" "https://b.example" "sb" 0) eq_refl) as [H1 H2].
  split; apply Z.eqb_neq; assumption.
Defined.

(** X4.  A Reddit post is released at most once by releases that run to
    their end.  After [retrieveAndPost] has run on a table whose oldest
    waiting row is [r], no later SELECT of the release step finds a row with
    the id of [r], whatever runs in between under any schedule. *)
Theorem reddit_post_released_once (w : Reddit.World) (st : Reddit.Sys) (r : Reddit.Row.t) :
  Reddit.select_oldest (store st) = Some r ->
  forall (w1 : Reddit.World) (sch : list nat) (pool : list (Reddit.Prog unit))
         (r' : Reddit.Row.t),
    Reddit.select_oldest
      (store (snd (Reddit.interleave w1 sch pool
                     (snd (Reddit.run w Reddit.retrieveAndPost st))))) = Some r' ->
    Reddit.Row.id r' <> Reddit.Row.id r.
Proof.
  intros Hsel w1 sch pool r' Hsel'.
  rewrite RedditRelease.run_retrieveAndPost, Hsel in Hsel'. cbn [snd] in Hsel'.
  refine (RedditOnce.rd_released_not_selected _ _ _ _ Hsel').
  apply RedditOnce.rd_interleave_released. cbn [store].
  apply RedditOnce.rd_released_update.
  exact (proj1 (RedditTable.select_oldest_spec _ _ Hsel)).
Qed.

Lemma reddit_post_released_once_witness :
  String.eqb "a" "c" = false.
Proof.
  apply String.eqb_neq.
  exact (reddit_post_released_once Examples.rd_world (Examples.rd_start Examples.rd_t3)
           (Reddit.Row.mk 1 "c" "C" "uc" "sc" 0) eq_refl
           Examples.rd_world [0; 1; 2; 0; 1; 0; 1; 0; 1]%nat
           (Reddit.pool_of [Examples.link_post; Examples.text_post])
           (Reddit.Row.mk 2 "a" "A" "ua" "sa" 0) eq_refl).
Defined.

(** X5.  A Reddit release that is cut short is repeated.  If the process
    dies before the last command of [retrieveAndPost] (the UPDATE), the next
    [retrieveAndPost] finds the same row and goes through its commands for
    it; when the login and the facet detection answered both times and the
    first release got as far as the post, the same text is posted a second
    time. *)
Theorem reddit_interrupted_release_is_repeated :
  (forall (w w' : Reddit.World) (st : Reddit.Sys) (r : Reddit.Row.t) (n : nat),
     Reddit.select_oldest (store st) = Some r ->
     (n < List.length (Reddit.release_trace w r))%nat ->
     Reddit.run w' Reddit.retrieveAndPost (Reddit.crashAfter w n Reddit.retrieveAndPost st) =
     (Fulfilled tt,
      mkSys (Reddit.update_retrieved (Reddit.Row.id r) (store st))
            (trace st ++ firstn n (Reddit.release_trace w r) ++ Reddit.release_trace w' r))) /\
  (forall (w w' : Reddit.World) (st : Reddit.Sys) (r : Reddit.Row.t),
     Reddit.select_oldest (store st) = Some r ->
     Reddit.login w = inr tt -> Reddit.facets w (Reddit.content r) = inr tt ->
     Reddit.login w' = inr tt -> Reddit.facets w' (Reddit.content r) = inr tt ->
     trace (snd (Reddit.run w' Reddit.retrieveAndPost
                            (Reddit.crashAfter w 4 Reddit.retrieveAndPost st))) =
     trace st ++ [Reddit.SelectOldest; Reddit.AgentLogin;
                  Reddit.DetectFacets (Reddit.content r);
                  Reddit.AgentPost (Reddit.content r)]
              ++ [Reddit.SelectOldest; Reddit.AgentLogin;
                  Reddit.DetectFacets (Reddit.content r);
                  Reddit.AgentPost (Reddit.content r);
                  Reddit.UpdateRetrieved (Reddit.Row.id r)]).
Proof.
  assert (Hgen : forall (w w' : Reddit.World) (st : Reddit.Sys) (r : Reddit.Row.t) (n : nat),
             Reddit.select_oldest (store st) = Some r ->
             (n < List.length (Reddit.release_trace w r))%nat ->
             Reddit.run w' Reddit.retrieveAndPost
                        (Reddit.crashAfter w n Reddit.retrieveAndPost st) =
             (Fulfilled tt,
              mkSys (Reddit.update_retrieved (Reddit.Row.id r) (store st))
                    (trace st ++ firstn n (Reddit.release_trace w r)
                           ++ Reddit.release_trace w' r))).
  { intros w w' st r n Hsel Hn.
    rewrite (Crash.rd_crash_state w st n r Hsel).
    assert (Hle : (List.length (Reddit.release_trace w r) <=? n)%nat = false)
      by (apply Nat.leb_gt; exact Hn).
    rewrite Hle, RedditRelease.run_retrieveAndPost. cbn [store trace].
    rewrite Hsel, <- app_assoc. reflexivity. }
  split; [exact Hgen |].
  intros w w' st r Hsel Hw Hf Hw' Hf'.
  rewrite (Hgen w w' st r 4%nat Hsel).
  - unfold Reddit.release_trace, Reddit.bluesky_trace. rewrite Hw, Hf, Hw', Hf'. reflexivity.
  - unfold Reddit.release_trace, Reddit.bluesky_trace. rewrite Hw, Hf. simpl. lia.
Qed.

Lemma reddit_interrupted_release_is_repeated_witness :
  trace (snd (Reddit.run Examples.rd_world Reddit.retrieveAndPost
                (Reddit.crashAfter Examples.rd_world 4 Reddit.retrieveAndPost
                                   (Examples.rd_start Examples.rd_t3)))) =
  [Reddit.SelectOldest; Reddit.AgentLogin;
   Reddit.DetectFacets (Reddit.content (Reddit.Row.mk 1 "c" "C" "uc" "sc" 0));
   Reddit.AgentPost (Reddit.content (Reddit.Row.mk 1 "c" "C" "uc" "sc" 0));
   Reddit.SelectOldest; Reddit.AgentLogin;
   Reddit.DetectFacets (Reddit.content (Reddit.Row.mk 1 "c" "C" "uc" "sc" 0));
   Reddit.AgentPost (Reddit.content (Reddit.Row.mk 1 "c" "C" "uc" "sc" 0));
   Reddit.UpdateRetrieved "c"].
Proof.
  exact (proj2 reddit_interrupted_release_is_repeated Examples.rd_world Examples.rd_world
           (Examples.rd_start Examples.rd_t3) (Reddit.Row.mk 1 "c" "C" "uc" "sc" 0)
           eq_refl eq_refl eq_refl eq_refl eq_refl).
Defined.

(** X6.  A publication that fails is not retried.  Hacker News: when the
    Bluesky login, the facet detection on the message or the post is
    rejected, [testRetrieval] rejects with that error, and the row it had
    selected is already flagged, so the next SELECT of the release step
    finds another row; when it was the facet detection that threw, no post
    was attempted.  Reddit: [postToBluesky] swallows the failure, so
    [retrieveAndPost] is fulfilled and flags the row all the same; when the
    login failed or the facet detection threw, no post was attempted. *)
Theorem failed_publication_is_not_retried :
  (forall (w : HN.World) (st : HN.Sys) (r : HN.Row.t) (e : Err),
     HN.select_top (store st) = Some r ->
     HN.login w = inl e \/
     (HN.login w = inr tt /\ HN.facets w (HN.msg r) = inl e) \/
     (HN.login w = inr tt /\ HN.facets w (HN.msg r) = inr tt /\
      HN.post w (HN.msg r) = inl e) ->
     HN.run w HN.testRetrieval st =
     (Rejected e,
      mkSys (HN.update_retrieved (HN.Row.id r) (store st))
            (trace st ++ HN.release_cmds w r)) /\
     forall r', HN.select_top (HN.update_retrieved (HN.Row.id r) (store st)) = Some r' ->
                HN.Row.id r' <> HN.Row.id r) /\
  (forall (w : HN.World) (st : HN.Sys) (r : HN.Row.t) (e : Err),
     HN.select_top (store st) = Some r ->
     HN.login w = inr tt -> HN.facets w (HN.msg r) = inl e ->
     HN.run w HN.testRetrieval st =
     (Rejected e,
      mkSys (HN.update_retrieved (HN.Row.id r) (store st))
            (trace st ++ [HN.SelectTop; HN.UpdateRetrieved (HN.Row.id r); HN.AgentLogin;
                          HN.DetectFacets (HN.msg r)]))) /\
  (forall (w : Reddit.World) (st : Reddit.Sys) (r : Reddit.Row.t) (e : Err),
     Reddit.select_oldest (store st) = Some r ->
     Reddit.login w = inl e ->
     Reddit.run w Reddit.retrieveAndPost st =
     (Fulfilled tt,
      mkSys (Reddit.update_retrieved (Reddit.Row.id r) (store st))
            (trace st ++ [Reddit.SelectOldest; Reddit.AgentLogin;
                          Reddit.UpdateRetrieved (Reddit.Row.id r)]))) /\
  (forall (w : Reddit.World) (st : Reddit.Sys) (r : Reddit.Row.t) (e : Err),
     Reddit.select_oldest (store st) = Some r ->
     Reddit.login w = inr tt -> Reddit.facets w (Reddit.content r) = inl e ->
     Reddit.run w Reddit.retrieveAndPost st =
     (Fulfilled tt,
      mkSys (Reddit.update_retrieved (Reddit.Row.id r) (store st))
            (trace st ++ [Reddit.SelectOldest; Reddit.AgentLogin;
                          Reddit.DetectFacets (Reddit.content r);
                          Reddit.UpdateRetrieved (Reddit.Row.id r)]))) /\
  (forall (w : Reddit.World) (st : Reddit.Sys) (r : Reddit.Row.t) (e : Err),
     Reddit.select_oldest (store st) = Some r ->
     Reddit.login w = inr tt -> Reddit.facets w (Reddit.content r) = inr tt ->
     Reddit.post w (Reddit.content r) = inl e ->
     Reddit.run w Reddit.retrieveAndPost st =
     (Fulfilled tt,
      mkSys (Reddit.update_retrieved (Reddit.Row.id r) (store st))
            (trace st ++ [Reddit.SelectOldest; Reddit.AgentLogin;
                          Reddit.DetectFacets (Reddit.content r);
                          Reddit.AgentPost (Reddit.content r);
                          Reddit.UpdateRetrieved (Reddit.Row.id r)]))) /\
  (forall (w : Reddit.World) (st : Reddit.Sys) (r r' : Reddit.Row.t),
     Reddit.select_oldest (store st) = Some r ->
     Reddit.select_oldest (store (snd (Reddit.run w Reddit.retrieveAndPost st))) = Some r' ->
     Reddit.Row.id r' <> Reddit.Row.id r).
Proof.
  split; [| split; [| split; [| split; [| split]]]].
  - intros w st r e Hsel Hfail. split.
    + rewrite (HNPublish.run_testRetrieval_some w st r Hsel).
      destruct Hfail as [Hl | [[Hl Hf] | [Hl [Hf Hp]]]]; rewrite Hl;
        [| rewrite Hf | rewrite Hf, Hp]; reflexivity.
    + intros r' Hsel'. refine (HNOnce.released_not_selected _ _ _ _ Hsel').
      apply HNOnce.released_update.
      exact (proj1 (HNTable.select_top_spec _ _ Hsel)).
  - intros w st r e Hsel Hl Hf.
    rewrite (HNPublish.run_testRetrieval_some w st r Hsel).
    unfold HN.release_cmds. rewrite Hl, Hf. reflexivity.
  - intros w st r e Hsel Hl.
    rewrite RedditRelease.run_retrieveAndPost, Hsel.
    unfold Reddit.release_trace, Reddit.bluesky_trace. rewrite Hl. reflexivity.
  - intros w st r e Hsel Hl Hf.
    rewrite RedditRelease.run_retrieveAndPost, Hsel.
    unfold Reddit.release_trace, Reddit.bluesky_trace. rewrite Hl, Hf. reflexivity.
  - intros w st r e Hsel Hl Hf Hp.
    rewrite RedditRelease.run_retrieveAndPost, Hsel.
    unfold Reddit.release_trace, Reddit.bluesky_trace. rewrite Hl, Hf. reflexivity.
  - intros w st r r' Hsel. rewrite RedditRelease.run_retrieveAndPost, Hsel.
    cbn [snd store]. intros Hsel'.
    refine (RedditOnce.rd_released_not_selected _ _ _ _ Hsel').
    apply RedditOnce.rd_released_update.
    exact (proj1 (RedditTable.select_oldest_spec _ _ Hsel)).
Qed.

Lemma failed_publication_is_not_retried_witness :
  HN.run Examples.hn_world_post_down HN.testRetrieval (Examples.hn_start Examples.hn_t3) =
  (Rejected (RequestFailed "429"),
   mkSys (HN.update_retrieved 1 Examples.hn_t3)
         [HN.SelectTop; HN.UpdateRetrieved 1; HN.AgentLogin;
          HN.DetectFacets (HN.msg (HN.Row.mk 1 300 "A" "https://a.example" "sa" 0));
          HN.AgentPost (HN.msg (HN.Row.mk 1 300 "A" "https://a.example" "sa" 0))]) /\
  HN.run Examples.hn_world_mention HN.testRetrieval (Examples.hn_start Examples.hn_mention) =
  (Rejected (TypeError "Cannot read properties of undefined"),
   mkSys (HN.update_retrieved 1 Examples.hn_mention)
         [HN.SelectTop; HN.UpdateRetrieved 1; HN.AgentLogin;
          HN.DetectFacets
            (HN.msg (HN.Row.mk 1 500 "Thanks @pg.com" "https://m.example" "sm" 0))]) /\
  Reddit.run Examples.rd_world_login_down Reddit.retrieveAndPost
             (Examples.rd_start Examples.rd_t3) =
  (Fulfilled tt,
   mkSys (Reddit.update_retrieved "c" Examples.rd_t3)
         [Reddit.SelectOldest; Reddit.AgentLogin; Reddit.UpdateRetrieved "c"]) /\
  Reddit.run Examples.rd_world_mention Reddit.retrieveAndPost
             (Examples.rd_start Examples.rd_mention) =
  (Fulfilled tt,
   mkSys (Reddit.update_retrieved "m" Examples.rd_mention)
         [Reddit.SelectOldest; Reddit.AgentLogin;
          Reddit.DetectFacets
            (Reddit.content (Reddit.Row.mk 1 "m" "Thanks @pg.com" "um" "sm" 0));
          Reddit.UpdateRetrieved "m"]) /\
  Reddit.run Examples.rd_world_post_down Reddit.retrieveAndPost
             (Examples.rd_start Examples.rd_t3) =
  (Fulfilled tt,
   mkSys (Reddit.update_retrieved "c" Examples.rd_t3)
         [Reddit.SelectOldest; Reddit.AgentLogin;
          Reddit.DetectFacets (Reddit.content (Reddit.Row.mk 1 "c" "C" "uc" "sc" 0));
          Reddit.AgentPost (Reddit.content (Reddit.Row.mk 1 "c" "C" "uc" "sc" 0));
          Reddit.UpdateRetrieved "c"]) /\
  String.eqb "a" "c" = false.
Proof.
  split; [| split; [| split; [| split; [| split]]]].
  - exact (proj1 (proj1 failed_publication_is_not_retried Examples.hn_world_post_down
                    (Examples.hn_start Examples.hn_t3)
                    (HN.Row.mk 1 300 "A" "https://a.example" "sa" 0)
                    (RequestFailed "429") eq_refl
                    (or_intror (or_intror (conj eq_refl (conj eq_refl eq_refl)))))).
  - exact (proj1 (proj2 failed_publication_is_not_retried) Examples.hn_world_mention
             (Examples.hn_start Examples.hn_mention)
             (HN.Row.mk 1 500 "Thanks @pg.com" "https://m.example" "sm" 0)
             (TypeError "Cannot read properties of undefined") eq_refl eq_refl eq_refl).
  - exact (proj1 (proj2 (proj2 failed_publication_is_not_retried))
             Examples.rd_world_login_down
             (Examples.rd_start Examples.rd_t3) (Reddit.Row.mk 1 "c" "C" "uc" "sc" 0)
             (RequestFailed "401") eq_refl eq_refl).
  - exact (proj1 (proj2 (proj2 (proj2 failed_publication_is_not_retried)))
             Examples.rd_world_mention
             (Examples.rd_start Examples.rd_mention)
             (Reddit.Row.mk 1 "m" "Thanks @pg.com" "um" "sm" 0)
             (TypeError "Cannot read properties of undefined") eq_refl eq_refl eq_refl).
  - exact (proj1 (proj2 (proj2 (proj2 (proj2 failed_publication_is_not_retried))))
             Examples.rd_world_post_down
             (Examples.rd_start Examples.rd_t3) (Reddit.Row.mk 1 "c" "C" "uc" "sc" 0)
             (RequestFailed "429") eq_refl eq_refl eq_refl eq_refl).
  - apply String.eqb_neq.
    exact (proj2 (proj2 (proj2 (proj2 (proj2 failed_publication_is_not_retried))))
             Examples.rd_world_post_down
             (Examples.rd_start Examples.rd_t3) (Reddit.Row.mk 1 "c" "C" "uc" "sc" 0)
             (Reddit.Row.mk 2 "a" "A" "ua" "sa" 0) eq_refl eq_refl).
Defined.
(** X7.  What a tick of the Hacker News bot stores.  Whatever the services
    answer and however the tick ends, the loop of [main] leaves the old rows
    as they were, followed by new ones, and the new ones are stories of the
    first 15 ids of the listing, in the order of the listing, each at most
    once: stories that were not in the table, answered with a list of
    children and a non-empty url, stored with the story's title and url,
    with the chat service's summary of its first 25 children's texts, and
    unflagged.  The table [main] leaves is that table, or that table with
    the row flagged that the release at the end of the tick selected in it:
    a row that was waiting before the tick, or one of the new rows.  A tick
    adds 15 rows at most. *)
Theorem hn_tick_stores_listed_stories (w : HN.World) (st : HN.Sys) :
  exists news t1,
    HN.rows t1 = HN.rows (store st) ++ news /\
    (store (snd (HN.run w HN.main st)) = t1 \/
     exists r, HN.select_top t1 = Some r /\
               (In r (HN.pending (store st)) \/ In r news) /\
               store (snd (HN.run w HN.main st)) = HN.update_retrieved (HN.Row.id r) t1) /\
    Growth.Subseq (map HN.Row.storyId news) (HN.listed w) /\
    NoDup (map HN.Row.storyId news) /\
    Forall (HN.from_story w) news /\
    (forall r, In r news -> HN.has_story (HN.Row.storyId r) (store st) = false) /\
    (List.length news <= 15)%nat.
Proof.
  destruct (HN.run w HN.main st) as [o st'] eqn:Hrun.
  destruct (HNTickEffect.main_effect _ _ _ _ Hrun)
    as [evs [news [Ht [Hr [[t1 [Hrows Hflag]] [Hsub [Hnd [Hfrom [Hnew [Hc [Hch [Hins Hlen]]]]]]]]]]]].
  exists news, t1. cbn [snd]. split; [exact Hrows |]. split.
  - destruct Hflag as [Hsame | [r [Hsel Hupd]]]; [left; exact Hsame | right].
    exists r. split; [exact Hsel |]. split; [| exact Hupd].
    destruct (HNTable.select_top_spec _ _ Hsel) as [Hin [H0 _]].
    rewrite Hrows in Hin. apply in_app_or in Hin.
    destruct Hin as [Hin | Hin]; [left | right; exact Hin].
    apply filter_In. split; [exact Hin |]. unfold HN.unretrieved. lia.
  - repeat split; trivial. lia.
Qed.

(** X8.  What a tick of the Hacker News bot asks of the chat service.
    However the tick ends, [main] makes at most 15 chat requests; each of
    them carries the system prompt of [summarizeComments] and a user message
    that starts with its 125-character instruction; and it issues no more
    INSERTs than chat requests: nothing is stored without a summary having
    been asked for. *)
Theorem hn_tick_chat_requests (w : HN.World) (st : HN.Sys) :
  exists evs,
    trace (snd (HN.run w HN.main st)) = trace st ++ evs /\
    Forall HN.comments_request evs /\
    (HN.chats evs <= 15)%nat /\
    (HN.inserts evs <= HN.chats evs)%nat.
Proof.
  destruct (HN.run w HN.main st) as [o st'] eqn:Hrun.
  destruct (HNTickEffect.main_effect _ _ _ _ Hrun)
    as [evs [news [Ht [Hr [_ [Hsub [Hnd [Hfrom [Hnew [Hc [Hch [Hins Hlen]]]]]]]]]]]].
  exists evs. cbn [snd]. repeat split; trivial. lia.
Qed.

(** X9.  A tick of the Hacker News bot serves the backlog first.  When
    [main] is fulfilled on a table with unique ids, the row it released is
    the head of the queue made of the rows that were waiting before the tick
    followed by the rows the tick stored; the queue is one shorter
    afterwards.  A story stored in a tick is thus released in that tick only
    if nothing was waiting. *)
Theorem hn_tick_serves_the_backlog_first (w : HN.World) (st : HN.Sys) :
  HN.wf (store st) ->
  fst (HN.run w HN.main st) = Fulfilled tt ->
  exists news pre,
    map HN.content (HN.rows (store (snd (HN.run w HN.main st)))) =
    map HN.content (HN.rows (store st) ++ news) /\
    HN.pending (store (snd (HN.run w HN.main st))) = tl (HN.pending (store st) ++ news) /\
    trace (snd (HN.run w HN.main st)) =
    pre ++ match hd_error (HN.pending (store st) ++ news) with
           | Some r => HN.release_cmds w r
           | None => [HN.SelectTop]
           end.
Proof.
  intros Hwf Hok.
  destruct (HNTickEffect.main_fulfilled w st Hok) as [ids [st1 [Htop [Hing Hmain]]]].
  destruct (HNTickEffect.ingest_effect _ _ _ _ _ Hing)
    as [evs [news [Ht [Hr [Hsub [Hnd [Hfrom [Hnew _]]]]]]]].
  cbn [store] in Hr.
  assert (Hwf1 : HN.wf (store st1)).
  { pose proof (Tick.run_wf w (HN.ingest (firstn 15 ids))
                  (mkSys (store st) (trace st ++ [HN.CreateTable; HN.GetTopStories]))
                  Hwf) as H.
    rewrite Hing in H. exact H. }
  pose proof (HNTickEffect.pending_news w _ _ _ Hr Hfrom) as Hpend.
  pose proof (HNTable.select_top_oldest _ Hwf1) as Hsel.
  exists news, (trace st1). rewrite Hmain, <- Hpend.
  destruct (HN.pending (store st1)) as [| r rest] eqn:Hq; cbn [hd_error tl] in *.
  - rewrite (HNPublish.run_testRetrieval_none w st1 Hsel). cbn [snd store trace].
    rewrite Hr, Hq. repeat split.
  - rewrite (HNPublish.run_testRetrieval_some w st1 r Hsel). cbn [snd store trace].
    rewrite HNTable.update_content, Hr, (HNRelease.pending_after_release _ r rest Hwf1 Hq).
    repeat split.
Qed.

Lemma hn_tick_serves_the_backlog_first_witness :
  exists news pre,
    map HN.content
        (HN.rows (store (snd (HN.run Examples.hn_world HN.main
                                     (Examples.hn_start Examples.hn_t3))))) =
    map HN.content (HN.rows Examples.hn_t3 ++ news) /\
    HN.pending (store (snd (HN.run Examples.hn_world HN.main
                                   (Examples.hn_start Examples.hn_t3)))) =
    tl (HN.pending Examples.hn_t3 ++ news) /\
    trace (snd (HN.run Examples.hn_world HN.main (Examples.hn_start Examples.hn_t3))) =
    pre ++ match hd_error (HN.pending Examples.hn_t3 ++ news) with
           | Some r => HN.release_cmds Examples.hn_world r
           | None => [HN.SelectTop]
           end.
Proof.
  exact (hn_tick_serves_the_backlog_first Examples.hn_world
           (Examples.hn_start Examples.hn_t3) ExampleFacts.hn_t3_wf eq_refl).
Defined.

(** X10.  Saving a story and looking it up.  [saveStoryToDatabase] is
    fulfilled exactly when the story id is not in the table, and rejects
    with the constraint violation otherwise; either way, from then on
    [isStoryProcessed] answers true for that id, whatever has run on the
    table in between.  On a table with unique ids and nothing waiting, the
    row [getTopNewsItem] hands out next carries the story id, title, url and
    summary that were saved. *)
Theorem hn_saved_story_is_found :
  (forall (w : HN.World) (sid : Z) (title url summary : string) (st : HN.Sys),
     fst (HN.run w (HN.saveStoryToDatabase sid title url summary) st) =
     if HN.has_story sid (store st) then Rejected SqliteConstraint else Fulfilled tt) /\
  (forall (w : HN.World) (sid : Z) (title url summary : string) (st : HN.Sys)
          (w1 : HN.World) (sch : list nat) (pool : list (HN.Prog unit)) (w2 : HN.World),
     fst (HN.run w2 (HN.isStoryProcessed sid)
                 (snd (HN.interleave w1 sch pool
                         (snd (HN.run w (HN.saveStoryToDatabase sid title url summary) st)))))
     = Fulfilled true) /\
  (forall (w : HN.World) (sid : Z) (title url summary : string) (st : HN.Sys),
     HN.wf (store st) -> HN.pending (store st) = [] ->
     HN.has_story sid (store st) = false ->
     exists i,
       fst (HN.run w HN.getTopNewsItem
                   (snd (HN.run w (HN.saveStoryToDatabase sid title url summary) st)))
       = Fulfilled (Some (HN.Row.mk i sid title url summary 0))).
Proof.
  split; [| split].
  - intros w sid title url summary st. rewrite HNRelease.run_save. unfold HN.insert.
    destruct (HN.has_story sid (store st)); reflexivity.
  - intros w sid title url summary st w1 sch pool w2.
    rewrite HNIngest.run_isStoryProcessed. cbn [fst]. f_equal.
    apply HNTickEffect.interleave_has_story.
    rewrite HNRelease.run_save. unfold HN.insert.
    destruct (HN.has_story sid (store st)) eqn:Hhas; cbn [snd store]; [exact Hhas |].
    unfold HN.has_story. cbn [HN.rows]. rewrite existsb_app. cbn.
    rewrite Z.eqb_refl. apply orb_true_r.
  - intros w sid title url summary st Hwf Hpend Hhas.
    rewrite HNRelease.run_save.
    destruct (HN.insert sid title url summary (store st)) as [e | t'] eqn:Hins.
    { unfold HN.insert in Hins. rewrite Hhas in Hins. discriminate Hins. }
    destruct (HNRelease.pending_insert _ _ _ _ _ _ Hins) as [i [_ Hp]].
    rewrite Hpend in Hp. exists i. rewrite HNRelease.run_getTopNewsItem. cbn [snd store].
    rewrite (HNTable.select_top_oldest t' (HNTable.insert_wf _ _ _ _ _ _ Hwf Hins)), Hp.
    reflexivity.
Qed.

Lemma hn_saved_story_is_found_witness :
  exists i,
    fst (HN.run Examples.hn_world HN.getTopNewsItem
                (snd (HN.run Examples.hn_world
                             (HN.saveStoryToDatabase 400 "D" "https://d.example" "sd")
                             (Examples.hn_start Examples.hn_done))))
    = Fulfilled (Some (HN.Row.mk i 400 "D" "https://d.example" "sd" 0)).
Proof.
  refine (proj2 (proj2 hn_saved_story_is_found) Examples.hn_world 400 "D" "https://d.example"
            "sd" (Examples.hn_start Examples.hn_done) _ eq_refl eq_refl).
  split.
  - repeat constructor.
  - unfold HN.story_ids. simpl. repeat constructor; simpl; intuition discriminate.
Defined.

(** X11.  A listing that cannot be fetched ends the tick before anything
    else happens, and an empty listing leaves only the release.  Hacker
    News: when [topstories] fails, [main] rejects with that error after the
    CREATE TABLE and the request, so no story is looked at and nothing is
    released, though rows may be waiting; with an empty listing [main] is
    just [testRetrieval].  Reddit: when the token request or the listing
    fails, [main] rejects (after one, respectively two requests) and leaves
    no callback and no release behind; with an empty listing it leaves the
    release alone. *)
Theorem listing_failures_and_empty_listings :
  (forall (w : HN.World) (st : HN.Sys) (e : Err),
     HN.topstories w = inl e ->
     HN.run w HN.main st =
     (Rejected e, mkSys (store st) (trace st ++ [HN.CreateTable; HN.GetTopStories]))) /\
  (forall (w : HN.World) (st : HN.Sys),
     HN.topstories w = inr [] ->
     HN.run w HN.main st =
     HN.run w HN.testRetrieval
            (mkSys (store st) (trace st ++ [HN.CreateTable; HN.GetTopStories]))) /\
  (forall (w : Reddit.World) (st : Reddit.Sys) (e : Err),
     Reddit.access_token w = inl e ->
     Reddit.run w Reddit.main st =
     (Rejected e, mkSys (store st) (trace st ++ [Reddit.AccessToken]))) /\
  (forall (w : Reddit.World) (st : Reddit.Sys) (token : string) (e : Err),
     Reddit.access_token w = inr token -> Reddit.listing w token = inl e ->
     Reddit.run w Reddit.main st =
     (Rejected e, mkSys (store st) (trace st ++ [Reddit.AccessToken; Reddit.GetNew token]))) /\
  (forall (w : Reddit.World) (st : Reddit.Sys) (token : string),
     Reddit.access_token w = inr token -> Reddit.listing w token = inr [] ->
     Reddit.run w Reddit.main st =
     (Fulfilled [Reddit.retrieveAndPost],
      mkSys (store st) (trace st ++ [Reddit.AccessToken; Reddit.GetNew token]))).
Proof.
  split; [| split; [| split; [| split]]].
  - intros w st e H. rewrite Tick.run_main, H. reflexivity.
  - intros w st H. rewrite Tick.run_main, H. reflexivity.
  - intros w st e H.
    unfold Reddit.run, Reddit.main, Reddit.processPosts, Reddit.fetchRecentPosts.
    cbn [bind call Async.run]. unfold perform at 1. cbn [Reddit.exec store trace].
    rewrite H. reflexivity.
  - intros w st token e Ht Hl.
    unfold Reddit.run, Reddit.main, Reddit.processPosts, Reddit.fetchRecentPosts.
    cbn [bind call Async.run]. unfold perform at 1. cbn [Reddit.exec store trace].
    rewrite Ht. cbn [bind Async.run]. unfold perform at 1. cbn [Reddit.exec store trace].
    rewrite Hl. cbn [bind Async.run]. rewrite <- app_assoc. reflexivity.
  - intros w st token Ht Hl. exact (Tick.run_reddit_main w st token [] Ht Hl).
Qed.

Lemma listing_failures_and_empty_listings_witness :
  HN.run Examples.hn_world_listing_down HN.main (Examples.hn_start Examples.hn_t3) =
  (Rejected (RequestFailed "502"),
   mkSys Examples.hn_t3 [HN.CreateTable; HN.GetTopStories]) /\
  Reddit.run Examples.rd_world_token_down Reddit.main (Examples.rd_start Examples.rd_t3) =
  (Rejected (RequestFailed "401"), mkSys Examples.rd_t3 [Reddit.AccessToken]) /\
  Reddit.run Examples.rd_world_listing_down Reddit.main (Examples.rd_start Examples.rd_t3) =
  (Rejected (RequestFailed "502"),
   mkSys Examples.rd_t3 [Reddit.AccessToken; Reddit.GetNew "token"]).
Proof.
  split; [| split].
  - exact (proj1 listing_failures_and_empty_listings Examples.hn_world_listing_down
             (Examples.hn_start Examples.hn_t3) (RequestFailed "502") eq_refl).
  - exact (proj1 (proj2 (proj2 listing_failures_and_empty_listings))
             Examples.rd_world_token_down (Examples.rd_start Examples.rd_t3)
             (RequestFailed "401") eq_refl).
  - exact (proj1 (proj2 (proj2 (proj2 listing_failures_and_empty_listings)))
             Examples.rd_world_listing_down (Examples.rd_start Examples.rd_t3) "token"
             (RequestFailed "502") eq_refl eq_refl).
Defined.

(** X12.  What a tick of the Reddit bot stores.  Start from a table with
    unique ids and let the callbacks of the listed posts and the release run
    under any schedule, for any number of turns.  The table is then the old
    rows, in place and with their contents, followed by new rows; each new
    row has the id, title and url of a listed post and the summary the chat
    service gave for that post's discussion request; the new rows have
    different ids, none of which was in the table before; and there are at
    most as many of them as listed posts. *)
Theorem reddit_tick_stores_listed_posts (w : Reddit.World) (posts : list Reddit.Post.t)
        (sch : list nat) (st : Reddit.Sys) :
  Reddit.wf (store st) ->
  exists olds news,
    store (snd (Reddit.interleave w sch (Reddit.pool_of posts) st)) = olds ++ news /\
    Forall2 Reddit.aged (store st) olds /\
    Forall (fun r => exists p, In p posts /\ Reddit.from_post w p r) news /\
    NoDup (map Reddit.Row.id news) /\
    (forall r, In r news -> Reddit.has_post (Reddit.Row.id r) (store st) = false) /\
    (List.length news <= List.length posts)%nat.
Proof.
  intros Hwf.
  pose proof (RedditIngest.tick_inv w posts sch st) as Hinv.
  pose proof (Tick.interleave_wf w sch (Reddit.pool_of posts) st Hwf) as Hwf'.
  destruct (RedditKept.rd_interleave_grown w sch (Reddit.pool_of posts) st)
    as [olds [news [Hstore Haged]]].
  destruct (Reddit.interleave w sch (Reddit.pool_of posts) st) as [pool' st'].
  cbn [snd] in *. rewrite Hstore in Hwf'. destruct Hwf' as [_ Hnodup].
  assert (Hfrom : forall r, In r news -> exists p, In p posts /\ Reddit.from_post w p r).
  { intros r Hr.
    destruct (Reddit.inv_origin _ _ _ _ _ _ Hinv r) as [[r0 [Hr0 Hc]] | Hp];
      [rewrite Hstore; apply in_or_app; right; exact Hr | | exact Hp].
    exfalso. apply (RedditTickEffect.news_are_new _ _ _ r Haged Hnodup Hr).
    rewrite (RedditTickEffect.content_id _ _ Hc). apply in_map. exact Hr0. }
  assert (Hnews : NoDup (map Reddit.Row.id news)).
  { unfold Reddit.post_ids in Hnodup. rewrite map_app in Hnodup.
    exact (NoDup_app_remove_l _ _ Hnodup). }
  exists olds, news. split; [exact Hstore |]. split; [exact Haged |].
  split; [apply Forall_forall; exact Hfrom |]. split; [exact Hnews |]. split.
  - intros r Hr. apply not_true_is_false. intros Hhas.
    apply RedditTable.has_post_In in Hhas.
    exact (RedditTickEffect.news_are_new _ _ _ r Haged Hnodup Hr Hhas).
  - rewrite <- (length_map Reddit.Row.id news), <- (length_map Reddit.Post.id posts).
    apply NoDup_incl_length; [exact Hnews |].
    intros i Hi. apply in_map_iff in Hi. destruct Hi as [r [<- Hr]].
    destruct (Hfrom r Hr) as [p [Hp [Hid _]]]. rewrite Hid. apply in_map. exact Hp.
Qed.

Lemma reddit_tick_stores_listed_posts_witness :
  exists olds news,
    store (snd (Reddit.interleave Examples.rd_world
                  [0; 1; 2; 0; 1; 2; 0; 1; 2; 0; 1; 2]%nat
                  (Reddit.pool_of [Examples.link_post; Examples.text_post])
                  (Examples.rd_start Examples.rd_t3))) = olds ++ news /\
    Forall2 Reddit.aged Examples.rd_t3 olds /\
    Forall (fun r => exists p, In p [Examples.link_post; Examples.text_post] /\
                               Reddit.from_post Examples.rd_world p r) news /\
    NoDup (map Reddit.Row.id news) /\
    (forall r, In r news -> Reddit.has_post (Reddit.Row.id r) Examples.rd_t3 = false) /\
    (List.length news <= 2)%nat.
Proof.
  exact (reddit_tick_stores_listed_posts Examples.rd_world
           [Examples.link_post; Examples.text_post]
           [0; 1; 2; 0; 1; 2; 0; 1; 2; 0; 1; 2]%nat
           (Examples.rd_start Examples.rd_t3) ExampleFacts.rd_t3_wf).
Defined.

(** X13.  The tick after a tick is free.  When [main] has been fulfilled and
    the services answer the next tick as they answered this one, the next
    [main] makes no chat request and no INSERT: every story of the listing
    is either found in the table by [isStoryProcessed] or fetched and turned
    away by the guard again.  It leaves the contents of the rows as they
    are; all it does to the table is to release the next waiting row. *)
Theorem hn_next_tick_is_free (w : HN.World) (st : HN.Sys) :
  fst (HN.run w HN.main st) = Fulfilled tt ->
  exists evs,
    trace (snd (HN.run w HN.main (snd (HN.run w HN.main st)))) =
    trace (snd (HN.run w HN.main st)) ++ evs /\
    HN.chats evs = 0%nat /\ HN.inserts evs = 0%nat /\
    map HN.content (HN.rows (store (snd (HN.run w HN.main (snd (HN.run w HN.main st)))))) =
    map HN.content (HN.rows (store (snd (HN.run w HN.main st)))).
Proof.
  intros Hok.
  destruct (HNTickEffect.main_fulfilled w st Hok) as [ids [sta [Htop [Hing Hmain]]]].
  assert (Hseen : forall i, In i (firstn 15 ids) ->
                            HN.seen w (store (snd (HN.run w HN.main st))) i).
  { intros i Hi. rewrite Hmain. apply HNSecondTick.run_seen.
    exact (HNSecondTick.ingest_seen w _ _ _ Hing i Hi). }
  set (st1 := snd (HN.run w HN.main st)) in *.
  rewrite (Tick.run_main w st1), Htop. cbn zeta.
  destruct (HNSecondTick.ingest_seen_reads w (firstn 15 ids)
              (mkSys (store st1) (trace st1 ++ [HN.CreateTable; HN.GetTopStories])) Hseen)
    as [evs [Hrun Hevs]].
  rewrite Hrun. cbn [store trace].
  destruct (HNEffect.reads_quiet evs Hevs) as [H1 [H2 _]].
  destruct (HN.select_top (store st1)) as [r |] eqn:Hsel.
  - rewrite (HNPublish.run_testRetrieval_some w (mkSys (store st1) _) r Hsel). cbn [snd store trace].
    destruct (HNTickEffect.release_quiet w r) as [Q1 [Q2 _]].
    exists ([HN.CreateTable; HN.GetTopStories] ++ evs ++ HN.release_cmds w r).
    rewrite !HNEffect.chats_app, !HNEffect.inserts_app, H1, H2, Q1, Q2,
      HNTable.update_content, <- !app_assoc.
    repeat split.
  - rewrite (HNPublish.run_testRetrieval_none w (mkSys (store st1) _) Hsel). cbn [snd store trace].
    exists ([HN.CreateTable; HN.GetTopStories] ++ evs ++ [HN.SelectTop]).
    rewrite !HNEffect.chats_app, !HNEffect.inserts_app, H1, H2, <- !app_assoc.
    repeat split.
Qed.

Lemma hn_next_tick_is_free_witness :
  exists evs,
    trace (snd (HN.run Examples.hn_world HN.main
                       (snd (HN.run Examples.hn_world HN.main
                                    (Examples.hn_start HN.empty))))) =
    trace (snd (HN.run Examples.hn_world HN.main (Examples.hn_start HN.empty))) ++ evs /\
    HN.chats evs = 0%nat /\ HN.inserts evs = 0%nat /\
    map HN.content
        (HN.rows (store (snd (HN.run Examples.hn_world HN.main
                                     (snd (HN.run Examples.hn_world HN.main
                                                  (Examples.hn_start HN.empty))))))) =
    map HN.content
        (HN.rows (store (snd (HN.run Examples.hn_world HN.main
                                     (Examples.hn_start HN.empty))))).
Proof.
  exact (hn_next_tick_is_free Examples.hn_world (Examples.hn_start HN.empty) eq_refl).
Defined.

(** X14.  A Reddit post whose callback has returned is never enriched
    again.  If, under some schedule of a tick, the callback of a listed post
    has returned, then at any later time (whatever else has run on the table
    in between) the callback [processPosts] starts for that post does the
    lookup and nothing else: no chat request, no INSERT. *)
Theorem reddit_returned_callback_is_final (w : Reddit.World) (posts : list Reddit.Post.t)
        (sch : list nat) (st : Reddit.Sys) (i : nat) (p : Reddit.Post.t) :
  nth_error posts i = Some p ->
  nth_error (fst (Reddit.interleave w sch (Reddit.pool_of posts) st)) i = Some (Ret tt) ->
  forall (w1 : Reddit.World) (sch1 : list nat) (pool1 : list (Reddit.Prog unit))
         (w2 : Reddit.World),
    Reddit.run w2 (Reddit.processPost p)
               (snd (Reddit.interleave w1 sch1 pool1
                       (snd (Reddit.interleave w sch (Reddit.pool_of posts) st)))) =
    (Fulfilled tt,
     mkSys (store (snd (Reddit.interleave w1 sch1 pool1
                          (snd (Reddit.interleave w sch (Reddit.pool_of posts) st)))))
           (trace (snd (Reddit.interleave w1 sch1 pool1
                          (snd (Reddit.interleave w sch (Reddit.pool_of posts) st))))
            ++ [Reddit.SelectPost (Reddit.Post.id p)])).
Proof.
  intros Hp Htask w1 sch1 pool1 w2.
  pose proof (Tick.callback_stage w posts sch st i p (Ret tt) Hp Htask) as Hstage.
  destruct (Tick.stage_settled _ _ _ _ Hstage eq_refl) as [[_ Hin] | [e [He _]]];
    [| discriminate He].
  apply RedditCallback.run_processPost_known. apply RedditTable.has_post_In.
  apply (AsyncLaws.interleave_keeps Reddit.Cmd Reddit.Resp Reddit.World Reddit.Table
           Reddit.exec (fun t => In (Reddit.Post.id p) (Reddit.post_ids t))
           (fun w c s H => RedditIngest.exec_grows w c s _ H)).
  exact Hin.
Qed.

Lemma reddit_returned_callback_is_final_witness :
  Reddit.run Examples.rd_world (Reddit.processPost Examples.link_post)
             (snd (Reddit.interleave Examples.rd_world [1; 1; 2]%nat
                     (Reddit.pool_of [Examples.link_post; Examples.text_post])
                     (snd (Reddit.interleave Examples.rd_world [0; 0; 0; 0]%nat
                             (Reddit.pool_of [Examples.link_post; Examples.text_post])
                             (Examples.rd_start Reddit.empty))))) =
  (Fulfilled tt,
   mkSys (store (snd (Reddit.interleave Examples.rd_world [1; 1; 2]%nat
                        (Reddit.pool_of [Examples.link_post; Examples.text_post])
                        (snd (Reddit.interleave Examples.rd_world [0; 0; 0; 0]%nat
                                (Reddit.pool_of [Examples.link_post; Examples.text_post])
                                (Examples.rd_start Reddit.empty))))))
         (trace (snd (Reddit.interleave Examples.rd_world [1; 1; 2]%nat
                        (Reddit.pool_of [Examples.link_post; Examples.text_post])
                        (snd (Reddit.interleave Examples.rd_world [0; 0; 0; 0]%nat
                                (Reddit.pool_of [Examples.link_post; Examples.text_post])
                                (Examples.rd_start Reddit.empty)))))
          ++ [Reddit.SelectPost "1abcde"])).
Proof.
  exact (reddit_returned_callback_is_final Examples.rd_world
           [Examples.link_post; Examples.text_post] [0; 0; 0; 0]%nat
           (Examples.rd_start Reddit.empty) 0%nat Examples.link_post eq_refl eq_refl
           Examples.rd_world [1; 1; 2]%nat
           (Reddit.pool_of [Examples.link_post; Examples.text_post]) Examples.rd_world).
Defined.

(** X15.  What a tick of the Hacker News bot can cost.  Give each kind of
    command a price.  Whatever the services answer, one [main] run to its
    end spends at most the price of the CREATE TABLE and of the listing, 15
    times the price of a story (a lookup, 26 item requests, a chat request
    and an INSERT) and the price of a release (a SELECT, an UPDATE, a login,
    a facet detection and a post); [k] ticks in flight at once spend at most
    [k] times that under any schedule.  So a tick makes at most 390 item
    requests and 15 chat requests, stores at most 15 rows, and logs in and
    posts at most once. *)
Theorem hn_tick_cost :
  (forall (tf : HN.Tariff) (w : HN.World) (st : HN.Sys),
     exists evs,
       trace (snd (HN.run w HN.main st)) = trace st ++ evs /\
       (Cost.spent (HN.price tf) evs <= HN.tick_price tf)%nat) /\
  (forall (tf : HN.Tariff) (w : HN.World) (k : nat) (sch : list nat) (st : HN.Sys),
     exists evs,
       trace (snd (HN.interleave w sch (repeat HN.main k) st)) = trace st ++ evs /\
       (Cost.spent (HN.price tf) evs <= k * HN.tick_price tf)%nat) /\
  (forall (w : HN.World) (st : HN.Sys),
     exists evs,
       trace (snd (HN.run w HN.main st)) = trace st ++ evs /\
       (Cost.spent (HN.price HN.per_item) evs <= 390)%nat /\
       (Cost.spent (HN.price HN.per_chat) evs <= 15)%nat /\
       (Cost.spent (HN.price HN.per_insert) evs <= 15)%nat /\
       (Cost.spent (HN.price HN.per_login) evs <= 1)%nat /\
       (Cost.spent (HN.price HN.per_post) evs <= 1)%nat).
Proof.
  assert (Hrun : forall (tf : HN.Tariff) (w : HN.World) (st : HN.Sys),
             exists evs,
               trace (snd (HN.run w HN.main st)) = trace st ++ evs /\
               (Cost.spent (HN.price tf) evs <= HN.tick_price tf)%nat).
  { intros tf w st.
    exact (CostLaws.run_within HN.Cmd HN.Resp (HN.price tf) HN.World HN.Table HN.exec
             (HN.tick_price tf) w HN.main st (HNCost.within_hn_main tf)). }
  split; [exact Hrun | split].
  - intros tf w k sch st.
    destruct (CostLaws.interleave_within HN.Cmd HN.Resp (HN.price tf) HN.World HN.Table
                HN.exec w sch (repeat (HN.tick_price tf) k) (repeat HN.main k) st)
      as [evs [Ht Hle]].
    { apply CostLaws.Forall2_repeat. apply HNCost.within_hn_main. }
    exists evs. split; [exact Ht |]. rewrite CostLaws.list_sum_repeat in Hle. exact Hle.
  - intros w st.
    destruct (Hrun HN.per_item w st) as [evs [Ht H1]]. exists evs. split; [exact Ht |].
    assert (Hsame : forall tf, (Cost.spent (HN.price tf) evs <= HN.tick_price tf)%nat).
    { intros tf. destruct (Hrun tf w st) as [evs' [Ht' Hle]].
      rewrite Ht in Ht'. apply app_inv_head in Ht'. subst evs'. exact Hle. }
    split; [exact H1 |]. split; [exact (Hsame HN.per_chat) |].
    split; [exact (Hsame HN.per_insert) |]. split; [exact (Hsame HN.per_login) |].
    exact (Hsame HN.per_post).
Qed.

(** X16.  What a tick of the Reddit bot can cost.  Give each kind of command
    a price.  [main] itself spends at most the price of the token request
    and of the listing.  The callbacks of the listed posts and the release
    it leaves behind, under any schedule and whatever the services answer,
    spend at most the price of a callback (a lookup, two chat requests and
    an INSERT) for each listed post plus the price of a release (a SELECT, a
    login, a facet detection, a post and an UPDATE).  So a tick makes at
    most two chat requests and one INSERT for each listed post, and logs in
    and posts at most once. *)
Theorem reddit_tick_cost :
  (forall (tf : Reddit.Tariff) (w : Reddit.World) (st : Reddit.Sys),
     exists evs,
       trace (snd (Reddit.run w Reddit.main st)) = trace st ++ evs /\
       (Cost.spent (Reddit.price tf) evs <= Reddit.t_token tf + Reddit.t_listing tf)%nat) /\
  (forall (tf : Reddit.Tariff) (w : Reddit.World) (posts : list Reddit.Post.t)
          (sch : list nat) (st : Reddit.Sys),
     exists evs,
       trace (snd (Reddit.interleave w sch (Reddit.pool_of posts) st)) = trace st ++ evs /\
       (Cost.spent (Reddit.price tf) evs <=
        List.length posts * Reddit.callback_price tf + Reddit.release_price tf)%nat) /\
  (forall (w : Reddit.World) (posts : list Reddit.Post.t) (sch : list nat)
          (st : Reddit.Sys),
     exists evs,
       trace (snd (Reddit.interleave w sch (Reddit.pool_of posts) st)) = trace st ++ evs /\
       (Cost.spent (Reddit.price Reddit.per_chat) evs <= 2 * List.length posts)%nat /\
       (Cost.spent (Reddit.price Reddit.per_insert) evs <= List.length posts)%nat /\
       (Cost.spent (Reddit.price Reddit.per_login) evs <= 1)%nat /\
       (Cost.spent (Reddit.price Reddit.per_post) evs <= 1)%nat).
Proof.
  assert (Hpool : forall (tf : Reddit.Tariff) (w : Reddit.World)
                         (posts : list Reddit.Post.t) (sch : list nat) (st : Reddit.Sys),
             exists evs,
               trace (snd (Reddit.interleave w sch (Reddit.pool_of posts) st)) =
               trace st ++ evs /\
               (Cost.spent (Reddit.price tf) evs <=
                List.length posts * Reddit.callback_price tf + Reddit.release_price tf)%nat).
  { intros tf w posts sch st.
    destruct (CostLaws.interleave_within Reddit.Cmd Reddit.Resp (Reddit.price tf)
                Reddit.World Reddit.Table Reddit.exec w sch _ _ st
                (RedditCost.within_pool tf posts)) as [evs [Ht Hle]].
    exists evs. split; [exact Ht |]. rewrite RedditCost.pool_bound in Hle. exact Hle. }
  split; [| split; [exact Hpool |]].
  - intros tf w st.
    exact (CostLaws.run_within Reddit.Cmd Reddit.Resp (Reddit.price tf) Reddit.World
             Reddit.Table Reddit.exec _ w Reddit.main st (RedditCost.within_rd_main tf)).
  - intros w posts sch st.
    destruct (Hpool Reddit.per_chat w posts sch st) as [evs [Ht H1]].
    exists evs. split; [exact Ht |].
    assert (Hsame : forall tf,
               (Cost.spent (Reddit.price tf) evs <=
                List.length posts * Reddit.callback_price tf + Reddit.release_price tf)%nat).
    { intros tf. destruct (Hpool tf w posts sch st) as [evs' [Ht' Hle]].
      rewrite Ht in Ht'. apply app_inv_head in Ht'. subst evs'. exact Hle. }
    pose proof (Hsame Reddit.per_insert) as H2.
    pose proof (Hsame Reddit.per_login) as H3.
    pose proof (Hsame Reddit.per_post) as H4.
    cbn in H1, H2, H3, H4. repeat split; lia.
Qed.

(** X17.  A tick of the Reddit bot pays for new posts only.  Under any
    schedule and whatever the services answer, the callbacks and the release
    spend at most, for each listed post, the price of a lookup if the post
    was in the table when the callbacks were started and the price of a full
    callback otherwise, plus the price of a release.  When every listed post
    was in the table, the tick makes no chat request and no INSERT at all. *)
Theorem reddit_tick_pays_for_new_posts_only :
  (forall (tf : Reddit.Tariff) (w : Reddit.World) (posts : list Reddit.Post.t)
          (sch : list nat) (st : Reddit.Sys),
     exists evs,
       trace (snd (Reddit.interleave w sch (Reddit.pool_of posts) st)) = trace st ++ evs /\
       (Cost.spent (Reddit.price tf) evs <=
        list_sum (map (Reddit.post_price tf (store st)) posts) + Reddit.release_price tf)%nat) /\
  (forall (w : Reddit.World) (posts : list Reddit.Post.t) (sch : list nat)
          (st : Reddit.Sys),
     (forall p, In p posts -> Reddit.has_post (Reddit.Post.id p) (store st) = true) ->
     exists evs,
       trace (snd (Reddit.interleave w sch (Reddit.pool_of posts) st)) = trace st ++ evs /\
       Cost.spent (Reddit.price Reddit.per_chat) evs = 0%nat /\
       Cost.spent (Reddit.price Reddit.per_insert) evs = 0%nat).
Proof.
  assert (Hgen : forall (tf : Reddit.Tariff) (w : Reddit.World) (posts : list Reddit.Post.t)
                        (sch : list nat) (st : Reddit.Sys),
             exists evs,
               trace (snd (Reddit.interleave w sch (Reddit.pool_of posts) st)) =
               trace st ++ evs /\
               (Cost.spent (Reddit.price tf) evs <=
                list_sum (map (Reddit.post_price tf (store st)) posts)
                + Reddit.release_price tf)%nat).
  { intros tf w posts sch st.
    destruct (RedditNew.interleave_within_at tf w sch _ _ st
                (RedditNew.pool_at tf (store st) posts)) as [evs [Ht Hle]].
    exists evs. split; [exact Ht |]. rewrite RedditNew.pool_at_bound in Hle. exact Hle. }
  split; [exact Hgen |].
  intros w posts sch st Hknown.
  destruct (Hgen Reddit.per_chat w posts sch st) as [evs [Ht H1]].
  destruct (Hgen Reddit.per_insert w posts sch st) as [evs' [Ht' H2]].
  rewrite Ht in Ht'. apply app_inv_head in Ht'. subst evs'.
  rewrite (RedditNew.known_posts_price Reddit.per_chat _ _ Hknown) in H1.
  rewrite (RedditNew.known_posts_price Reddit.per_insert _ _ Hknown) in H2.
  cbn in H1, H2. exists evs. split; [exact Ht |]. split; lia.
Qed.

Lemma reddit_tick_pays_for_new_posts_only_witness :
  exists evs,
    trace (snd (Reddit.interleave Examples.rd_world [0; 1; 2; 2; 2; 2; 0; 1]%nat
                  (Reddit.pool_of [Examples.link_post; Examples.text_post])
                  (Examples.rd_start Examples.rd_seen))) = [] ++ evs /\
    Cost.spent (Reddit.price Reddit.per_chat) evs = 0%nat /\
    Cost.spent (Reddit.price Reddit.per_insert) evs = 0%nat.
Proof.
  refine (proj2 reddit_tick_pays_for_new_posts_only Examples.rd_world
            [Examples.link_post; Examples.text_post] [0; 1; 2; 2; 2; 2; 0; 1]%nat
            (Examples.rd_start Examples.rd_seen) _).
  intros p [<- | [<- | []]]; reflexivity.
Defined.

